(** * The go/analysis driver of golangci-lint: [pkg/golinters/goanalysis/runner.go]

    A shallow embedding of the action graph builder, the package loader's
    per-package algorithm, the action executor's run gating, the fact
    operations of a pass, fact persistence and the diagnostic collector,
    followed by the properties the design document states about them.

    Pointers of the Go program ([*analysis.Analyzer], [*packages.Package],
    [*types.Package], [types.Object], [*action]) are modelled as addresses;
    what they point to lives in explicit stores.  Go maps are finite maps
    ([gmap]); where the program ranges over a map the model ranges over
    [map_to_list], one of the orders Go may pick. *)

From Stdlib Require Import String Ascii.
From stdpp Require Import gmap strings list fin_maps functions sorting.

Local Open Scope string_scope.
Local Open Scope list_scope.

(** ** Addresses *)

Abbreviation AnalyzerPtr := positive (only parsing).
Abbreviation PackagePtr := positive (only parsing).
Abbreviation TypesPkgPtr := positive (only parsing).
Abbreviation ObjectPtr := positive (only parsing).
Abbreviation ActionPtr := nat (only parsing).

(** ** Byte-wise ordering of Go strings, as used by [sort.Strings] *)

Definition string_le (s1 s2 : string) : Prop := String.leb s1 s2 = true.

#[global] Instance string_le_dec s1 s2 : Decision (string_le s1 s2).
Proof. unfold string_le. apply _. Defined.

#[global] Instance string_le_total : Total string_le.
Proof. intros s1 s2. apply String.leb_total. Qed.

#[global] Instance string_le_antisymm : AntiSymm (=) string_le.
Proof. intros s1 s2. apply String.leb_antisym. Qed.

(** [sort.Strings] *)
Definition sort_Strings (l : list string) : list string := merge_sort string_le l.

(** [strings.Join] *)
Fixpoint strings_Join (l : list string) (sep : string) : string :=
  match l with
  | [] => EmptyString
  | [s] => s
  | s :: l' => s +:+ sep +:+ strings_Join l' sep
  end.

(** ** Errors *)

(** [packages.ErrorKind] and [packages.Error] *)
Inductive ErrorKind := UnknownError | ListError | ParseError | TypeError.

#[global] Instance ErrorKind_eq_dec : EqDecision ErrorKind.
Proof. solve_decision. Defined.

Record packages_Error := mkPackagesError {
  PE_Pos : string;
  PE_Msg : string;
  PE_Kind : ErrorKind
}.

#[global] Instance packages_Error_eq_dec : EqDecision packages_Error.
Proof. solve_decision. Defined.

(** The dynamic types of [error] values the driver meets: [fmt.Errorf] and
    [errors.New] build a message; [errors.Wrap] decorates a cause;
    [pkgcache.ErrMissing] is the cache's sentinel; the others are the error
    types [convertError] switches on, each with its positions already
    rendered as strings. *)
Inductive error :=
  | errorString (msg : string)
  | Wrap (cause : error) (msg : string)
  | ErrMissing
  | PackagesError (e : packages_Error)
  | PathError (path : string) (msg : string)
  | ScannerErrorList (l : list (string * string))
  | TypesError (pos : string) (msg : string).

#[global] Instance error_eq_dec : EqDecision error.
Proof. solve_decision. Defined.

(** [err.Error()] *)
Fixpoint error_Error (e : error) : string :=
  match e with
  | errorString msg => msg
  | Wrap cause msg => msg +:+ ": " +:+ error_Error cause
  | ErrMissing => "missing data"
  | PackagesError e => PE_Pos e +:+ ": " +:+ PE_Msg e
  | PathError path msg => "open " +:+ path +:+ ": " +:+ msg
  | ScannerErrorList [] => "no errors"
  | ScannerErrorList ((pos, msg) :: _) => pos +:+ ": " +:+ msg
  | TypesError pos msg => pos +:+ ": " +:+ msg
  end.

(** ** Outcomes of calls that may panic ([panic], [log.Panicf], a run-time
    error) or end the process ([log.Fatalf]) *)
Inductive outcome (A : Type) :=
  | Ok (x : A)
  | Panic (msg : string)
  | Fatal (msg : string).
Arguments Ok {A} x.
Arguments Panic {A} msg.
Arguments Fatal {A} msg.

(** ** Facts and their runtime type descriptors *)

(** [reflect.Type], reduced to what the driver inspects: whether its kind is
    [reflect.Ptr], and its identity. *)
Record rtype := RType { rt_isPtr : bool; rt_id : positive }.

#[global] Instance rtype_eq_dec : EqDecision rtype.
Proof. solve_decision. Defined.

#[global] Instance rtype_countable : Countable rtype.
Proof.
  refine (inj_countable' (λ t, (rt_isPtr t, rt_id t)) (λ p, RType p.1 p.2) _).
  by intros [].
Defined.

(** An [analysis.Fact] value: its dynamic type and its contents. *)
Record analysis_Fact := mkAFact { fact_type : rtype; fact_data : list nat }.

#[global] Instance analysis_Fact_eq_dec : EqDecision analysis_Fact.
Proof. solve_decision. Defined.

(** The persisted [Fact] record: [Path] is non-empty only for object facts. *)
Record Fact := mkFact { Path : string; Fact_Fact : analysis_Fact }.

#[global] Instance Fact_eq_dec : EqDecision Fact.
Proof. solve_decision. Defined.

(** [objectFactKey] and [packageFactKey].  The package component is a
    [*types.Package], which may be nil. *)
Abbreviation objectFactKey := (ObjectPtr * rtype)%type.
Abbreviation packageFactKey := (option TypesPkgPtr * rtype)%type.

(** ** Positions and diagnostics *)

(** [token.Position] *)
Record Position := mkPosition {
  Filename : string;
  Offset : nat;
  Line : nat;
  Column : nat
}.

#[global] Instance Position_eq_dec : EqDecision Position.
Proof. solve_decision. Defined.

#[global] Instance Position_countable : Countable Position.
Proof.
  refine (inj_countable'
            (λ p, (Filename p, Offset p, Line p, Column p))
            (λ t, mkPosition t.1.1.1 t.1.1.2 t.1.2 t.2) _).
  by intros [].
Defined.

(** [analysis.Diagnostic]; [Pos] is a [token.Pos]. *)
Record AnalysisDiagnostic := mkAnalysisDiagnostic {
  Pos : nat;
  Category : string;
  Message : string
}.

#[global] Instance AnalysisDiagnostic_eq_dec : EqDecision AnalysisDiagnostic.
Proof. solve_decision. Defined.

(** The driver's [Diagnostic]: the analyzer's diagnostic, the analyzer and the
    materialized position. *)
Record Diagnostic := mkDiagnostic {
  Diag : AnalysisDiagnostic;
  DAnalyzer : AnalyzerPtr;
  DPosition : Position
}.

#[global] Instance Diagnostic_eq_dec : EqDecision Diagnostic.
Proof. solve_decision. Defined.

(** ** Analyzers *)

(** The attributes of [analysis.Analyzer] the driver consults.  [FactTypes]
    lists one prototype fact per fact type. *)
Record Analyzer := mkAnalyzer {
  Name : string;
  Requires : list AnalyzerPtr;
  FactTypes : list analysis_Fact;
  ResultType : option rtype;
  RunDespiteErrors : bool
}.

(** ** Packages and type-checker objects *)

(** [ast.File], reduced to the position of its package clause ([File.Pos]). *)
Record File := mkFile { File_Package : nat }.

#[global] Instance File_eq_dec : EqDecision File.
Proof. solve_decision. Defined.

(** [packages.Package].  [Types] is nil until a load fills it; [TypesInfo]
    is nil or set; [Fset] is the file set's [Position] method. *)
Record Package := mkPackage {
  ID : string;
  PkgName : string;
  PkgPath : string;
  Imports : gmap string PackagePtr;
  CompiledGoFiles : list string;
  ExportFile : string;
  IllTyped : bool;
  Types : option TypesPkgPtr;
  Syntax : list (option File);
  TypesInfo : bool;
  Errors : list packages_Error;
  Fset : nat → Position
}.

(** The concrete types behind [types.Object] and what [exportedFrom] and the
    fact operations ask of them. *)
Inductive Object :=
  | Func (exported : bool) (pkg : option TypesPkgPtr) (hasRecv : bool)
  | Var (exported : bool) (pkg : option TypesPkgPtr) (isField : bool)
  | TypeName (pkg : option TypesPkgPtr)
  | Const (pkg : option TypesPkgPtr)
  | Nil
  | Builtin
  | Label (pkg : option TypesPkgPtr)
  | PkgName_ (pkg : option TypesPkgPtr).

(** [obj.Pkg()] *)
Definition Object_Pkg (o : Object) : option TypesPkgPtr :=
  match o with
  | Func _ pkg _ | Var _ pkg _ | TypeName pkg | Const pkg | Label pkg
  | PkgName_ pkg => pkg
  | Nil | Builtin => None
  end.

(** ** The pass handed to an analyzer *)

(** [analysis.Pass]: the two export callbacks are either set or nil. *)
Record Pass := mkPass {
  Pass_Analyzer : AnalyzerPtr;
  Pass_Files : list (option File);
  Pass_Pkg : option TypesPkgPtr;
  Pass_ResultOf : gmap AnalyzerPtr (option (rtype * nat));
  Pass_ExportObjectFact : bool;
  Pass_ExportPackageFact : bool
}.

(** ** Actions *)

(** [action]: one analyzer applied to one package.  [result] is the
    analyzer's result with its dynamic type (nil when there is none).  The
    fields that only carry the runner's logger, prefix and cache, the
    duration and the [analysisDoneCh] channel are left out: the model runs
    an action when its dependencies are done. *)
Record action := mkActionRec {
  act_a : AnalyzerPtr;
  act_pkg : PackagePtr;
  act_pass : option Pass;
  isroot : bool;
  isInitialPkg : bool;
  needAnalyzeSource : bool;
  deps : list ActionPtr;
  objectFacts : gmap objectFactKey analysis_Fact;
  packageFacts : gmap packageFactKey analysis_Fact;
  result : option (rtype * nat);
  diagnostics : list AnalysisDiagnostic;
  act_err : option error;
  loadCachedFactsDone : bool;
  loadCachedFactsOk : bool
}.

Definition set_deps (f : list ActionPtr → list ActionPtr) (x : action) : action :=
  mkActionRec (act_a x) (act_pkg x) (act_pass x) (isroot x) (isInitialPkg x)
    (needAnalyzeSource x) (f (deps x)) (objectFacts x) (packageFacts x)
    (result x) (diagnostics x) (act_err x) (loadCachedFactsDone x)
    (loadCachedFactsOk x).

Definition set_isroot (b : bool) (x : action) : action :=
  mkActionRec (act_a x) (act_pkg x) (act_pass x) b (isInitialPkg x)
    (needAnalyzeSource x) (deps x) (objectFacts x) (packageFacts x)
    (result x) (diagnostics x) (act_err x) (loadCachedFactsDone x)
    (loadCachedFactsOk x).

Definition set_needAnalyzeSource (b : bool) (x : action) : action :=
  mkActionRec (act_a x) (act_pkg x) (act_pass x) (isroot x) (isInitialPkg x)
    b (deps x) (objectFacts x) (packageFacts x)
    (result x) (diagnostics x) (act_err x) (loadCachedFactsDone x)
    (loadCachedFactsOk x).

Definition set_pass (p : option Pass) (x : action) : action :=
  mkActionRec (act_a x) (act_pkg x) p (isroot x) (isInitialPkg x)
    (needAnalyzeSource x) (deps x) (objectFacts x) (packageFacts x)
    (result x) (diagnostics x) (act_err x) (loadCachedFactsDone x)
    (loadCachedFactsOk x).

Definition set_objectFacts (m : gmap objectFactKey analysis_Fact) (x : action) : action :=
  mkActionRec (act_a x) (act_pkg x) (act_pass x) (isroot x) (isInitialPkg x)
    (needAnalyzeSource x) (deps x) m (packageFacts x)
    (result x) (diagnostics x) (act_err x) (loadCachedFactsDone x)
    (loadCachedFactsOk x).

Definition set_packageFacts (m : gmap packageFactKey analysis_Fact) (x : action) : action :=
  mkActionRec (act_a x) (act_pkg x) (act_pass x) (isroot x) (isInitialPkg x)
    (needAnalyzeSource x) (deps x) (objectFacts x) m
    (result x) (diagnostics x) (act_err x) (loadCachedFactsDone x)
    (loadCachedFactsOk x).

Definition set_result (r : option (rtype * nat)) (x : action) : action :=
  mkActionRec (act_a x) (act_pkg x) (act_pass x) (isroot x) (isInitialPkg x)
    (needAnalyzeSource x) (deps x) (objectFacts x) (packageFacts x)
    r (diagnostics x) (act_err x) (loadCachedFactsDone x)
    (loadCachedFactsOk x).

Definition set_diagnostics (d : list AnalysisDiagnostic) (x : action) : action :=
  mkActionRec (act_a x) (act_pkg x) (act_pass x) (isroot x) (isInitialPkg x)
    (needAnalyzeSource x) (deps x) (objectFacts x) (packageFacts x)
    (result x) d (act_err x) (loadCachedFactsDone x)
    (loadCachedFactsOk x).

Definition set_err (e : option error) (x : action) : action :=
  mkActionRec (act_a x) (act_pkg x) (act_pass x) (isroot x) (isInitialPkg x)
    (needAnalyzeSource x) (deps x) (objectFacts x) (packageFacts x)
    (result x) (diagnostics x) e (loadCachedFactsDone x)
    (loadCachedFactsOk x).

Definition set_loadCachedFacts (done ok : bool) (x : action) : action :=
  mkActionRec (act_a x) (act_pkg x) (act_pass x) (isroot x) (isInitialPkg x)
    (needAnalyzeSource x) (deps x) (objectFacts x) (packageFacts x)
    (result x) (diagnostics x) (act_err x) done ok.

(** The key of the [actions] table of [runner.analyze]. *)
Definition action_key (x : action) : AnalyzerPtr * PackagePtr := (act_a x, act_pkg x).

(** * The action graph builder ([runner.analyze], [mkAction]) *)

Module Builder.

(** The variables [mkAction] closes over: the [actions] table, the heap of
    allocated [action] structs (with the next free address) and the types
    handed to [gob.Register]. *)
Record builder := mkBuilder {
  heap : gmap ActionPtr action;
  next : ActionPtr;
  actions : gmap (AnalyzerPtr * PackagePtr) ActionPtr;
  gobRegistered : list analysis_Fact
}.

Definition empty : builder := mkBuilder ∅ 0 ∅ [].

(** [act = &action{...}] *)
Definition alloc (x : action) (st : builder) : ActionPtr * builder :=
  (next st, mkBuilder (<[next st := x]> (heap st)) (S (next st)) (actions st)
              (gobRegistered st)).

(** [act.deps = append(act.deps, dep)] *)
Definition appendDep (act dep : ActionPtr) (st : builder) : builder :=
  mkBuilder (alter (set_deps (λ ds, ds ++ [dep])) act (heap st)) (next st)
    (actions st) (gobRegistered st).

(** [actions[k] = act] *)
Definition setAction (k : AnalyzerPtr * PackagePtr) (act : ActionPtr)
    (st : builder) : builder :=
  mkBuilder (heap st) (next st) (<[k := act]> (actions st)) (gobRegistered st).

(** [for _, f := range a.FactTypes { gob.Register(f) }] *)
Definition gobRegister (fs : list analysis_Fact) (st : builder) : builder :=
  mkBuilder (heap st) (next st) (actions st) (gobRegistered st ++ fs).

(** [root.isroot = true] *)
Definition markRoot (act : ActionPtr) (st : builder) : builder :=
  mkBuilder (alter (set_isroot true) act (heap st)) (next st) (actions st)
    (gobRegistered st).

(** ** Invariants of the builder *)

(** Every entry of the [actions] table points to an allocated action whose
    analyzer and package are the entry's key. *)
Definition keyed (st : builder) : Prop :=
  ∀ k ptr, actions st !! k = Some ptr →
    ∃ x, heap st !! ptr = Some x ∧ action_key x = k.

(** Addresses are handed out in order. *)
Definition allocated (st : builder) : Prop :=
  ∀ ptr x, heap st !! ptr = Some x → ptr < next st.

(** Every allocated action is the table's entry for its key, save for the
    actions in [pending], which [mkAction] is still filling in. *)
Definition registered (pending : gset ActionPtr) (st : builder) : Prop :=
  ∀ ptr x, heap st !! ptr = Some x →
    ptr ∈ pending ∨ actions st !! action_key x = Some ptr.

Section WithProgram.

(** The analyzers and the packages, as supplied by the caller; [initialPkgs]
    is the set of keys of the [initialPkgs] map. *)
Variable analyzer : AnalyzerPtr → Analyzer.
Variable pkgs : PackagePtr → Package.
Variable initialPkgs : gset PackagePtr.

(** The struct literal of [mkAction]. *)
Definition newAction (a : AnalyzerPtr) (pkg : PackagePtr) : action :=
  {| act_a := a;
     act_pkg := pkg;
     act_pass := None;
     isroot := false;
     isInitialPkg := bool_decide (pkg ∈ initialPkgs);
     needAnalyzeSource := bool_decide (pkg ∈ initialPkgs);
     deps := [];
     objectFacts := ∅;
     packageFacts := ∅;
     result := None;
     diagnostics := [];
     act_err := None;
     loadCachedFactsDone := false;
     loadCachedFactsOk := false |}.

(** [for _, req := range a.Requires { act.deps = append(act.deps, mkAction(req, pkg)) }],
    with the recursive call abstracted as [mk]. *)
Fixpoint forRequires (mk : AnalyzerPtr → PackagePtr → builder → option (ActionPtr * builder))
    (act : ActionPtr) (pkg : PackagePtr) (reqs : list AnalyzerPtr)
    (st : builder) : option builder :=
  match reqs with
  | [] => Some st
  | req :: reqs' =>
      match mk req pkg st with
      | None => None
      | Some (dep, st') => forRequires mk act pkg reqs' (appendDep act dep st')
      end
  end.

(** [for _, path := range paths { dep := mkAction(a, pkg.Imports[path]); act.deps = append(act.deps, dep) }] *)
Fixpoint forPaths (mk : AnalyzerPtr → PackagePtr → builder → option (ActionPtr * builder))
    (act : ActionPtr) (a : AnalyzerPtr) (imports : gmap string PackagePtr)
    (paths : list string) (st : builder) : option builder :=
  match paths with
  | [] => Some st
  | path :: paths' =>
      match imports !! path with
      | None => None
      | Some q =>
          match mk a q st with
          | None => None
          | Some (dep, st') => forPaths mk act a imports paths' (appendDep act dep st')
          end
      end
  end.

(** The keys of [pkg.Imports], collected by ranging over the map and sorted. *)
Definition importPaths (pkg : PackagePtr) : list string :=
  sort_Strings (map_to_list (Imports (pkgs pkg))).*1.

(** [mkAction].  The Go closure recurses over [a.Requires] and [pkg.Imports];
    [fuel] bounds the depth of that recursion, and [None] means the bound was
    reached. *)
Fixpoint mkAction (fuel : nat) (a : AnalyzerPtr) (pkg : PackagePtr)
    (st : builder) : option (ActionPtr * builder) :=
  match actions st !! (a, pkg) with
  | Some act => Some (act, st)
  | None =>
      match fuel with
      | 0 => None
      | S fuel' =>
          let '(act, st) := alloc (newAction a pkg) st in
          match forRequires (mkAction fuel') act pkg (Requires (analyzer a)) st with
          | None => None
          | Some st =>
              let st' :=
                if bool_decide (0 < length (FactTypes (analyzer a))) then
                  match forPaths (mkAction fuel') act a (Imports (pkgs pkg))
                          (importPaths pkg) st with
                  | None => None
                  | Some st => Some (gobRegister (FactTypes (analyzer a)) st)
                  end
                else Some st in
              match st' with
              | None => None
              | Some st => Some (act, setAction (a, pkg) act st)
              end
          end
      end
  end.

(** The loop of [runner.analyze] that builds the nodes for the initial
    packages: the inner loop over [pkgs], then the outer loop over
    [analyzers]. *)
Fixpoint rootsForPkgs (fuel : nat) (a : AnalyzerPtr) (pkgs : list PackagePtr)
    (roots : list ActionPtr) (st : builder) : option (list ActionPtr * builder) :=
  match pkgs with
  | [] => Some (roots, st)
  | pkg :: pkgs' =>
      match mkAction fuel a pkg st with
      | None => None
      | Some (root, st') =>
          rootsForPkgs fuel a pkgs' (roots ++ [root]) (markRoot root st')
      end
  end.

Fixpoint rootsForAnalyzers (fuel : nat) (analyzers : list AnalyzerPtr)
    (pkgs : list PackagePtr) (roots : list ActionPtr) (st : builder)
    : option (list ActionPtr * builder) :=
  match analyzers with
  | [] => Some (roots, st)
  | a :: analyzers' =>
      match rootsForPkgs fuel a pkgs roots st with
      | None => None
      | Some (roots', st') => rootsForAnalyzers fuel analyzers' pkgs roots' st'
      end
  end.

(** [allActions]: the values of the [actions] table. *)
Definition allActions (st : builder) : list ActionPtr := (map_to_list (actions st)).*2.

(** The graph construction of [runner.analyze], from the empty table. *)
Definition buildGraph (fuel : nat) (analyzers : list AnalyzerPtr)
    (pkgs : list PackagePtr) : option (list ActionPtr * builder) :=
  rootsForAnalyzers fuel analyzers pkgs [] empty.

(** The two loops of [mkAction] have one shape: for each key of a list, make
    the action and append it to [act.deps]. *)
Fixpoint forKeys (mk : AnalyzerPtr → PackagePtr → builder → option (ActionPtr * builder))
    (act : ActionPtr) (ks : list (AnalyzerPtr * PackagePtr)) (st : builder)
    : option builder :=
  match ks with
  | [] => Some st
  | (a, p) :: ks' =>
      match mk a p st with
      | None => None
      | Some (dep, st') => forKeys mk act ks' (appendDep act dep st')
      end
  end.

(** What [runner.analyze] does to the builder between two of its states: it
    calls [mkAction] and marks what it got as a root.  It starts from the
    empty builder. *)
Inductive steps (st0 : builder) : builder → Prop :=
  | steps_refl : steps st0 st0
  | steps_mkAction fuel a pkg st act st' :
      steps st0 st → mkAction fuel a pkg st = Some (act, st') → steps st0 st'
  | steps_markRoot act st : steps st0 st → steps st0 (markRoot act st).

Definition reachable (st : builder) : Prop := steps empty st.

(** An action is linked when its dependencies are the table's actions of
    the analyzers its analyzer requires, on its package, followed, if its
    analyzer has fact types, by the table's actions of its analyzer on the
    imports of its package, in the order of [importPaths]. *)
Definition linked (st : builder) (x : action) : Prop :=
  ∃ reqDeps impDeps,
    deps x = reqDeps ++ impDeps
    ∧ Forall2 (λ req dep, actions st !! (req, act_pkg x) = Some dep)
        (Requires (analyzer (act_a x))) reqDeps
    ∧ if bool_decide (0 < length (FactTypes (analyzer (act_a x)))) then
        Forall2 (λ path dep,
                   ∃ q, Imports (pkgs (act_pkg x)) !! path = Some q
                        ∧ actions st !! (act_a x, q) = Some dep)
          (importPaths (act_pkg x)) impDeps
      else impDeps = [].

(** The invariant of the builder; [pending] holds the actions [mkAction] is
    still filling in, which are allocated but neither in the table nor
    linked yet. *)
Definition inv (pending : gset ActionPtr) (st : builder) : Prop :=
  keyed st ∧ allocated st ∧ registered pending st
  ∧ (∀ ptr, ptr ∈ pending → ptr < next st)
  ∧ (∀ ptr x, heap st !! ptr = Some x → ptr ∉ pending → linked st x).

End WithProgram.

(** From [st] to [st'] the table only gained entries, every new key of
    measure below [bound], and the actions allocated before, save those in
    [except], are as they were. *)
Definition grows (m : AnalyzerPtr * PackagePtr → nat) (bound : nat)
    (except : gset ActionPtr) (st st' : builder) : Prop :=
  (next st ≤ next st')%nat
  ∧ (∀ k ptr, actions st !! k = Some ptr → actions st' !! k = Some ptr)
  ∧ (∀ k, actions st !! k = None → is_Some (actions st' !! k) → (m k < bound)%nat)
  ∧ (∀ ptr, ptr < next st → ptr ∉ except → heap st' !! ptr = heap st !! ptr).

End Builder.

(** * The diagnostic collector ([extractDiagnostics]) *)

Module Collector.

(** The variables the [extract] closure captures besides [extracted]. *)
Record collector := mkCollector {
  seen : gset (Position * AnalyzerPtr * string);
  retDiags : list Diagnostic;
  retErrors : list error
}.

Definition init : collector := mkCollector ∅ [] [].

Section Traversal.

(** [visitAll] only touches the [extracted] set and calls the [extract]
    closure, so it is written once for any state [St] that closure owns.
    [fuel] bounds the depth of the recursion into [act.deps]. *)
Context {St : Type}.
Variable heap : gmap ActionPtr action.
Variable extract : ActionPtr → St → option St.

Fixpoint visitAll (fuel : nat) (actions : list ActionPtr)
    (st : gset ActionPtr * St) : option (gset ActionPtr * St) :=
  match fuel with
  | 0 => None
  | S fuel' =>
      (fix loop (actions : list ActionPtr) (st : gset ActionPtr * St) :=
         match actions with
         | [] => Some st
         | act :: rest =>
             if decide (act ∈ st.1) then loop rest st
             else
               match heap !! act with
               | None => None
               | Some x =>
                   match visitAll fuel' (deps x) ({[act]} ∪ st.1, st.2) with
                   | None => None
                   | Some st' =>
                       match extract act st'.2 with
                       | None => None
                       | Some s => loop rest (st'.1, s)
                       end
                   end
               end
         end) actions st
  end.

End Traversal.

(** Every action the heap holds has its dependencies in the heap: no
    [*action] of the graph dangles. *)
Definition closed (heap : gmap ActionPtr action) : Prop :=
  ∀ a x, heap !! a = Some x → ∀ d, d ∈ deps x → d ∈ dom heap.

Section WithProgram.

Variable analyzer : AnalyzerPtr → Analyzer.
Variable pkgs : PackagePtr → Package.
Variable heap : gmap ActionPtr action.

(** The body of the loop over [act.diagnostics]. *)
Definition report (x : action) (c : collector) (diag : AnalysisDiagnostic) : collector :=
  let posn := Fset (pkgs (act_pkg x)) (Pos diag) in
  let k := (posn, act_a x, Message diag) in
  if decide (k ∈ seen c) then c
  else mkCollector ({[k]} ∪ seen c)
         (retDiags c ++ [mkDiagnostic diag (act_a x) posn]) (retErrors c).

(** The [extract] closure. *)
Definition extract (act : ActionPtr) (c : collector) : option collector :=
  match heap !! act with
  | None => None
  | Some x =>
      match act_err x with
      | Some e =>
          Some (mkCollector (seen c) (retDiags c)
                  (retErrors c ++ [Wrap e (Name (analyzer (act_a x)))]))
      | None =>
          if isroot x then Some (foldl (report x) c (diagnostics x)) else Some c
      end
  end.

(** [extractDiagnostics].  No more actions than the heap holds can be on the
    recursion stack at once, which gives the fuel. *)
Definition extractDiagnostics (roots : list ActionPtr)
    : option (list Diagnostic * list error) :=
  match visitAll heap extract (S (size heap)) roots (∅, init) with
  | None => None
  | Some (_, c) => Some (retDiags c, retErrors c)
  end.

(** The order in which the traversal hands actions to [extract]: the same
    [visitAll], with a closure that only records its argument. *)
Definition record (act : ActionPtr) (l : list ActionPtr) : option (list ActionPtr) :=
  Some (l ++ [act]).

Definition visitOrder (roots : list ActionPtr) : option (list ActionPtr) :=
  match visitAll heap record (S (size heap)) roots (∅, []) with
  | None => None
  | Some (_, l) => Some l
  end.

(** [extract] applied to the actions of a list, in order. *)
Definition extractAll (order : list ActionPtr) (c : collector) : option collector :=
  foldl (λ oc act, oc ≫= extract act) (Some c) order.

(** The diagnostics met along a visit order, each with its position
    materialized, before any de-duplication: those of the root actions whose
    error is unset. *)
Definition candidatesOf (x : action) : list Diagnostic :=
  match act_err x with
  | Some _ => []
  | None =>
      if isroot x then
        (λ diag, mkDiagnostic diag (act_a x) (Fset (pkgs (act_pkg x)) (Pos diag)))
          <$> diagnostics x
      else []
  end.

Definition candidates (order : list ActionPtr) : list Diagnostic :=
  order ≫= λ act, from_option candidatesOf [] (heap !! act).

(** The errors met along a visit order, each wrapped with the name of its
    action's analyzer. *)
Definition errorOf (x : action) : list error :=
  match act_err x with
  | Some e => [Wrap e (Name (analyzer (act_a x)))]
  | None => []
  end.

Definition errorsOf (order : list ActionPtr) : list error :=
  order ≫= λ act, from_option errorOf [] (heap !! act).

End WithProgram.

(** The key diagnostics are de-duplicated by. *)
Definition diagKey (d : Diagnostic) : Position * AnalyzerPtr * string :=
  (DPosition d, DAnalyzer d, Message (Diag d)).

(** What de-duplication by first occurrence means: of the diagnostics of a
    list, keep each one whose key is neither in [seen] nor carried by an
    earlier diagnostic of the list. *)
Fixpoint firstByKey (seen : gset (Position * AnalyzerPtr * string))
    (l : list Diagnostic) : list Diagnostic :=
  match l with
  | [] => []
  | d :: l' =>
      if decide (diagKey d ∈ seen) then firstByKey seen l'
      else d :: firstByKey ({[diagKey d]} ∪ seen) l'
  end.

End Collector.

(** * The action executor: fact operations, persistence, [action.analyze] *)

Module Exec.

(** What the driver does to its collaborators. *)
Inductive event :=
  | EvRun (a : AnalyzerPtr) (pkg : PackagePtr)
  | EvCacheGet (pkg : PackagePtr) (key : string)
  | EvCachePut (pkg : PackagePtr) (key : string) (facts : list Fact)
  | EvWarnf (msg : string)
  | EvFactsDebugf (posn : Position) (fact : analysis_Fact).

(** The calls an analyzer makes on its pass while it runs, and how its
    entry point returns. *)
Inductive PassCall :=
  | CallReport (d : AnalysisDiagnostic)
  | CallExportObjectFact (obj : ObjectPtr) (fact : analysis_Fact)
  | CallExportPackageFact (fact : analysis_Fact).

Record RunBehaviour := mkRunBehaviour {
  calls : list PassCall;
  returns : outcome (option (rtype * nat) * option error)
}.

(** [factType] *)
Definition factType (fact : analysis_Fact) : outcome rtype :=
  if rt_isPtr (fact_type fact) then Ok (fact_type fact)
  else Fatal "invalid Fact type: got non-pointer, want pointer".

(** [exportedFrom] *)
Definition exportedFrom (obj : Object) (pkg : option TypesPkgPtr) : bool :=
  match obj with
  | Func exported opkg hasRecv =>
      exported && bool_decide (opkg = pkg) || hasRecv
  | Var exported opkg isField =>
      exported && bool_decide (opkg = pkg) || isField
  | TypeName _ | Const _ => true
  | _ => false
  end.

Section WithProgram.

Variable analyzer : AnalyzerPtr → Analyzer.
Variable objects : ObjectPtr → Object.
(** [obj.Pos()] *)
Variable Object_Pos : ObjectPtr → nat.
(** [objectpath.For] and [objectpath.Object] *)
Variable objectpath_For : ObjectPtr → error + string.
Variable objectpath_Object : option TypesPkgPtr → string → error + ObjectPtr.
(** [pkgCache.Get] and [pkgCache.Put] *)
Variable cacheGet : PackagePtr → string → error + list Fact.
Variable cachePut : PackagePtr → string → list Fact → option error.
(** [gob] encoding by the n-th encoder created, and decoding into a fresh
    value of the given type. *)
Variable gobEncode : nat → analysis_Fact → error + list nat.
Variable gobDecode : list nat → rtype → error + analysis_Fact.
(** [Analyzer.Run] *)
Variable Run : Pass → action → RunBehaviour.
(** [isFactsDebug]: whether [factsDebugf] prints. *)
Variable isFactsDebug : bool.

Variable pkgs : PackagePtr → Package.

(** [fmt.Sprintf("%s/facts", analyzer.Name)] *)
Definition factsKey (a : AnalyzerPtr) : string := Name (analyzer a) +:+ "/facts".

(** [act.String()] *)
Definition action_String (x : action) : string :=
  Name (analyzer (act_a x)) +:+ "@" +:+ ID (pkgs (act_pkg x)).

(** ** Loading cached facts *)

(** The loop of [loadPersistedFacts] over the decoded records. *)
Fixpoint loadFacts (facts : list Fact) (x : action) : action * outcome unit :=
  match facts with
  | [] => (x, Ok tt)
  | f :: facts' =>
      if decide (Path f = EmptyString) then
        match factType (Fact_Fact f) with
        | Ok t =>
            loadFacts facts'
              (set_packageFacts
                 (<[(Types (pkgs (act_pkg x)), t) := Fact_Fact f]> (packageFacts x)) x)
        | Panic msg => (x, Panic msg)
        | Fatal msg => (x, Fatal msg)
        end
      else
        match objectpath_Object (Types (pkgs (act_pkg x))) (Path f) with
        | inl _ => loadFacts facts' x
        | inr obj =>
            match factType (Fact_Fact f) with
            | Ok t =>
                loadFacts facts'
                  (set_objectFacts (<[(obj, t) := Fact_Fact f]> (objectFacts x)) x)
            | Panic msg => (x, Panic msg)
            | Fatal msg => (x, Fatal msg)
            end
        end
  end.

(** [loadPersistedFacts] *)
Definition loadPersistedFacts (x : action) : action * list event * outcome bool :=
  let key := factsKey (act_a x) in
  match cacheGet (act_pkg x) key with
  | inl err =>
      (x,
       EvCacheGet (act_pkg x) key ::
         (if decide (err = ErrMissing) then []
          else [EvWarnf ("Failed to get persisted facts: " +:+ error_Error err)]),
       Ok false)
  | inr facts =>
      match loadFacts facts x with
      | (x', Ok _) => (x', [EvCacheGet (act_pkg x) key], Ok true)
      | (x', Panic msg) => (x', [EvCacheGet (act_pkg x) key], Panic msg)
      | (x', Fatal msg) => (x', [EvCacheGet (act_pkg x) key], Fatal msg)
      end
  end.

(** [loadCachedFacts] *)
Definition loadCachedFacts (x : action) : action * list event * outcome bool :=
  if loadCachedFactsDone x then (x, [], Ok (loadCachedFactsOk x))
  else
    let '(x', evs, res) :=
      if isInitialPkg x then (x, [], Ok true)
      else if bool_decide (length (FactTypes (analyzer (act_a x))) = 0) then
        (x, [], Ok true)
      else loadPersistedFacts x in
    match res with
    | Ok r => (set_loadCachedFacts true r x', evs, Ok r)
    | _ => (x', evs, res)
    end.

(** ** Persisting facts *)

(** The body of the loop over [act.packageFacts]. *)
Definition persistPackageFact (x : action) (facts : list Fact)
    (kv : packageFactKey * analysis_Fact) : list Fact :=
  if decide (kv.1.1 ≠ Types (pkgs (act_pkg x))) then facts
  else facts ++ [mkFact EmptyString kv.2].

(** The body of the loop over [act.objectFacts]. *)
Definition persistObjectFact (x : action) (facts : list Fact)
    (kv : objectFactKey * analysis_Fact) : list Fact :=
  let obj := kv.1.1 in
  if decide (Object_Pkg (objects obj) ≠ Types (pkgs (act_pkg x))) then facts
  else
    match objectpath_For obj with
    | inl _ => facts
    | inr path => facts ++ [mkFact path kv.2]
    end.

(** What the eligibility filter on object facts says: the record an object
    fact is written as when its object belongs to the action's package and
    has an object path, and nothing otherwise. *)
Definition objectFactRecord (x : action) (kv : objectFactKey * analysis_Fact)
    : option Fact :=
  if decide (Object_Pkg (objects kv.1.1) = Types (pkgs (act_pkg x))) then
    match objectpath_For kv.1.1 with
    | inr path => Some (mkFact path kv.2)
    | inl _ => None
    end
  else None.

(** The [facts] slice [persistFactsToCache] hands to the cache. *)
Definition factsToPersist (x : action) : list Fact :=
  let facts := foldl (persistPackageFact x) [] (map_to_list (packageFacts x)) in
  foldl (persistObjectFact x) facts (map_to_list (objectFacts x)).

(** [persistFactsToCache] *)
Definition persistFactsToCache (x : action) : list event * option error :=
  if bool_decide (length (FactTypes (analyzer (act_a x))) = 0) then ([], None)
  else
    let facts := factsToPersist x in
    let key := factsKey (act_a x) in
    ([EvCachePut (act_pkg x) key facts], cachePut (act_pkg x) key facts).

(** ** The fact operations of a pass *)

(** [exportObjectFact] *)
Definition exportObjectFact (obj : ObjectPtr) (fact : analysis_Fact)
    (x : action) : action * list event * outcome unit :=
  match act_pass x with
  | None => (x, [], Panic "invalid memory address or nil pointer dereference")
  | Some pass =>
      if negb (Pass_ExportObjectFact pass) then
        (x, [], Panic (action_String x +:+ ": Pass.ExportObjectFact called after Run"))
      else if decide (Object_Pkg (objects obj) ≠ Types (pkgs (act_pkg x))) then
        (x, [],
         Panic "internal error: can't set facts on objects belonging another package")
      else
        match factType fact with
        | Ok t =>
            (set_objectFacts (<[(obj, t) := fact]> (objectFacts x)) x,
             if isFactsDebug then
               [EvFactsDebugf (Fset (pkgs (act_pkg x)) (Object_Pos obj)) fact]
             else [],
             Ok tt)
        | Panic msg => (x, [], Panic msg)
        | Fatal msg => (x, [], Fatal msg)
        end
  end.

(** [exportPackageFact].  The arguments of the closing [factsDebugf] call,
    [act.pass.Files[0].Pos()] and [act.pass.Pkg.Path()] among them, are
    evaluated before the call, and so whether or not the logger prints. *)
Definition exportPackageFact (fact : analysis_Fact) (x : action)
    : action * list event * outcome unit :=
  match act_pass x with
  | None => (x, [], Panic "invalid memory address or nil pointer dereference")
  | Some pass =>
      if negb (Pass_ExportPackageFact pass) then
        (x, [], Panic (action_String x +:+ ": Pass.ExportPackageFact called after Run"))
      else
        match factType fact with
        | Ok t =>
            let x' :=
              set_packageFacts (<[(Pass_Pkg pass, t) := fact]> (packageFacts x)) x in
            match Pass_Files pass with
            | [] => (x', [], Panic "index out of range [0] with length 0")
            | None :: _ =>
                (x', [], Panic "invalid memory address or nil pointer dereference")
            | Some f :: _ =>
                let posn := Fset (pkgs (act_pkg x)) (File_Package f) in
                match Pass_Pkg pass with
                | None =>
                    (x', [], Panic "invalid memory address or nil pointer dereference")
                | Some _ =>
                    (x', if isFactsDebug then [EvFactsDebugf posn fact] else [], Ok tt)
                end
            end
        | Panic msg => (x, [], Panic msg)
        | Fatal msg => (x, [], Fatal msg)
        end
  end.

(** ** Inheriting facts from a vertical dependency *)

(** [codeFact], when [n] encoders were created before: its result and the
    number of encoders created by its end. *)
Definition codeFact (n : nat) (fact : analysis_Fact) : nat * (error + analysis_Fact) :=
  match gobEncode n fact with
  | inl err => (S n, inl err)
  | inr buf =>
      match gobEncode (S n) fact with
      | inl err => (S (S n), inl err)
      | inr buf2 =>
          if decide (buf = buf2) then
            match gobDecode buf (fact_type fact) with
            | inl err => (S (S n), inl err)
            | inr newFact => (S (S n), inr newFact)
            end
          else (S (S n), inl (errorString "encoding of fact is nondeterministic"))
      end
  end.

(** The two loops of [inheritFacts]; [n] counts the gob encoders created so
    far.
    Of their [factsDebugf] calls only the evaluation of the arguments is
    kept: [key.pkg.Path()] in the second loop dereferences the key's
    package. *)
Fixpoint inheritObjectFacts (serialize : bool) (dep : action)
    (l : list (objectFactKey * analysis_Fact)) (n : nat) (x : action)
    : action * nat * outcome unit :=
  match l with
  | [] => (x, n, Ok tt)
  | (key, fact) :: l' =>
      if negb (exportedFrom (objects key.1) (Types (pkgs (act_pkg dep)))) then
        inheritObjectFacts serialize dep l' n x
      else if serialize then
        match codeFact n fact with
        | (n', inl _) => (x, n', Panic "internal error: encoding of fact failed")
        | (n', inr fact') =>
            inheritObjectFacts serialize dep l' n'
              (set_objectFacts (<[key := fact']> (objectFacts x)) x)
        end
      else
        inheritObjectFacts serialize dep l' n
          (set_objectFacts (<[key := fact]> (objectFacts x)) x)
  end.

Fixpoint inheritPackageFacts (serialize : bool)
    (l : list (packageFactKey * analysis_Fact)) (n : nat) (x : action)
    : action * nat * outcome unit :=
  match l with
  | [] => (x, n, Ok tt)
  | (key, fact) :: l' =>
      if serialize then
        match codeFact n fact with
        | (n', inl _) => (x, n', Panic "internal error: encoding of fact failed")
        | (n', inr fact') =>
            match key.1 with
            | None =>
                (x, n', Panic "invalid memory address or nil pointer dereference")
            | Some _ =>
                inheritPackageFacts serialize l' n'
                  (set_packageFacts (<[key := fact']> (packageFacts x)) x)
            end
        end
      else
        match key.1 with
        | None => (x, n, Panic "invalid memory address or nil pointer dereference")
        | Some _ =>
            inheritPackageFacts serialize l' n
              (set_packageFacts (<[key := fact]> (packageFacts x)) x)
        end
  end.

(** [inheritFacts(act, dep)] *)
Definition inheritFacts (n : nat) (x dep : action) : action * nat * outcome unit :=
  let serialize := false in
  match inheritObjectFacts serialize dep (map_to_list (objectFacts dep)) n x with
  | (x', n', Ok _) =>
      inheritPackageFacts serialize (map_to_list (packageFacts dep)) n' x'
  | r => r
  end.

(** ** [action.analyze] *)

(** The calls the analyzer makes during [Run], in order; a panic in one of
    them unwinds the rest. *)
Fixpoint runCalls (cs : list PassCall) (evs : list event) (x : action)
    : action * list event * outcome unit :=
  match cs with
  | [] => (x, evs, Ok tt)
  | CallReport d :: cs' =>
      runCalls cs' evs (set_diagnostics (diagnostics x ++ [d]) x)
  | CallExportObjectFact obj fact :: cs' =>
      match exportObjectFact obj fact x with
      | (x', evs', Ok _) => runCalls cs' (evs ++ evs') x'
      | (x', evs', r) => (x', evs ++ evs', r)
      end
  | CallExportPackageFact fact :: cs' =>
      match exportPackageFact fact x with
      | (x', evs', Ok _) => runCalls cs' (evs ++ evs') x'
      | (x', evs', r) => (x', evs ++ evs', r)
      end
  end.

(** The names of the dependencies whose error is set. *)
Fixpoint failedDeps (ds : list action) : list string :=
  match ds with
  | [] => []
  | dep :: ds' =>
      match act_err dep with
      | Some _ => action_String dep :: failedDeps ds'
      | None => failedDeps ds'
      end
  end.

(** The loop that plumbs results and facts of the dependencies into the
    action. *)
Fixpoint plumbDeps (ds : list action)
    (inputs : gmap AnalyzerPtr (option (rtype * nat))) (n : nat) (x : action)
    : gmap AnalyzerPtr (option (rtype * nat)) * action * nat * outcome unit :=
  match ds with
  | [] => (inputs, x, n, Ok tt)
  | dep :: ds' =>
      if decide (act_pkg dep = act_pkg x) then
        plumbDeps ds' (<[act_a dep := result dep]> inputs) n x
      else if decide (act_a dep = act_a x) then
        match inheritFacts n x dep with
        | (x', n', Ok _) => plumbDeps ds' inputs n' x'
        | (x', n', Panic msg) => (inputs, x', n', Panic msg)
        | (x', n', Fatal msg) => (inputs, x', n', Fatal msg)
        end
      else plumbDeps ds' inputs n x
  end.

(** [pass.ExportObjectFact = nil; pass.ExportPackageFact = nil] *)
Definition closePass (x : action) : action :=
  match act_pass x with
  | None => x
  | Some p =>
      set_pass (Some (mkPass (Pass_Analyzer p) (Pass_Files p) (Pass_Pkg p)
                        (Pass_ResultOf p) false false)) x
  end.

(** The part of [analyze] from the construction of the pass on. *)
Definition runPass (inputs : gmap AnalyzerPtr (option (rtype * nat))) (x : action)
    : action * list event * outcome unit :=
  let pkg := pkgs (act_pkg x) in
  let pass := mkPass (act_a x) (Syntax pkg) (Types pkg) inputs true true in
  let x := set_pass (Some pass) x in
  let '(x, evs, res) :=
    if IllTyped pkg && negb (RunDespiteErrors (analyzer (act_a x))) then
      (x, [], Ok (Some (errorString "analysis skipped due to errors in package")))
    else
      let b := Run pass x in
      match runCalls (calls b) [EvRun (act_a x) (act_pkg x)] x with
      | (x, evs, Ok _) =>
          match returns b with
          | Ok (r, err) =>
              let x := set_result r x in
              let err :=
                match err with
                | Some e => Some e
                | None =>
                    if decide (fst <$> r ≠ ResultType (analyzer (act_a x))) then
                      Some (errorString
                              "internal error: analyzer returned a result of an undeclared type")
                    else None
                end in
              (x, evs, Ok err)
          | Panic msg => (x, evs, Panic msg)
          | Fatal msg => (x, evs, Fatal msg)
          end
      | (x, evs, Panic msg) => (x, evs, Panic msg)
      | (x, evs, Fatal msg) => (x, evs, Fatal msg)
      end in
  match res with
  | Ok err =>
      let x := closePass (set_err err x) in
      let '(pevs, perr) := persistFactsToCache x in
      (x,
       evs ++ pevs ++
         match perr with
         | Some e => [EvWarnf ("Failed to persist facts to cache: " +:+ error_Error e)]
         | None => []
         end,
       Ok tt)
  | Panic msg => (x, evs, Panic msg)
  | Fatal msg => (x, evs, Fatal msg)
  end.

(** [act.analyze()], for an action whose dependencies have all closed their
    [analysisDoneCh]; [n] counts the gob encoders created so far. *)
Definition analyze (heap : gmap ActionPtr action) (act : ActionPtr) (n : nat)
    : gmap ActionPtr action * list event * outcome unit :=
  match heap !! act with
  | None => (heap, [], Panic "invalid memory address or nil pointer dereference")
  | Some x =>
      if negb (needAnalyzeSource x) then (heap, [], Ok tt)
      else
        match mapM (λ d, heap !! d) (deps x) with
        | None => (heap, [], Panic "invalid memory address or nil pointer dereference")
        | Some ds =>
            match failedDeps ds with
            | (_ :: _) as failed =>
                (<[act := set_err
                            (Some (errorString
                                     ("failed prerequisites: " +:+
                                      strings_Join (sort_Strings failed) ", "))) x]> heap,
                 [], Ok tt)
            | [] =>
                match plumbDeps ds ∅ n x with
                | (inputs, x, _, Ok _) =>
                    let '(x, evs, res) := runPass inputs x in
                    (<[act := x]> heap, evs, res)
                | (_, x, _, Panic msg) => (<[act := x]> heap, [], Panic msg)
                | (_, x, _, Fatal msg) => (<[act := x]> heap, [], Fatal msg)
                end
            end
        end
  end.

End WithProgram.

End Exec.

(** * The package loader ([loadingPackage]) *)

Module Loader.

Import Exec.

(** [loadingPackage]; the companion of an import is identified with the
    import's package. *)
Record loadingPackage := mkLoadingPackage {
  lp_pkg : PackagePtr;
  lp_imports : gmap string PackagePtr;
  isInitial : bool;
  lp_actions : list ActionPtr;
  wasLoaded : bool
}.

Definition set_wasLoaded (b : bool) (lp : loadingPackage) : loadingPackage :=
  mkLoadingPackage (lp_pkg lp) (lp_imports lp) (isInitial lp) (lp_actions lp) b.

(** What a load reads and writes: the packages, the actions, the next
    address [types.NewPackage] hands out, and the collaborators' log. *)
Record loader := mkLoader {
  packages : PackagePtr → Package;
  heap : gmap ActionPtr action;
  nextTypes : TypesPkgPtr;
  events : list event
}.

Definition unsafePkgName : string := "unsafe".

(** [types.Unsafe] *)
Definition types_Unsafe : TypesPkgPtr := 1%positive.

(** [strconv.Quote], as [%q] prints a string without special characters. *)
Definition strconv_Quote (s : string) : string :=
  String (ascii_of_nat 34) (s +:+ String (ascii_of_nat 34) EmptyString).

Definition set_Types (t : option TypesPkgPtr) (p : Package) : Package :=
  mkPackage (ID p) (PkgName p) (PkgPath p) (Imports p) (CompiledGoFiles p)
    (ExportFile p) (IllTyped p) t (Syntax p) (TypesInfo p) (Errors p) (Fset p).

Definition set_IllTyped (b : bool) (p : Package) : Package :=
  mkPackage (ID p) (PkgName p) (PkgPath p) (Imports p) (CompiledGoFiles p)
    (ExportFile p) b (Types p) (Syntax p) (TypesInfo p) (Errors p) (Fset p).

Definition set_Syntax (l : list (option File)) (p : Package) : Package :=
  mkPackage (ID p) (PkgName p) (PkgPath p) (Imports p) (CompiledGoFiles p)
    (ExportFile p) (IllTyped p) (Types p) l (TypesInfo p) (Errors p) (Fset p).

Definition set_TypesInfo (b : bool) (p : Package) : Package :=
  mkPackage (ID p) (PkgName p) (PkgPath p) (Imports p) (CompiledGoFiles p)
    (ExportFile p) (IllTyped p) (Types p) (Syntax p) b (Errors p) (Fset p).

Definition set_Errors (l : list packages_Error) (p : Package) : Package :=
  mkPackage (ID p) (PkgName p) (PkgPath p) (Imports p) (CompiledGoFiles p)
    (ExportFile p) (IllTyped p) (Types p) (Syntax p) (TypesInfo p) l (Fset p).

(** An assignment to a field of [*pkg]. *)
Definition updPkg (p : PackagePtr) (f : Package → Package) (st : loader) : loader :=
  mkLoader (<[p := f (packages st p)]> (packages st)) (heap st) (nextTypes st)
    (events st).

(** An assignment to a field of [*act]. *)
Definition updAction (act : ActionPtr) (f : action → action) (st : loader) : loader :=
  mkLoader (packages st) (alter f act (heap st)) (nextTypes st) (events st).

Definition log (evs : list event) (st : loader) : loader :=
  mkLoader (packages st) (heap st) (nextTypes st) (events st ++ evs).

(** [pkg.Types = types.NewPackage(pkg.PkgPath, pkg.Name)] *)
Definition newTypes (p : PackagePtr) (st : loader) : loader :=
  let st' := updPkg p (set_Types (Some (nextTypes st))) st in
  mkLoader (packages st') (heap st') (Pos.succ (nextTypes st)) (events st').

(** [pkg.Errors = append(pkg.Errors, errs...)] *)
Definition appendErrors (p : PackagePtr) (errs : list packages_Error)
    (st : loader) : loader :=
  updPkg p (λ pkg, set_Errors (Errors pkg ++ errs) pkg) st.

(** [convertError]: the records, and the warning of the default case. *)
Definition convertError (err : error) : list packages_Error * list event :=
  match err with
  | PackagesError e => ([e], [])
  | PathError path msg => ([mkPackagesError (path +:+ ":1") msg ParseError], [])
  | ScannerErrorList l =>
      ((λ e : string * string, mkPackagesError e.1 e.2 ParseError) <$> l, [])
  | TypesError pos msg => ([mkPackagesError pos msg TypeError], [])
  | _ =>
      ([mkPackagesError "-" (error_Error err) UnknownError],
       [EvWarnf ("Internal error: error " +:+ strconv_Quote (error_Error err)
                 +:+ " without position")])
  end.

(** [pkg.Errors = append(pkg.Errors, lp.convertError(err)...)] *)
Definition recordError (p : PackagePtr) (err : error) (st : loader) : loader :=
  let '(errs, evs) := convertError err in
  log evs (appendErrors p errs st).

Section WithProgram.

Variable analyzer : AnalyzerPtr → Analyzer.
Variable objectpath_Object : option TypesPkgPtr → string → error + ObjectPtr.
Variable cacheGet : PackagePtr → string → error + list Fact.
(** [parser.ParseFile] *)
Variable parser_ParseFile : string → error + File.
(** The type checker run on the parsed files with the given importer: the
    errors it hands to [tc.Error], and the error it returns. *)
Variable types_Check :
  list (option File) → (string → option TypesPkgPtr * option error) →
  list error * option error.
(** [os.Open], [gcexportdata.NewReader] and [gcexportdata.Read] *)
Variable os_Open : string → option error.
Variable gcexportdata_NewReader : string → option error.
Variable gcexportdata_Read :
  string → gmap string (option TypesPkgPtr) → string → error + TypesPkgPtr.

(** The loop of [loadFromSource] over [pkg.CompiledGoFiles], from index [i]. *)
Fixpoint parseFiles (p : PackagePtr) (i : nat) (files : list string)
    (st : loader) : loader * option error :=
  match files with
  | [] => (st, None)
  | file :: files' =>
      match parser_ParseFile file with
      | inl err => (recordError p err st, Some err)
      | inr f =>
          parseFiles p (S i) files'
            (updPkg p (λ pkg, set_Syntax (<[i := Some f]> (Syntax pkg)) pkg) st)
      end
  end.

(** The [importer] closure of [loadFromSource]. *)
Definition importer (st : loader) (p : PackagePtr) (path : string)
    : option TypesPkgPtr * option error :=
  if decide (path = unsafePkgName) then (Some types_Unsafe, None)
  else if decide (path = "C") then
    (None, Some (errorString "cgo preprocessing failed"))
  else
    match Imports (packages st p) !! path with
    | None => (None, None)
    | Some imp =>
        match Errors (packages st imp) with
        | e :: _ => (None, Some (PackagesError e))
        | [] => (Types (packages st imp), None)
        end
    end.

(** [loadFromSource] *)
Definition loadFromSource (lp : loadingPackage) (st : loader) : loader * option error :=
  let p := lp_pkg lp in
  let st := newTypes p st in
  let st := updPkg p (set_IllTyped true) st in
  let st :=
    updPkg p (λ pkg, set_Syntax (replicate (length (CompiledGoFiles pkg)) None) pkg) st in
  match parseFiles p 0 (CompiledGoFiles (packages st p)) st with
  | (st, Some err) => (st, Some err)
  | (st, None) =>
      let st := updPkg p (set_TypesInfo true) st in
      let '(reported, err) := types_Check (Syntax (packages st p)) (importer st p) in
      let st := foldl (λ st e, recordError p e st) st reported in
      match err with
      | Some e => (st, Some e)
      | None => (updPkg p (set_IllTyped false) st, None)
      end
  end.

(** The [visit] closure of [loadFromExportData]; [fuel] bounds the depth of
    its recursion over the import graph. *)
Fixpoint visit (st : loader) (fuel : nat) (imps : list PackagePtr)
    (sv : gset PackagePtr * gmap string (option TypesPkgPtr))
    : option (gset PackagePtr * gmap string (option TypesPkgPtr)) :=
  match fuel with
  | 0 => None
  | S fuel' =>
      (fix loop (imps : list PackagePtr)
           (sv : gset PackagePtr * gmap string (option TypesPkgPtr)) :=
         match imps with
         | [] => Some sv
         | q :: rest =>
             if decide (q ∈ sv.1) then loop rest sv
             else
               let pkg := packages st q in
               match visit st fuel' (map_to_list (Imports pkg)).*2
                       ({[q]} ∪ sv.1, <[PkgPath pkg := Types pkg]> sv.2) with
               | None => None
               | Some sv' => loop rest sv'
               end
         end) imps sv
  end.

(** [loadFromExportData]; the mutex is taken and released around it. *)
Definition loadFromExportData (fuel : nat) (lp : loadingPackage) (st : loader)
    : option (loader * option error) :=
  let p := lp_pkg lp in
  let st := newTypes p st in
  let st := updPkg p (set_IllTyped true) st in
  let pkg := packages st p in
  match List.find (λ kv : string * PackagePtr,
                     bool_decide (Types (packages st kv.2) = None))
          (map_to_list (Imports pkg)) with
  | Some (path, _) =>
      Some (st, Some (errorString ("dependency " +:+ strconv_Quote path
                                   +:+ " hasn't been loaded yet")))
  | None =>
      if decide (ExportFile pkg = EmptyString) then
        Some (st, Some (errorString ("no export data for " +:+ strconv_Quote (ID pkg))))
      else
        match os_Open (ExportFile pkg) with
        | Some err => Some (st, Some err)
        | None =>
            match gcexportdata_NewReader (ExportFile pkg) with
            | Some err => Some (st, Some err)
            | None =>
                match visit st fuel (map_to_list (Imports pkg)).*2 (∅, ∅) with
                | None => None
                | Some (_, view) =>
                    match gcexportdata_Read (ExportFile pkg) view (PkgPath pkg) with
                    | inl err => Some (st, Some err)
                    | inr tpkg =>
                        Some (updPkg p (set_IllTyped false)
                                (updPkg p (set_Types (Some tpkg)) st), None)
                    end
                end
            end
        end
  end.

(** The [markDepsForAnalyzingSource] closure of [loadWithFacts].  The heap
    holds every action the graph mentions, so the lookups do not miss. *)
Definition markDepsForAnalyzingSource (act : ActionPtr) (st : loader) : loader :=
  match heap st !! act with
  | None => st
  | Some x =>
      foldl (λ st dep,
               match heap st !! dep with
               | Some d =>
                   if decide (act_pkg d = act_pkg x) then
                     updAction dep (set_needAnalyzeSource true) st
                   else st
               | None => st
               end) st (deps x)
  end.

(** The loop over [lp.actions] that tries the cached facts of each action;
    the flag is [needLoadFromSource]. *)
Fixpoint loadCachedFactsOf (acts : list ActionPtr) (needLoadFromSource : bool)
    (st : loader) : loader * bool * outcome unit :=
  match acts with
  | [] => (st, needLoadFromSource, Ok tt)
  | act :: rest =>
      match heap st !! act with
      | None => loadCachedFactsOf rest needLoadFromSource st
      | Some x =>
          let '(x', evs, res) :=
            loadCachedFacts analyzer objectpath_Object cacheGet (packages st) x in
          let st := log evs (updAction act (λ _, x') st) in
          match res with
          | Ok true => loadCachedFactsOf rest needLoadFromSource st
          | Ok false =>
              let st := updAction act (set_needAnalyzeSource true) st in
              loadCachedFactsOf rest true (markDepsForAnalyzingSource act st)
          | Panic msg => (st, needLoadFromSource, Panic msg)
          | Fatal msg => (st, needLoadFromSource, Fatal msg)
          end
      end
  end.

(** [loadWithFacts].  The deferred assignment [lp.wasLoaded = true] runs on
    every way out. *)
Definition loadWithFacts (fuel : nat) (lp : loadingPackage) (st : loader)
    : option (loadingPackage * loader * outcome (option error)) :=
  let p := lp_pkg lp in
  let lp' := set_wasLoaded true lp in
  if decide (PkgPath (packages st p) = unsafePkgName) then
    Some (lp',
          updPkg p (λ pkg, set_TypesInfo true
                             (set_Syntax [] (set_Types (Some types_Unsafe) pkg))) st,
          Ok None)
  else if TypesInfo (packages st p) then
    if negb (wasLoaded lp) then
      match loadCachedFactsOf (lp_actions lp) false st with
      | (st, _, Ok _) => Some (lp', st, Ok None)
      | (st, _, Panic msg) => Some (lp', st, Panic msg)
      | (st, _, Fatal msg) => Some (lp', st, Fatal msg)
      end
    else Some (lp', st, Ok None)
  else if isInitial lp then
    let '(st, err) := loadFromSource lp st in
    Some (lp', st, Ok err)
  else
    match loadFromExportData fuel lp st with
    | None => None
    | Some (st, Some err) =>
        match loadFromSource lp (newTypes p st) with
        | (st, Some srcErr) => Some (lp', st, Ok (Some srcErr))
        | (st, None) =>
            Some (lp',
                  appendErrors p
                    [mkPackagesError "-"
                       ("could not load export data: " +:+ error_Error err)
                       ParseError] st,
                  Ok (Some (Wrap err "could not load export data")))
        end
    | Some (st, None) =>
        match loadCachedFactsOf (lp_actions lp) false st with
        | (st, true, Ok _) =>
            let '(st, err) := loadFromSource lp (newTypes p st) in
            Some (lp', st, Ok err)
        | (st, false, Ok _) => Some (lp', st, Ok None)
        | (st, _, Panic msg) => Some (lp', st, Panic msg)
        | (st, _, Fatal msg) => Some (lp', st, Fatal msg)
        end
    end.

End WithProgram.

End Loader.

(** * Sample programs

    Small concrete analyzers, packages and actions on which the properties
    below are exercised. *)

Module Sample.

Import Exec.

(** A fact type of pointer kind and a fact of that type. *)
Definition factT : rtype := RType true 1.
Definition aFact : analysis_Fact := mkAFact factT [7].

(** Analyzer 1 declares a fact type; analyzer 2 requires analyzer 1 and
    declares none; neither runs despite errors. *)
Definition analyzer (a : AnalyzerPtr) : Analyzer :=
  if decide (a = 1%positive) then mkAnalyzer "facts" [] [aFact] None false
  else if decide (a = 2%positive) then mkAnalyzer "lint" [1%positive] [] None false
  else mkAnalyzer "other" [] [] None false.

Definition posOf (file : string) (pos : nat) : Position := mkPosition file pos 1 pos.

(** Package 1 ([root]) imports packages 2 ([mid]) and 3 ([leaf]); [mid]
    imports [leaf]; package 4 ([broken]) is ill-typed and not loaded yet, and
    so is every other package ([nodata]); neither has export data.  Package 6
    is the test variant of [root] and shares its file [root.go]. *)
Definition pkgs (p : PackagePtr) : Package :=
  if decide (p = 1%positive) then
    mkPackage "root" "root" "example.com/root"
      (<["example.com/mid" := 2%positive]> (<["example.com/leaf" := 3%positive]> ∅))
      ["root.go"] EmptyString false (Some 11%positive) [Some (mkFile 1)] true []
      (posOf "root.go")
  else if decide (p = 2%positive) then
    mkPackage "mid" "mid" "example.com/mid" (<["example.com/leaf" := 3%positive]> ∅)
      ["mid.go"] "mid.a" false (Some 12%positive) [Some (mkFile 1)] true []
      (posOf "mid.go")
  else if decide (p = 3%positive) then
    mkPackage "leaf" "leaf" "example.com/leaf" ∅
      ["leaf.go"] "leaf.a" false (Some 13%positive) [Some (mkFile 1)] true []
      (posOf "leaf.go")
  else if decide (p = 4%positive) then
    mkPackage "broken" "broken" "example.com/broken" ∅
      ["broken.go"] EmptyString true (Some 14%positive) [Some (mkFile 1)] false []
      (posOf "broken.go")
  else if decide (p = 6%positive) then
    mkPackage "root.test" "root" "example.com/root" ∅
      ["root.go"; "root_test.go"] EmptyString false (Some 16%positive)
      [Some (mkFile 1); Some (mkFile 1)] true [] (posOf "root.go")
  else
    mkPackage "nodata" "nodata" "example.com/nodata" ∅
      ["nodata.go"] EmptyString true None [] false [] (posOf "nodata.go").

(** A pass of analyzer 1 on [root], open or closed, with or without files. *)
Definition passOf (files : list (option File)) (open : bool) : Pass :=
  mkPass 1%positive files (Some 11%positive) ∅ open open.

(** An action of analyzer [a] on package [p]. *)
Definition actionOf (a : AnalyzerPtr) (p : PackagePtr) (pass : option Pass)
    (needSource : bool) (ds : list ActionPtr) (err : option error) : action :=
  mkActionRec a p pass false needSource needSource ds ∅ ∅ None [] err false false.

(** [mid] as a dependency of an action on [root]: it holds one package fact
    and one fact on an exported function of its own. *)
Definition objects (o : ObjectPtr) : Object :=
  if decide (o = 1%positive) then Func true (Some 12%positive) false
  else if decide (o = 2%positive) then Func true (Some 11%positive) false
  else Nil.

Definition midAction : action :=
  set_objectFacts (<[(1%positive, factT) := aFact]> ∅)
    (set_packageFacts (<[(Some 12%positive, factT) := aFact]> ∅)
       (actionOf 1 2 None true [] None)).

(** A gob codec that cannot encode anything. *)
Definition brokenEncode (n : nat) (fact : analysis_Fact) : error + list nat :=
  inl (errorString "gob: type not registered").

Definition noDecode (buf : list nat) (t : rtype) : error + analysis_Fact :=
  inl (errorString "gob: no data").

(** Collaborators: every object has the path [F]; the cache stores without
    error; an analyzer reports one diagnostic and returns no result. *)
Definition objectPos (o : ObjectPtr) : nat := 0.
Definition objectpathFor (o : ObjectPtr) : error + string := inr "F".
Definition cachePut (p : PackagePtr) (key : string) (facts : list Fact)
    : option error := None.
Definition run (pass : Pass) (x : action) : RunBehaviour :=
  mkRunBehaviour [CallReport (mkAnalysisDiagnostic 1 "style" "unused")]
    (Ok (None, None)).

(** [analyze] with these collaborators and a codec that is never needed. *)
Definition analyze (heap : gmap ActionPtr action) (act : ActionPtr)
    : gmap ActionPtr action * list event * outcome unit :=
  Exec.analyze analyzer objects objectPos objectpathFor cachePut brokenEncode
    noDecode run false pkgs heap act 0.

(** Loader collaborators: [broken.go] cannot be opened, every other file
    parses and type-checks; export data can be opened but not decoded; the
    cache is empty. *)
Definition parseFile (file : string) : error + File :=
  if decide (file = "broken.go") then inl (PathError file "no such file or directory")
  else inr (mkFile 1).
Definition typesCheck (files : list (option File))
    (importer : string → option TypesPkgPtr * option error)
    : list error * option error := ([], None).
Definition osOpen (file : string) : option error := None.
Definition newReader (file : string) : option error := None.
Definition readExport (file : string) (view : gmap string (option TypesPkgPtr))
    (path : string) : error + TypesPkgPtr := inl (errorString "unexpected EOF").
Definition objectpathObject (pkg : option TypesPkgPtr) (path : string)
    : error + ObjectPtr := inr 1%positive.
Definition cacheGet (p : PackagePtr) (key : string) : error + list Fact :=
  inl ErrMissing.

Definition loadWithFacts (lp : Loader.loadingPackage) (st : Loader.loader)
    : option (Loader.loadingPackage * Loader.loader * outcome (option error)) :=
  Loader.loadWithFacts analyzer objectpathObject cacheGet parseFile typesCheck
    osOpen newReader readExport 1 lp st.

(** The loader before anything is loaded, and the companions of [broken]
    and [nodata], neither of them initial. *)
Definition loader0 : Loader.loader := Loader.mkLoader pkgs ∅ 100 [].
Definition lpBroken : Loader.loadingPackage := Loader.mkLoadingPackage 4 ∅ false [] false.
Definition lpNodata : Loader.loadingPackage := Loader.mkLoadingPackage 5 ∅ false [] false.

(** Two root actions of analyzer 2, on [root] and on its test variant,
    report the same diagnostic at the same position of the shared file; the
    first reports it twice and then another one. *)
Definition unused : AnalysisDiagnostic := mkAnalysisDiagnostic 10 "style" "unused".
Definition shadow : AnalysisDiagnostic := mkAnalysisDiagnostic 20 "style" "shadow".

Definition twoRoots : gmap ActionPtr action :=
  <[0 := set_diagnostics [unused; unused; shadow]
           (set_isroot true (actionOf 2 1 None true [] None))]>
    (<[1 := set_diagnostics [unused]
              (set_isroot true (actionOf 2 6 None true [] None))]> ∅).

(** A root action of analyzer 2 on [root] whose dependency, the action of
    analyzer 1 on [root], is no root and failed. *)
Definition failedDep : gmap ActionPtr action :=
  <[0 := set_isroot true
           (actionOf 2 1 None true [1]
              (Some (errorString "failed prerequisites: facts@root")))]>
    (<[1 := actionOf 1 1 None true [] (Some (errorString "boom"))]> ∅).

(** Ranks along which the requirements of the analyzers and the imports of
    the packages decrease. *)
Definition rankA (a : AnalyzerPtr) : nat := if decide (a = 2%positive) then 1 else 0.
Definition rankP (p : PackagePtr) : nat :=
  if decide (p = 1%positive) then 2 else if decide (p = 2%positive) then 1 else 0.

(** The graph for both analyzers on the initial package [root]. *)
Definition graph : option (list ActionPtr * Builder.builder) :=
  Builder.buildGraph analyzer pkgs {[1%positive]} 4 [1%positive; 2%positive]
    [1%positive].

End Sample.

(** * Whether any analyzer needs facts ([NeedFacts]) *)

Module Requirements.

Section WithProgram.

Variable analyzer : AnalyzerPtr → Analyzer.

(** The loop of [NeedFacts]: [q] is the queue of the breadth-first search,
    [seen] the set of keys of the [seen] map.  [fuel] bounds the number of
    iterations, and [None] means the bound was reached. *)
Fixpoint needFactsLoop (fuel : nat) (seen : gset AnalyzerPtr)
    (q : list AnalyzerPtr) {struct fuel} : option bool :=
  match q with
  | [] => Some false
  | a :: q' =>
      match fuel with
      | 0 => None
      | S fuel' =>
          if decide (a ∈ seen) then needFactsLoop fuel' seen q'
          else if bool_decide (0 < length (FactTypes (analyzer a))) then Some true
          else needFactsLoop fuel' ({[a]} ∪ seen) (q' ++ Requires (analyzer a))
      end
  end.

(** [NeedFacts] *)
Definition NeedFacts (fuel : nat) (analyzers : list AnalyzerPtr) : option bool :=
  needFactsLoop fuel ∅ analyzers.

(** The analyzers a list of analyzers requires, directly or not, the
    analyzers of the list included. *)
Definition required (analyzers : list AnalyzerPtr) (a : AnalyzerPtr) : Prop :=
  ∃ a0, a0 ∈ analyzers ∧ rtc (λ a r, r ∈ Requires (analyzer a)) a0 a.

(** The number of requirements the analyzers of a set state. *)
Definition requirements (U : gset AnalyzerPtr) : nat :=
  sum_list_with (λ a, length (Requires (analyzer a))) (elements U).

End WithProgram.

End Requirements.

(** * Reading facts back: the import and enumeration operations of a pass *)

Module FactOps.

Import Exec.

(** [reflect.ValueOf(ptr).Elem().Set(reflect.ValueOf(v).Elem())]: the value
    [*ptr] holds afterwards.  [Set] panics when the type of [*v] is not the
    type of [*ptr]; the type names of its message are left out. *)
Definition reflect_Set (ptr v : analysis_Fact) : outcome analysis_Fact :=
  if decide (fact_type v = fact_type ptr) then
    Ok (mkAFact (fact_type ptr) (fact_data v))
  else Panic "reflect.Set: value is not assignable".

(** [importObjectFact]: what it returns, and the value [*ptr] holds
    afterwards. *)
Definition importObjectFact (obj : option ObjectPtr) (ptr : analysis_Fact)
    (x : action) : outcome (bool * analysis_Fact) :=
  match obj with
  | None => Panic "nil object"
  | Some o =>
      match factType ptr with
      | Ok t =>
          match objectFacts x !! (o, t) with
          | Some v =>
              match reflect_Set ptr v with
              | Ok ptr' => Ok (true, ptr')
              | Panic msg => Panic msg
              | Fatal msg => Fatal msg
              end
          | None => Ok (false, ptr)
          end
      | Panic msg => Panic msg
      | Fatal msg => Fatal msg
      end
  end.

(** [importPackageFact] *)
Definition importPackageFact (pkg : option TypesPkgPtr) (ptr : analysis_Fact)
    (x : action) : outcome (bool * analysis_Fact) :=
  match pkg with
  | None => Panic "nil package"
  | Some _ =>
      match factType ptr with
      | Ok t =>
          match packageFacts x !! (pkg, t) with
          | Some v =>
              match reflect_Set ptr v with
              | Ok ptr' => Ok (true, ptr')
              | Panic msg => Panic msg
              | Fatal msg => Fatal msg
              end
          | None => Ok (false, ptr)
          end
      | Panic msg => Panic msg
      | Fatal msg => Fatal msg
      end
  end.

(** [allObjectFacts] and [allPackageFacts]: one [analysis.ObjectFact] or
    [analysis.PackageFact] per entry of the store. *)
Definition allObjectFacts (x : action) : list (ObjectPtr * analysis_Fact) :=
  (λ kv : objectFactKey * analysis_Fact, (kv.1.1, kv.2)) <$> map_to_list (objectFacts x).

Definition allPackageFacts (x : action) : list (option TypesPkgPtr * analysis_Fact) :=
  (λ kv : packageFactKey * analysis_Fact, (kv.1.1, kv.2)) <$> map_to_list (packageFacts x).

(** The fact stores of an action are well keyed when every fact sits under
    its own dynamic type, and that type is a pointer type. *)
Definition wellKeyed (x : action) : Prop :=
  (∀ k f, objectFacts x !! k = Some f → k.2 = fact_type f ∧ rt_isPtr k.2 = true)
  ∧ (∀ k f, packageFacts x !! k = Some f → k.2 = fact_type f ∧ rt_isPtr k.2 = true).

End FactOps.

(** * Planning the loads: the sequential part of [loadPackagesAndFacts] *)

Module Plan.

Import Loader.

Section WithProgram.

Variable pkgs : PackagePtr → Package.
Variable initialPkgs : gset PackagePtr.
Variable heap : gmap ActionPtr action.

(** [actionPerPkg[act.pkg] = append(actionPerPkg[act.pkg], act)].  The heap
    holds every action of the list, so the lookup does not miss. *)
Definition groupAction (m : gmap PackagePtr (list ActionPtr)) (act : ActionPtr)
    : gmap PackagePtr (list ActionPtr) :=
  match heap !! act with
  | None => m
  | Some x => <[act_pkg x := default [] (m !! act_pkg x) ++ [act]]> m
  end.

(** The [actionPerPkg] map. *)
Definition actionPerPkg (actions : list ActionPtr) : gmap PackagePtr (list ActionPtr) :=
  foldl groupAction ∅ actions.

Section Dfs.

Variable perPkg : gmap PackagePtr (list ActionPtr).

(** [for impPath, imp := range pkg.Imports { dfs(imp); imports[impPath] = loadingPackages[imp] }],
    with the recursive call abstracted as [rec].  The companion
    [loadingPackages[imp]] is identified with [imp], as in [loadingPackage];
    [dfs(imp)] has just set it. *)
Fixpoint dfsImports
    (rec : PackagePtr → gmap PackagePtr loadingPackage →
           option (gmap PackagePtr loadingPackage))
    (imps : list (string * PackagePtr))
    (acc : gmap string PackagePtr * gmap PackagePtr loadingPackage)
    : option (gmap string PackagePtr * gmap PackagePtr loadingPackage) :=
  match imps with
  | [] => Some acc
  | (impPath, imp) :: rest =>
      match rec imp acc.2 with
      | None => None
      | Some lps => dfsImports rec rest (<[impPath := imp]> acc.1, lps)
      end
  end.

(** The [dfs] closure; [fuel] bounds the depth of its recursion over the
    import graph, and [None] means the bound was reached. *)
Fixpoint dfs (fuel : nat) (pkg : PackagePtr) (lps : gmap PackagePtr loadingPackage)
    : option (gmap PackagePtr loadingPackage) :=
  match lps !! pkg with
  | Some _ => Some lps
  | None =>
      match fuel with
      | 0 => None
      | S fuel' =>
          match dfsImports (dfs fuel') (map_to_list (Imports (pkgs pkg))) (∅, lps) with
          | None => None
          | Some (imports, lps) =>
              Some (<[pkg := mkLoadingPackage pkg imports
                               (bool_decide (pkg ∈ initialPkgs))
                               (default [] (perPkg !! pkg)) false]> lps)
          end
      end
  end.

(** [for _, act := range actions { dfs(act.pkg) }] *)
Fixpoint dfsActions (fuel : nat) (actions : list ActionPtr)
    (lps : gmap PackagePtr loadingPackage) : option (gmap PackagePtr loadingPackage) :=
  match actions with
  | [] => Some lps
  | act :: rest =>
      match heap !! act with
      | None => dfsActions fuel rest lps
      | Some x =>
          match dfs fuel (act_pkg x) lps with
          | None => None
          | Some lps => dfsActions fuel rest lps
          end
      end
  end.

End Dfs.

(** The [loadingPackages] map [loadPackagesAndFacts] starts its goroutines
    from. *)
Definition loadingPackages (fuel : nat) (actions : list ActionPtr)
    : option (gmap PackagePtr loadingPackage) :=
  dfsActions (actionPerPkg actions) fuel actions ∅.

End WithProgram.

End Plan.

(** * Properties *)

Local Set Warnings "-clear-no-such-hyp".

(** ** Cached facts: when the cache is consulted *)

Section CachedFacts.

Import Exec.

Variable analyzer : AnalyzerPtr → Analyzer.
Variable objectpath_Object : option TypesPkgPtr → string → error + ObjectPtr.
Variable cacheGet : PackagePtr → string → error + list Fact.
Variable pkgs : PackagePtr → Package.

Local Abbreviation loadCachedFacts :=
  (Exec.loadCachedFacts analyzer objectpath_Object cacheGet pkgs).
Local Abbreviation loadPersistedFacts :=
  (Exec.loadPersistedFacts analyzer objectpath_Object cacheGet pkgs).

(** [loadPersistedFacts] starts with exactly one [Get] on the cache, under
    the action's package and the analyzer's facts key. *)
Lemma loadPersistedFacts_gets (x : action) :
  ∃ x' evs res,
    loadPersistedFacts x = (x', EvCacheGet (act_pkg x) (factsKey analyzer (act_a x)) :: evs, res)
    ∧ ∀ p k, EvCacheGet p k ∉ evs.
Proof.
  unfold Exec.loadPersistedFacts.
  destruct (cacheGet _ _) as [err|facts].
  - eexists _, _, _. split; [reflexivity|].
    intros p k. destruct (decide _); [apply not_elem_of_nil|].
    intros Hin%list_elem_of_singleton. discriminate.
  - destruct (loadFacts _ _ _ _) as [x' [u|msg|msg]];
      eexists _, _, _; (split; [reflexivity|set_solver]).
Qed.

(** The flags after a call that returned. *)
Lemma loadCachedFacts_flags (x x' : action) (evs : list event) (b : bool) :
  loadCachedFacts x = (x', evs, Ok b) →
  loadCachedFactsDone x' = true ∧ loadCachedFactsOk x' = b.
Proof.
  unfold Exec.loadCachedFacts.
  destruct (loadCachedFactsDone x) eqn:Hdone.
  - intros [= <- <- <-]. done.
  - destruct (isInitialPkg x); [intros [= <- <- <-]; done|].
    case_bool_decide; [intros [= <- <- <-]; done|].
    destruct (loadPersistedFacts x) as [[x1 evs1] [r|msg|msg]]; [|done..].
    intros [= <- <- <-]. done.
Qed.

(** C9. A first call of [loadCachedFacts] on an action reads the cache exactly
    when the action's package is not initial and its analyzer declares a fact
    type; in the two other cases it reports success and touches nothing but
    the memo flags; a call on an action whose outcome is already recorded
    returns that outcome with no effect, and every call that returns records
    its outcome, so a later call repeats it without reading the cache. *)
Theorem loadCachedFacts_consults_cache_once (x : action) :
  (loadCachedFactsDone x = false →
   ((∃ key, EvCacheGet (act_pkg x) key ∈ (loadCachedFacts x).1.2) ↔
    isInitialPkg x = false ∧ FactTypes (analyzer (act_a x)) ≠ []) ∧
   (isInitialPkg x = true ∨ FactTypes (analyzer (act_a x)) = [] →
    loadCachedFacts x = (set_loadCachedFacts true true x, [], Ok true))) ∧
  (loadCachedFactsDone x = true →
   loadCachedFacts x = (x, [], Ok (loadCachedFactsOk x))) ∧
  (∀ x' evs b,
     loadCachedFacts x = (x', evs, Ok b) →
     loadCachedFacts x' = (x', [], Ok b)).
Proof.
  split; [|split].
  - intros Hdone. unfold Exec.loadCachedFacts. rewrite Hdone.
    destruct (isInitialPkg x) eqn:Hinit.
    { split; [|done]. simpl. split; [intros [k Hk]; set_solver|intros [? _]; done]. }
    case_bool_decide as Hlen.
    { apply length_zero_iff_nil in Hlen.
      split; [|done]. simpl. split; [intros [k Hk]; set_solver|intros [_ ?]; done]. }
    split.
    + destruct (loadPersistedFacts_gets x) as (x1 & evs1 & res & -> & _).
      split; [intros _; split; [done|]|].
      * intros Hnil. rewrite Hnil in Hlen. done.
      * intros _. exists (factsKey analyzer (act_a x)).
        destruct res; simpl; set_solver.
    + intros [?|Hnil]; [done|]. rewrite Hnil in Hlen. done.
  - intros Hdone. unfold Exec.loadCachedFacts. by rewrite Hdone.
  - intros x' evs b Hcall.
    apply loadCachedFacts_flags in Hcall as [Hd Hok].
    unfold Exec.loadCachedFacts. by rewrite Hd, Hok.
Qed.

End CachedFacts.

(** ** Fact persistence: what is written *)

Section Persist.

Import Exec.

Variable analyzer : AnalyzerPtr → Analyzer.
Variable objects : ObjectPtr → Object.
Variable objectpath_For : ObjectPtr → error + string.
Variable cachePut : PackagePtr → string → list Fact → option error.
Variable pkgs : PackagePtr → Package.

Local Abbreviation factsToPersist := (Exec.factsToPersist objects objectpath_For pkgs).
Local Abbreviation persistFactsToCache :=
  (Exec.persistFactsToCache analyzer objects objectpath_For cachePut pkgs).

Local Abbreviation objectFactRecord :=
  (Exec.objectFactRecord objects objectpath_For pkgs).

Lemma foldl_persistPackageFact (x : action) l acc :
  foldl (persistPackageFact pkgs x) acc l =
  acc ++ ((λ kv, mkFact EmptyString kv.2) <$>
            filter (λ kv : packageFactKey * analysis_Fact,
                      kv.1.1 = Types (pkgs (act_pkg x))) l).
Proof.
  revert acc. induction l as [|kv l IH]; intros acc; simpl.
  - by rewrite app_nil_r.
  - rewrite IH, filter_cons. unfold persistPackageFact.
    destruct (decide (kv.1.1 ≠ _)) as [Hne|Heq%dec_stable].
    + by rewrite decide_False.
    + rewrite decide_True by done. by rewrite <- app_assoc.
Qed.

Lemma foldl_persistObjectFact (x : action) l acc :
  foldl (persistObjectFact objects objectpath_For pkgs x) acc l =
  acc ++ omap (objectFactRecord x) l.
Proof.
  revert acc. induction l as [|kv l IH]; intros acc; simpl.
  - by rewrite app_nil_r.
  - rewrite IH. unfold persistObjectFact, objectFactRecord.
    destruct (decide (_ ≠ _)) as [Hne|Heq%dec_stable].
    + by rewrite decide_False.
    + rewrite decide_True by done.
      destruct (objectpath_For _); [done|]. by rewrite <- app_assoc.
Qed.

(** C4. The list [persistFactsToCache] hands to the cache consists of one
    record, with empty path, per package fact whose target is the action's own
    package, followed by one record per object fact whose object belongs to
    that package and has an object path; every record therefore stems from
    such a fact.  Facts of other packages and objects without a path are left
    out, and the only error the operation can return is the cache's. *)
Theorem persistFactsToCache_own_facts_only (x : action) :
  let own := Types (pkgs (act_pkg x)) in
  let facts := factsToPersist x in
  facts =
    ((λ kv, mkFact EmptyString kv.2) <$>
       filter (λ kv : packageFactKey * analysis_Fact, kv.1.1 = own)
         (map_to_list (packageFacts x)))
    ++ omap (objectFactRecord x) (map_to_list (objectFacts x))
  ∧ Forall (λ r,
       (∃ key fact, packageFacts x !! key = Some fact ∧ key.1 = own
                    ∧ r = mkFact EmptyString fact)
       ∨ (∃ key fact path, objectFacts x !! key = Some fact
                    ∧ Object_Pkg (objects key.1) = own
                    ∧ objectpath_For key.1 = inr path
                    ∧ r = mkFact path fact)) facts
  ∧ persistFactsToCache x =
      if bool_decide (FactTypes (analyzer (act_a x)) = []) then ([], None)
      else ([EvCachePut (act_pkg x) (factsKey analyzer (act_a x)) facts],
            cachePut (act_pkg x) (factsKey analyzer (act_a x)) facts).
Proof.
  intros own facts.
  assert (Hfacts : facts =
    ((λ kv, mkFact EmptyString kv.2) <$>
       filter (λ kv : packageFactKey * analysis_Fact, kv.1.1 = own)
         (map_to_list (packageFacts x)))
    ++ omap (objectFactRecord x) (map_to_list (objectFacts x))).
  { unfold facts, Exec.factsToPersist.
    by rewrite foldl_persistObjectFact, foldl_persistPackageFact. }
  split; [done|split].
  - rewrite Hfacts. apply Forall_app. split.
    + apply Forall_fmap, Forall_forall. intros [key fact] Hin.
      apply list_elem_of_filter in Hin as [Hown Hin].
      apply elem_of_map_to_list in Hin.
      left. by exists key, fact.
    + apply Forall_forall. intros r Hin.
      apply list_elem_of_omap in Hin as ([key fact] & Hin & Hrec).
      apply elem_of_map_to_list in Hin.
      unfold objectFactRecord in Hrec. simpl in Hrec.
      destruct (decide _) as [Hown|]; [|done].
      destruct (objectpath_For key.1) as [|path] eqn:Hpath; [done|].
      injection Hrec as <-. right. by exists key, fact, path.
  - unfold Exec.persistFactsToCache.
    destruct (FactTypes (analyzer (act_a x))); simpl; done.
Qed.

End Persist.

(** ** Exporting a package fact *)

Section ExportPackageFact.

Import Exec.

Variable analyzer : AnalyzerPtr → Analyzer.
Variable pkgs : PackagePtr → Package.

(** C10, as the code has it. On a pass that is still open (its
    [ExportPackageFact] callback is set) and for a fact of pointer type:
    with an empty syntax-file list the fact is stored and the call then panics
    on the index, whether or not facts debugging is enabled; with a first
    syntax file (and the pass's package set) the call stores or clobbers the
    fact under (pass package, fact type) and returns without a panic. *)
Theorem exportPackageFact_open_pass (isFactsDebug : bool) (x : action)
    (pass : Pass) (fact : analysis_Fact) :
  act_pass x = Some pass →
  Pass_ExportPackageFact pass = true →
  rt_isPtr (fact_type fact) = true →
  let stored :=
    set_packageFacts
      (<[(Pass_Pkg pass, fact_type fact) := fact]> (packageFacts x)) x in
  (Pass_Files pass = [] →
   exportPackageFact analyzer isFactsDebug pkgs fact x =
     (stored, [], Panic "index out of range [0] with length 0"))
  ∧ (∀ f rest tpkg,
       Pass_Files pass = Some f :: rest →
       Pass_Pkg pass = Some tpkg →
       (exportPackageFact analyzer isFactsDebug pkgs fact x).1.1 = stored
       ∧ (exportPackageFact analyzer isFactsDebug pkgs fact x).2 = Ok tt
       ∧ packageFacts stored !! (Pass_Pkg pass, fact_type fact) = Some fact).
Proof.
  intros Hpass Hopen Hptr stored.
  unfold exportPackageFact, factType. rewrite Hpass, Hopen, Hptr. simpl.
  split.
  - by intros ->.
  - intros f rest tpkg Hfiles Hpkg. subst stored.
    rewrite Hfiles, Hpkg. simpl. repeat split.
    apply lookup_insert_eq.
Qed.

End ExportPackageFact.

(** On a pass with a first syntax file whose export callback was cleared,
    the call panics and stores nothing. *)
Lemma exportPackageFact_closed_pass_panics :
  let x := Sample.actionOf 1 1 (Some (Sample.passOf [Some (mkFile 1)] false))
             true [] None in
  Pass_Files (Sample.passOf [Some (mkFile 1)] false) = [Some (mkFile 1)]
  ∧ Exec.exportPackageFact Sample.analyzer false Sample.pkgs Sample.aFact x =
      (x, [], Panic "facts@root: Pass.ExportPackageFact called after Run").
Proof. split; reflexivity. Qed.

Lemma exportPackageFact_open_pass_witness :
  let pass := Sample.passOf [] true in
  let x := Sample.actionOf 1 1 (Some pass) true [] None in
  Exec.exportPackageFact Sample.analyzer false Sample.pkgs Sample.aFact x =
    (set_packageFacts
       (<[(Pass_Pkg pass, fact_type Sample.aFact) := Sample.aFact]> (packageFacts x)) x,
     [], Panic "index out of range [0] with length 0").
Proof.
  intros pass x.
  refine (proj1 (exportPackageFact_open_pass Sample.analyzer Sample.pkgs false x pass
                   Sample.aFact _ _ _) _); reflexivity.
Defined.

(** ** Inheriting facts: the codec is never run *)

Section InheritFacts.

Import Exec.

Variable objects : ObjectPtr → Object.
Variable pkgs : PackagePtr → Package.

Lemma inheritObjectFacts_no_codec enc dec enc' dec' dep l n x :
  inheritObjectFacts objects enc dec pkgs false dep l n x =
  inheritObjectFacts objects enc' dec' pkgs false dep l n x
  ∧ (inheritObjectFacts objects enc dec pkgs false dep l n x).1.2 = n.
Proof.
  revert x. induction l as [|[key fact] l IH]; intros x; simpl; [done|].
  destruct (negb _); apply IH.
Qed.

Lemma inheritPackageFacts_no_codec enc dec enc' dec' l n x :
  inheritPackageFacts enc dec false l n x = inheritPackageFacts enc' dec' false l n x
  ∧ (inheritPackageFacts enc dec false l n x).1.2 = n.
Proof.
  revert x. induction l as [|[key fact] l IH]; intros x; simpl; [done|].
  destruct key.1; [apply IH|done].
Qed.

(** Whatever the gob codec does, [inheritFacts] returns the same action and
    outcome, and creates no encoder: no inherited fact is ever encoded or
    decoded. *)
Lemma inheritFacts_never_codes enc dec enc' dec' n x dep :
  inheritFacts objects enc dec pkgs n x dep = inheritFacts objects enc' dec' pkgs n x dep
  ∧ (inheritFacts objects enc dec pkgs n x dep).1.2 = n.
Proof.
  unfold inheritFacts.
  destruct (inheritObjectFacts_no_codec enc dec enc' dec' dep
              (map_to_list (objectFacts dep)) n x) as [<- Hn].
  destruct (inheritObjectFacts objects enc dec pkgs false dep _ n x)
    as [[x1 n1] [[]|msg|msg]]; simpl in *; subst; try done.
  apply inheritPackageFacts_no_codec.
Qed.

End InheritFacts.

(** C7, on the code. With a gob codec that fails on every value, which the
    sanity check would report as a fatal internal error, [inheritFacts] still
    succeeds and stores the dependency's own fact values: the round trip is
    not wired to any flag. *)
Lemma inheritFacts_skips_sanity_round_trip :
  Exec.inheritFacts Sample.objects Sample.brokenEncode Sample.noDecode Sample.pkgs 0
    (Sample.actionOf 1 1 None true [1] None) Sample.midAction =
  (set_packageFacts (<[(Some 12%positive, Sample.factT) := Sample.aFact]> ∅)
     (set_objectFacts (<[(1%positive, Sample.factT) := Sample.aFact]> ∅)
        (Sample.actionOf 1 1 None true [1] None)),
   0, Ok tt)
  ∧ Exec.codeFact Sample.brokenEncode Sample.noDecode 0 Sample.aFact =
      (1, inl (errorString "gob: type not registered")).
Proof. split; vm_compute; reflexivity. Qed.

(** ** Run gating in [action.analyze] *)

Section Analyze.

Import Exec.

Variable analyzer : AnalyzerPtr → Analyzer.
Variable objects : ObjectPtr → Object.
Variable Object_Pos : ObjectPtr → nat.
Variable objectpath_For : ObjectPtr → error + string.
Variable cachePut : PackagePtr → string → list Fact → option error.
Variable gobEncode : nat → analysis_Fact → error + list nat.
Variable gobDecode : list nat → rtype → error + analysis_Fact.
Variable Run : Pass → action → RunBehaviour.
Variable isFactsDebug : bool.
Variable pkgs : PackagePtr → Package.

Local Abbreviation analyze :=
  (Exec.analyze analyzer objects Object_Pos objectpath_For cachePut gobEncode
     gobDecode Run isFactsDebug pkgs).
Local Abbreviation runPass :=
  (Exec.runPass analyzer objects Object_Pos objectpath_For cachePut Run
     isFactsDebug pkgs).
Local Abbreviation runCalls :=
  (Exec.runCalls analyzer objects Object_Pos isFactsDebug pkgs).
Local Abbreviation plumbDeps := (Exec.plumbDeps objects gobEncode gobDecode pkgs).
Local Abbreviation persistFactsToCache :=
  (Exec.persistFactsToCache analyzer objects objectpath_For cachePut pkgs).

Lemma failedDeps_nil ds :
  Forall (λ d, act_err d = None) ds → failedDeps analyzer pkgs ds = [].
Proof. induction 1 as [|d ds Hd _ IH]; simpl; [done|]. by rewrite Hd. Qed.

(** The two fact loops leave the analyzer and the package of the action
    alone. *)
Lemma inheritObjectFacts_key s dep l n x :
  action_key (inheritObjectFacts objects gobEncode gobDecode pkgs s dep l n x).1.1
  = action_key x.
Proof.
  revert n x. induction l as [|[k f] l IH]; intros n x; simpl; [done|].
  destruct (negb _); [apply IH|].
  destruct s; [|by rewrite IH].
  destruct (codeFact _ _ _ _) as [n' [err|fact']]; [done|by rewrite IH].
Qed.

Lemma inheritPackageFacts_key s l n x :
  action_key (inheritPackageFacts gobEncode gobDecode s l n x).1.1 = action_key x.
Proof.
  revert n x. induction l as [|[k f] l IH]; intros n x; simpl; [done|].
  destruct s.
  - destruct (codeFact _ _ _ _) as [n' [err|fact']]; [done|].
    destruct k.1; [by rewrite IH|done].
  - destruct k.1; [by rewrite IH|done].
Qed.

Lemma inheritFacts_key n x dep :
  action_key (inheritFacts objects gobEncode gobDecode pkgs n x dep).1.1 = action_key x.
Proof.
  unfold inheritFacts.
  pose proof (inheritObjectFacts_key false dep (map_to_list (objectFacts dep)) n x) as H.
  destruct (inheritObjectFacts _ _ _ _ _ _ _ _ _) as [[x1 n1] [[]|msg|msg]];
    simpl in *; try done.
  by rewrite inheritPackageFacts_key.
Qed.

Lemma plumbDeps_key ds inputs n x :
  action_key (plumbDeps ds inputs n x).1.1.2 = action_key x.
Proof.
  revert inputs n x. induction ds as [|dep ds IH]; intros inputs n x; simpl; [done|].
  destruct (decide (act_pkg dep = act_pkg x)) as [Hp|Hp]; [apply IH|].
  destruct (decide (act_a dep = act_a x)) as [Ha|Ha]; [|apply IH].
  pose proof (inheritFacts_key n x dep) as H.
  destruct (inheritFacts _ _ _ _ _ _ _) as [[x1 n1] [[]|msg|msg]]; simpl in *;
    try done.
  by rewrite IH.
Qed.

(** The events of the analyzer's calls extend the events before them. *)
Lemma runCalls_events cs evs x :
  ∃ evs', (runCalls cs evs x).1.2 = evs ++ evs'.
Proof.
  revert evs x. induction cs as [|c cs IH]; intros evs x; simpl.
  - exists []. by rewrite app_nil_r.
  - destruct c as [d|obj fact|fact]; [apply IH| |].
    + destruct (exportObjectFact _ _ _ _ _ _ _ _) as [[x' evs1] [[]|msg|msg]]; simpl;
        [|by eexists..].
      destruct (IH (evs ++ evs1) x') as [evs' ->].
      exists (evs1 ++ evs'). by rewrite app_assoc.
    + destruct (exportPackageFact _ _ _ _ _) as [[x' evs1] [[]|msg|msg]]; simpl;
        [|by eexists..].
      destruct (IH (evs ++ evs1) x') as [evs' ->].
      exists (evs1 ++ evs'). by rewrite app_assoc.
Qed.

(** Persisting facts never invokes an analyzer. *)
Lemma persistFactsToCache_no_run x a p :
  EvRun a p ∉ (persistFactsToCache x).1.
Proof.
  unfold Exec.persistFactsToCache. case_bool_decide; simpl.
  - apply not_elem_of_nil.
  - intros Hin%list_elem_of_singleton. discriminate.
Qed.

(** An action that does not need source analysis returns at once. *)
Lemma analyze_without_source heap act x n :
  heap !! act = Some x → needAnalyzeSource x = false →
  analyze heap act n = (heap, [], Ok tt).
Proof. intros Hx Hneed. unfold Exec.analyze. by rewrite Hx, Hneed. Qed.

(** What [runPass] does on a package it must skip, and on one it runs. *)
Lemma runPass_gating inputs x :
  if IllTyped (pkgs (act_pkg x)) && negb (RunDespiteErrors (analyzer (act_a x))) then
    (∀ a p, EvRun a p ∉ (runPass inputs x).1.2)
    ∧ (runPass inputs x).2 = Ok tt
    ∧ act_err (runPass inputs x).1.1 =
        Some (errorString "analysis skipped due to errors in package")
  else EvRun (act_a x) (act_pkg x) ∈ (runPass inputs x).1.2.
Proof.
  unfold Exec.runPass. simpl.
  destruct (IllTyped _ && negb _) eqn:Hgate.
  - match goal with
    | |- context [persistFactsToCache ?y] =>
        pose proof (λ a p, persistFactsToCache_no_run y a p) as Hno;
        destruct (persistFactsToCache y) as [pevs perr] eqn:Hp
    end.
    simpl in *. split; [|split].
    + intros a p [Hin|Hin]%elem_of_app; [by eapply Hno|].
      destruct perr; [apply list_elem_of_singleton in Hin; discriminate|].
      by apply not_elem_of_nil in Hin.
    + done.
    + unfold closePass. simpl. done.
  - match goal with
    | |- context [runCalls ?cs ?evs ?y] =>
        destruct (runCalls_events cs evs y) as [evs' Hevs];
        destruct (runCalls cs evs y) as [[x1 evs1] res1]
    end.
    simpl in Hevs. subst evs1.
    destruct res1 as [[]|msg|msg]; simpl; [|set_solver..].
    destruct (returns _) as [[r err]|msg|msg]; simpl; [|set_solver..].
    destruct (persistFactsToCache _) as [pevs perr]. simpl. set_solver.
Qed.

(** C3, as the code has it. For an action that needs source analysis, whose
    dependencies all completed without error and whose inputs were plumbed:
    if the package is ill-typed and the analyzer does not run despite errors,
    the analyzer is not invoked and the action's error becomes "analysis
    skipped due to errors in package"; otherwise the analyzer is invoked. *)
Theorem analyze_run_gating heap act x ds n inputs x1 n1 :
  heap !! act = Some x →
  needAnalyzeSource x = true →
  mapM (λ d, heap !! d) (deps x) = Some ds →
  Forall (λ d, act_err d = None) ds →
  plumbDeps ds ∅ n x = (inputs, x1, n1, Ok tt) →
  if IllTyped (pkgs (act_pkg x)) && negb (RunDespiteErrors (analyzer (act_a x))) then
    (∀ a p, EvRun a p ∉ (analyze heap act n).1.2)
    ∧ (analyze heap act n).2 = Ok tt
    ∧ act_err <$> (analyze heap act n).1.1 !! act =
        Some (Some (errorString "analysis skipped due to errors in package"))
  else EvRun (act_a x) (act_pkg x) ∈ (analyze heap act n).1.2.
Proof.
  intros Hx Hneed Hds Hok Hplumb.
  pose proof (plumbDeps_key ds ∅ n x) as Hkey. rewrite Hplumb in Hkey.
  injection Hkey as Ha Hp.
  unfold Exec.analyze. rewrite Hx, Hneed, Hds. simpl.
  rewrite (failedDeps_nil _ Hok), Hplumb.
  pose proof (runPass_gating inputs x1) as Hrun. rewrite Ha, Hp in Hrun.
  destruct (runPass inputs x1) as [[x2 evs] res]. simpl in *.
  destruct (IllTyped _ && negb _); [|done].
  destruct Hrun as (Hno & -> & Herr). repeat split; [done|].
  by rewrite lookup_insert_eq, <- Herr.
Qed.

End Analyze.

(** An action on an ill-typed package, with an analyzer that does not run
    despite errors and no dependencies, that does not need source analysis:
    [analyze] returns at once and the action's error stays unset. *)
Lemma analyze_unset_error_without_source :
  let heap : gmap ActionPtr action := {[0 := Sample.actionOf 1 4 None false [] None]} in
  IllTyped (Sample.pkgs 4) = true
  ∧ RunDespiteErrors (Sample.analyzer 1) = false
  ∧ Sample.analyze heap 0 = (heap, [], Ok tt)
  ∧ act_err <$> (Sample.analyze heap 0).1.1 !! 0 = Some None.
Proof. repeat split. Qed.

Lemma analyze_run_gating_witness :
  let heap : gmap ActionPtr action := {[0 := Sample.actionOf 1 4 None true [] None]} in
  (∀ a p, Exec.EvRun a p ∉ (Sample.analyze heap 0).1.2)
  ∧ (Sample.analyze heap 0).2 = Ok tt
  ∧ act_err <$> (Sample.analyze heap 0).1.1 !! 0 =
      Some (Some (errorString "analysis skipped due to errors in package")).
Proof.
  intros heap.
  exact (analyze_run_gating Sample.analyzer Sample.objects Sample.objectPos
           Sample.objectpathFor Sample.cachePut Sample.brokenEncode Sample.noDecode
           Sample.run false Sample.pkgs heap 0
           (Sample.actionOf 1 4 None true [] None) [] 0 ∅
           (Sample.actionOf 1 4 None true [] None) 0
           eq_refl eq_refl eq_refl (List.Forall_nil _) eq_refl).
Defined.

(** ** The loader when export data cannot be read *)

Section LoadWithFacts.

Import Loader.

Variable analyzer : AnalyzerPtr → Analyzer.
Variable objectpath_Object : option TypesPkgPtr → string → error + ObjectPtr.
Variable cacheGet : PackagePtr → string → error + list Fact.
Variable parser_ParseFile : string → error + File.
Variable types_Check :
  list (option File) → (string → option TypesPkgPtr * option error) →
  list error * option error.
Variable os_Open : string → option error.
Variable gcexportdata_NewReader : string → option error.
Variable gcexportdata_Read :
  string → gmap string (option TypesPkgPtr) → string → error + TypesPkgPtr.

Local Abbreviation loadWithFacts :=
  (Loader.loadWithFacts analyzer objectpath_Object cacheGet parser_ParseFile
     types_Check os_Open gcexportdata_NewReader gcexportdata_Read).
Local Abbreviation loadFromSource := (Loader.loadFromSource parser_ParseFile types_Check).
Local Abbreviation loadFromExportData :=
  (Loader.loadFromExportData os_Open gcexportdata_NewReader gcexportdata_Read).

(** C6, as the code has it. For a package that is not [unsafe], not loaded
    yet and not initial, whose export-data load fails with [err]: a source
    load is attempted on a fresh type universe; if it fails too, its error is
    what the per-package load returns; if it succeeds, the package gets an
    error entry and the load returns [err] wrapped as "could not load export
    data".  Either way the load returns an error. *)
Theorem loadWithFacts_export_data_failure fuel lp st st1 err :
  PkgPath (packages st (lp_pkg lp)) ≠ unsafePkgName →
  TypesInfo (packages st (lp_pkg lp)) = false →
  isInitial lp = false →
  loadFromExportData fuel lp st = Some (st1, Some err) →
  let src := loadFromSource lp (newTypes (lp_pkg lp) st1) in
  loadWithFacts fuel lp st =
    Some (set_wasLoaded true lp,
          match src.2 with
          | Some _ => src.1
          | None =>
              appendErrors (lp_pkg lp)
                [mkPackagesError "-"
                   ("could not load export data: " +:+ error_Error err) ParseError]
                src.1
          end,
          Ok (Some match src.2 with
                   | Some srcErr => srcErr
                   | None => Wrap err "could not load export data"
                   end)).
Proof.
  intros Hunsafe Hinfo Hinit Hexport src.
  unfold Loader.loadWithFacts.
  rewrite decide_False by done. rewrite Hinfo, Hinit, Hexport.
  subst src. by destruct (loadFromSource _ _) as [st2 [srcErr|]].
Qed.

End LoadWithFacts.

(** The export data of [broken] is missing and its source file cannot be
    opened: the load returns the parser's error, not the export-data error. *)
Lemma loadWithFacts_returns_source_error :
  Loader.isInitial Sample.lpBroken = false
  ∧ snd <$> Loader.loadFromExportData Sample.osOpen Sample.newReader
               Sample.readExport 1 Sample.lpBroken Sample.loader0 =
      Some (Some (errorString
                    ("no export data for " +:+ Loader.strconv_Quote "broken")))
  ∧ snd <$> Sample.loadWithFacts Sample.lpBroken Sample.loader0 =
      Some (Ok (Some (PathError "broken.go" "no such file or directory"))).
Proof. repeat split. Qed.

Lemma loadWithFacts_export_data_failure_witness :
  snd <$> Sample.loadWithFacts Sample.lpNodata Sample.loader0 =
    Some (Ok (Some (Wrap (errorString
                            ("no export data for " +:+ Loader.strconv_Quote "nodata"))
                      "could not load export data"))).
Proof.
  unfold Sample.loadWithFacts.
  rewrite (loadWithFacts_export_data_failure Sample.analyzer Sample.objectpathObject
             Sample.cacheGet Sample.parseFile Sample.typesCheck Sample.osOpen
             Sample.newReader Sample.readExport 1 Sample.lpNodata Sample.loader0
             (Loader.updPkg 5 (Loader.set_IllTyped true)
                (Loader.newTypes 5 Sample.loader0))
             (errorString ("no export data for " +:+ Loader.strconv_Quote "nodata")));
    [reflexivity|discriminate|reflexivity|reflexivity|reflexivity].
Defined.

(** ** The traversal of the diagnostic collector *)

Section TraversalFacts.

Import Collector.

Context {St : Type}.
Variable heap : gmap ActionPtr action.
Variable extract : ActionPtr → St → option St.

(** One step of the loop of [visitAll]. *)
Lemma visitAll_cons fuel act rest (st : gset ActionPtr * St) :
  visitAll heap extract (S fuel) (act :: rest) st =
  if decide (act ∈ st.1) then visitAll heap extract (S fuel) rest st
  else
    match heap !! act with
    | None => None
    | Some x =>
        match visitAll heap extract fuel (deps x) ({[act]} ∪ st.1, st.2) with
        | None => None
        | Some st' =>
            match extract act st'.2 with
            | None => None
            | Some s => visitAll heap extract (S fuel) rest (st'.1, s)
            end
        end
    end.
Proof. reflexivity. Qed.

Lemma visitAll_nil fuel (st : gset ActionPtr * St) :
  visitAll heap extract (S fuel) [] st = Some st.
Proof. reflexivity. Qed.

End TraversalFacts.

Section TraversalSimulation.

Import Collector.

Context {St1 St2 : Type}.
Variable heap : gmap ActionPtr action.
Variable extract1 : ActionPtr → St1 → option St1.
Variable extract2 : ActionPtr → St2 → option St2.
Variable R : St1 → St2 → Prop.

Hypothesis extract_sim : ∀ act s1 s2,
  is_Some (heap !! act) → R s1 s2 →
  option_Forall2 R (extract1 act s1) (extract2 act s2).

(** [visitAll] treats the state of its closure as a black box: run with two
    closures that keep a relation between their states, it marks the same
    actions and ends in related states. *)
Lemma visitAll_sim fuel l E s1 s2 :
  R s1 s2 →
  option_Forall2 (λ r1 r2, r1.1 = r2.1 ∧ R r1.2 r2.2)
    (visitAll heap extract1 fuel l (E, s1))
    (visitAll heap extract2 fuel l (E, s2)).
Proof.
  revert l E s1 s2. induction fuel as [|fuel IHfuel]; intros l E s1 s2 HR.
  { constructor. }
  revert E s1 s2 HR. induction l as [|act rest IHl]; intros E s1 s2 HR.
  { rewrite !visitAll_nil. by constructor. }
  rewrite !visitAll_cons. simpl.
  destruct (decide (act ∈ E)); [by apply IHl|].
  destruct (heap !! act) as [x|] eqn:Hx; [|constructor].
  destruct (IHfuel (deps x) ({[act]} ∪ E) s1 s2 HR)
    as [[E1 t1] [E2 t2] [HE Ht]|]; [|constructor].
  simpl in *. subst E2.
  destruct (extract_sim act t1 t2 (mk_is_Some _ _ Hx) Ht) as [u1 u2 Hu|];
    [|constructor].
  by apply IHl.
Qed.

End TraversalSimulation.

Section VisitOrder.

Import Collector.

Variable heap : gmap ActionPtr action.

(** The recording traversal from marked set [E] appends to its list an
    [order] of distinct, previously unmarked actions, marks exactly those,
    covers the actions it was asked to visit, and whenever it appends an
    action all dependencies of that action are marked by the end. *)
Lemma visitAll_record_spec fuel l E acc E' acc' :
  visitAll heap record fuel l (E, acc) = Some (E', acc') →
  ∃ order,
    acc' = acc ++ order
    ∧ E' = E ∪ list_to_set order
    ∧ NoDup order
    ∧ (∀ a, a ∈ order → a ∉ E)
    ∧ (∀ a, a ∈ l → a ∈ E')
    ∧ (∀ a, a ∈ order → ∃ x, heap !! a = Some x ∧ ∀ d, d ∈ deps x → d ∈ E').
Proof.
  revert l E acc E' acc'.
  induction fuel as [|fuel IHfuel]; intros l E acc E' acc'; [done|].
  revert E acc E' acc'.
  induction l as [|act rest IHl]; intros E acc E' acc'.
  { rewrite visitAll_nil. intros [= <- <-]. exists [].
    rewrite app_nil_r. repeat split; try set_solver. constructor. }
  rewrite visitAll_cons. simpl.
  destruct (decide (act ∈ E)) as [Hin|Hnotin].
  { intros Hrest. destruct (IHl _ _ _ _ Hrest) as (order & -> & -> & Hnd & Hfresh & Hcov & Hcl).
    exists order. repeat split; try done. set_solver. }
  destruct (heap !! act) as [x|] eqn:Hx; [|done].
  destruct (visitAll heap record fuel (deps x) ({[act]} ∪ E, acc)) as [[E1 acc1]|] eqn:Hdeps;
    [|done].
  simpl. unfold record at 1. simpl.
  apply IHfuel in Hdeps as (o1 & -> & -> & Hnd1 & Hfresh1 & Hcov1 & Hcl1).
  intros Hrest.
  apply IHl in Hrest as (o2 & -> & -> & Hnd2 & Hfresh2 & Hcov2 & Hcl2).
  exists (o1 ++ act :: o2). repeat split.
  - by rewrite <- !app_assoc.
  - rewrite list_to_set_app_L, list_to_set_cons. set_solver.
  - apply NoDup_app. split; [done|]. split.
    + intros a Ha1 Ha2. apply elem_of_cons in Ha2 as [->|Ha2].
      * apply Hfresh1 in Ha1. set_solver.
      * apply Hfresh2 in Ha2. set_solver.
    + apply NoDup_cons. split; [|done].
      intros Ha2. apply Hfresh2 in Ha2. set_solver.
  - intros a [Ha|Ha]%elem_of_app.
    + apply Hfresh1 in Ha. set_solver.
    + apply elem_of_cons in Ha as [->|Ha]; [done|].
      apply Hfresh2 in Ha. set_solver.
  - intros a [->|Ha]%elem_of_cons; [set_solver|by apply Hcov2].
  - intros a [Ha|Ha]%elem_of_app.
    + destruct (Hcl1 a Ha) as (y & Hy & Hd). exists y. split; [done|]. set_solver.
    + apply elem_of_cons in Ha as [->|Ha]; [|by apply Hcl2].
      exists x. split; [done|]. set_solver.
Qed.

(** On a closed heap the recording traversal returns once the fuel exceeds
    the number of unmarked actions. *)
Lemma visitAll_record_total fuel l E acc :
  closed heap →
  (∀ a, a ∈ l → a ∈ dom heap) →
  size (dom heap ∖ E) < fuel →
  is_Some (visitAll heap record fuel l (E, acc)).
Proof.
  intros Hclosed. revert l E acc.
  induction fuel as [|fuel IHfuel]; intros l E acc Hl Hsize; [lia|].
  revert E acc Hsize. induction l as [|act rest IHl]; intros E acc Hsize.
  { by rewrite visitAll_nil. }
  rewrite visitAll_cons. simpl.
  destruct (decide (act ∈ E)) as [Hin|Hnotin].
  { apply IHl; [set_solver|done]. }
  assert (Hact : act ∈ dom heap) by set_solver.
  apply elem_of_dom in Hact as [x Hx]. rewrite Hx.
  assert (Hless : size (dom heap ∖ ({[act]} ∪ E)) < size (dom heap ∖ E)).
  { apply subset_size. apply elem_of_dom_2 in Hx. set_solver. }
  destruct (IHfuel (deps x) ({[act]} ∪ E) acc) as [[E1 acc1] Hdeps].
  { intros d Hd. by eapply Hclosed. }
  { lia. }
  rewrite Hdeps. simpl. unfold record at 1. simpl.
  apply IHl; [set_solver|].
  apply visitAll_record_spec in Hdeps as (o1 & _ & -> & _).
  eapply Nat.le_lt_trans; [|exact Hsize].
  apply subseteq_size. set_solver.
Qed.

End VisitOrder.

(** ** De-duplication by first occurrence *)

Section FirstByKey.

Import Collector.

Lemma firstByKey_app seen l1 l2 :
  firstByKey seen (l1 ++ l2) =
  firstByKey seen l1 ++ firstByKey (list_to_set (diagKey <$> l1) ∪ seen) l2.
Proof.
  revert seen. induction l1 as [|d l1 IH]; intros seen; simpl.
  - by rewrite (left_id_L ∅ (∪)).
  - destruct (decide (diagKey d ∈ seen)) as [Hin|Hnotin].
    + rewrite IH. do 2 f_equal. set_solver.
    + simpl. rewrite IH. do 3 f_equal. set_solver.
Qed.

Lemma firstByKey_fresh seen l d :
  d ∈ firstByKey seen l → (diagKey d ∉ seen) ∧ d ∈ l.
Proof.
  revert seen. induction l as [|d' l IH]; intros seen; simpl.
  - by intros ?%elem_of_nil.
  - destruct (decide (diagKey d' ∈ seen)) as [Hin|Hnotin].
    + intros [? ?]%IH. split; [done|]. apply elem_of_cons; by right.
    + intros [->|Hin]%elem_of_cons.
      * split; [done|]. apply elem_of_cons; by left.
      * apply IH in Hin as [Hd ?].
        split; [set_solver|]. apply elem_of_cons; by right.
Qed.

Lemma firstByKey_NoDup seen l : NoDup (diagKey <$> firstByKey seen l).
Proof.
  revert seen. induction l as [|d l IH]; intros seen; simpl; [constructor|].
  destruct (decide (diagKey d ∈ seen)); [apply IH|].
  rewrite fmap_cons. apply NoDup_cons. split; [|apply IH].
  rewrite list_elem_of_fmap. intros (d' & Hkey & Hd').
  apply firstByKey_fresh in Hd' as [Hd' _]. apply Hd'.
  apply elem_of_union. left. by apply elem_of_singleton.
Qed.

(** Every key of the list that is not in [seen] is carried by a diagnostic
    that is kept. *)
Lemma firstByKey_complete seen l d :
  d ∈ l → diagKey d ∉ seen →
  ∃ d', d' ∈ firstByKey seen l ∧ diagKey d' = diagKey d.
Proof.
  revert seen. induction l as [|d0 l IH]; intros seen; simpl.
  - by intros ?%elem_of_nil.
  - intros [->|Hin]%elem_of_cons Hfresh.
    + rewrite decide_False by done. exists d0. split; [|done].
      apply elem_of_cons; by left.
    + destruct (decide (diagKey d0 ∈ seen)); [by apply IH|].
      destruct (decide (diagKey d = diagKey d0)) as [Heq|Hne].
      * exists d0. split; [|done]. apply elem_of_cons; by left.
      * destruct (IH ({[diagKey d0]} ∪ seen) Hin) as (d' & Hd' & Hkey);
          [set_solver|].
        exists d'. split; [|done]. apply elem_of_cons; by right.
Qed.

End FirstByKey.

(** ** What [extract] collects along a visit order *)

Section Extraction.

Import Collector.

Variable analyzer : AnalyzerPtr → Analyzer.
Variable pkgs : PackagePtr → Package.
Variable heap : gmap ActionPtr action.

Local Abbreviation extract := (Collector.extract analyzer pkgs heap).
Local Abbreviation extractAll := (Collector.extractAll analyzer pkgs heap).
Local Abbreviation candidates := (Collector.candidates pkgs heap).
Local Abbreviation errorsOf := (Collector.errorsOf analyzer heap).
Local Abbreviation extractDiagnostics := (Collector.extractDiagnostics analyzer pkgs heap).

(** The loop over the diagnostics of a root keeps first occurrences. *)
Lemma foldl_report x c ds :
  let cand :=
    (λ diag, mkDiagnostic diag (act_a x) (Fset (pkgs (act_pkg x)) (Pos diag))) <$> ds in
  foldl (report pkgs x) c ds =
  mkCollector (list_to_set (diagKey <$> cand) ∪ seen c)
    (retDiags c ++ firstByKey (seen c) cand) (retErrors c).
Proof.
  intros cand. subst cand. revert c. induction ds as [|d ds IH]; intros c.
  - simpl. rewrite (left_id_L ∅ (∪)), app_nil_r. by destruct c.
  - rewrite !fmap_cons, list_to_set_cons. cbn [foldl firstByKey]. rewrite IH.
    change (diagKey _) with (Fset (pkgs (act_pkg x)) (Pos d), act_a x, Message d).
    unfold report.
    destruct (decide (_ ∈ seen c)) as [Hin|Hnotin]; simpl.
    + f_equal. set_solver.
    + f_equal; [set_solver|]. by rewrite <- app_assoc.
Qed.

(** One call of [extract] on an action of the heap. *)
Lemma extract_Some act x c :
  heap !! act = Some x →
  extract act c =
  Some (mkCollector (list_to_set (diagKey <$> candidatesOf pkgs x) ∪ seen c)
          (retDiags c ++ firstByKey (seen c) (candidatesOf pkgs x))
          (retErrors c ++ errorOf analyzer x)).
Proof.
  intros Hx. unfold Collector.extract, candidatesOf, errorOf. rewrite Hx.
  destruct (act_err x) as [e|]; simpl.
  - by rewrite (left_id_L ∅ (∪)), app_nil_r.
  - destruct (isroot x); simpl.
    + by rewrite foldl_report, app_nil_r.
    + rewrite (left_id_L ∅ (∪)), !app_nil_r. by destruct c.
Qed.

Lemma extractAll_snoc order act c :
  extractAll (order ++ [act]) c = extractAll order c ≫= extract act.
Proof. unfold Collector.extractAll. by rewrite foldl_app. Qed.

Lemma extractAll_cons act order c :
  extractAll (act :: order) c = extract act c ≫= extractAll order.
Proof.
  unfold Collector.extractAll. simpl.
  destruct (extract act c) as [c'|]; simpl; [done|].
  induction order as [|a order IH]; simpl; [done|]. apply IH.
Qed.

(** [extract] along a list of actions of the heap yields the first
    occurrences of the candidates of the list and all of its errors. *)
Lemma extractAll_spec order c :
  (∀ a, a ∈ order → is_Some (heap !! a)) →
  extractAll order c =
  Some (mkCollector (list_to_set (diagKey <$> candidates order) ∪ seen c)
          (retDiags c ++ firstByKey (seen c) (candidates order))
          (retErrors c ++ errorsOf order)).
Proof.
  revert c. induction order as [|a order IH]; intros c Hheap.
  - unfold Collector.extractAll. simpl.
    rewrite (left_id_L ∅ (∪)), !app_nil_r. by destruct c.
  - destruct (Hheap a) as [x Hx]; [apply elem_of_cons; by left|].
    rewrite extractAll_cons, (extract_Some _ _ _ Hx). simpl.
    rewrite IH by (intros a' Ha'; apply Hheap, elem_of_cons; by right).
    unfold Collector.candidates, Collector.errorsOf. simpl.
    rewrite Hx. simpl.
    rewrite firstByKey_app, fmap_app, list_to_set_app_L, <- !app_assoc.
    do 2 f_equal. set_solver.
Qed.

End Extraction.

Section ExtractDiagnostics.

Import Collector.

Variable analyzer : AnalyzerPtr → Analyzer.
Variable pkgs : PackagePtr → Package.
Variable heap : gmap ActionPtr action.

Local Abbreviation extract := (Collector.extract analyzer pkgs heap).
Local Abbreviation extractAll := (Collector.extractAll analyzer pkgs heap).
Local Abbreviation candidates := (Collector.candidates pkgs heap).
Local Abbreviation errorsOf := (Collector.errorsOf analyzer heap).
Local Abbreviation extractDiagnostics := (Collector.extractDiagnostics analyzer pkgs heap).

(** On a closed heap [extractDiagnostics] returns.  Its traversal visits,
    each once and after its dependencies were marked, the roots and every
    action they lead to; the result is what [extract] collects along that
    order. *)
Lemma extractDiagnostics_along_order roots :
  closed heap →
  (∀ a, a ∈ roots → a ∈ dom heap) →
  ∃ order,
    visitOrder heap roots = Some order
    ∧ NoDup order
    ∧ (∀ a, a ∈ roots → a ∈ order)
    ∧ (∀ a, a ∈ order → ∃ x, heap !! a = Some x ∧ ∀ d, d ∈ deps x → d ∈ order)
    ∧ extractDiagnostics roots =
        Some (firstByKey ∅ (candidates order), errorsOf order).
Proof.
  intros Hclosed Hroots.
  destruct (visitAll_record_total heap (S (size heap)) roots ∅ [] Hclosed Hroots)
    as [[E' acc'] Hrec].
  { rewrite difference_empty_L, size_dom. lia. }
  destruct (visitAll_record_spec _ _ _ _ _ _ _ Hrec)
    as (order & -> & -> & Hnd & _ & Hcov & Hcl).
  change ([] ++ order) with order in Hrec.
  assert (Hin : ∀ a, a ∈ (∅ : gset ActionPtr) ∪ list_to_set order ↔ a ∈ order)
    by set_solver.
  exists order. unfold visitOrder. rewrite Hrec. repeat split; [done|..].
  - intros a Ha. by apply Hin, Hcov.
  - intros a Ha. destruct (Hcl a Ha) as (x & Hx & Hd).
    exists x. split; [done|]. intros d Hdx. by apply Hin, Hd.
  - assert (Hstep : ∀ act c o,
              is_Some (heap !! act) → extractAll o init = Some c →
              option_Forall2 (λ c o, extractAll o init = Some c)
                (extract act c) (record act o)).
    { intros act c o [x Hx] Hco. rewrite (extract_Some _ _ _ _ _ _ Hx).
      constructor. rewrite extractAll_snoc, Hco. simpl.
      by rewrite (extract_Some _ _ _ _ _ _ Hx). }
    pose proof (visitAll_sim heap extract record _ Hstep (S (size heap)) roots
                  (∅ : gset ActionPtr) init [] eq_refl) as Hsim.
    rewrite Hrec in Hsim. unfold Collector.extractDiagnostics.
    destruct (visitAll heap extract (S (size heap)) roots (∅, init)) as [[E1 c]|];
      [|inversion Hsim].
    inversion Hsim as [r1 r2 [_ Hc]|]; subst. cbn [snd] in Hc.
    rewrite extractAll_spec in Hc
      by (intros a Ha; destruct (Hcl a Ha) as (x & -> & _); done).
    injection Hc as <-. done.
Qed.

End ExtractDiagnostics.

(** ** The diagnostic collector: de-duplication and errors *)

Section CollectorTheorems.

Import Collector.

Variable analyzer : AnalyzerPtr → Analyzer.
Variable pkgs : PackagePtr → Package.
Variable heap : gmap ActionPtr action.

(** C5. On a heap that holds the roots and the dependencies of its actions,
    [extractDiagnostics] returns; its diagnostics are the candidates met
    along the traversal order (the diagnostics of the error-free root
    actions, each with its position materialized) with every candidate
    dropped whose key (position, analyzer, message) an earlier candidate
    carries.  So no two entries have equal keys, and every key met is
    represented, by its first occurrence. *)
Theorem extractDiagnostics_no_duplicates roots :
  closed heap →
  (∀ a, a ∈ roots → a ∈ dom heap) →
  ∃ order ds es,
    visitOrder heap roots = Some order
    ∧ extractDiagnostics analyzer pkgs heap roots = Some (ds, es)
    ∧ ds = firstByKey ∅ (candidates pkgs heap order)
    ∧ NoDup (diagKey <$> ds)
    ∧ (∀ d, d ∈ ds → d ∈ candidates pkgs heap order)
    ∧ (∀ d, d ∈ candidates pkgs heap order → ∃ d', d' ∈ ds ∧ diagKey d' = diagKey d).
Proof.
  intros Hclosed Hroots.
  destruct (extractDiagnostics_along_order analyzer pkgs heap roots Hclosed Hroots)
    as (order & Horder & _ & _ & _ & Hres).
  exists order, (firstByKey ∅ (candidates pkgs heap order)),
    (errorsOf analyzer heap order).
  repeat split; try done.
  - apply firstByKey_NoDup.
  - intros d Hd. by apply firstByKey_fresh in Hd as [_ ?].
  - intros d Hd. apply firstByKey_complete; [done|set_solver].
Qed.

(** C8, as the code has it. The error list holds, in traversal order, the
    error of every visited action whose error is set, wrapped with the name
    of its analyzer, whether the action is a root or not; the visited actions
    are the roots and, with each action, its dependencies. *)
Theorem extractDiagnostics_errors_of_every_visited_action roots :
  closed heap →
  (∀ a, a ∈ roots → a ∈ dom heap) →
  ∃ order ds es,
    visitOrder heap roots = Some order
    ∧ extractDiagnostics analyzer pkgs heap roots = Some (ds, es)
    ∧ es = errorsOf analyzer heap order
    ∧ (∀ a, a ∈ roots → a ∈ order)
    ∧ (∀ a x d, a ∈ order → heap !! a = Some x → d ∈ deps x → d ∈ order)
    ∧ (∀ a x e, a ∈ order → heap !! a = Some x → act_err x = Some e →
         Wrap e (Name (analyzer (act_a x))) ∈ es).
Proof.
  intros Hclosed Hroots.
  destruct (extractDiagnostics_along_order analyzer pkgs heap roots Hclosed Hroots)
    as (order & Horder & _ & Hcov & Hcl & Hres).
  exists order, (firstByKey ∅ (candidates pkgs heap order)),
    (errorsOf analyzer heap order).
  repeat split; try done.
  - intros a x d Ha Hx Hd. destruct (Hcl a Ha) as (y & Hy & Hdeps).
    rewrite Hx in Hy. injection Hy as <-. by apply Hdeps.
  - intros a x e Ha Hx He. unfold Collector.errorsOf.
    apply list_elem_of_bind. exists a. split; [|done].
    rewrite Hx. simpl. unfold errorOf. rewrite He. by apply list_elem_of_singleton.
Qed.

End CollectorTheorems.

(** The sample heaps hold the dependencies of their actions. *)
Lemma twoRoots_closed : Collector.closed Sample.twoRoots.
Proof.
  intros a x Hx d Hd. unfold Sample.twoRoots in Hx.
  destruct (decide (a = 0)) as [->|H0].
  { rewrite lookup_insert_eq in Hx. injection Hx as <-. by apply elem_of_nil in Hd. }
  rewrite lookup_insert_ne in Hx by done.
  destruct (decide (a = 1)) as [->|H1].
  { rewrite lookup_insert_eq in Hx. injection Hx as <-. by apply elem_of_nil in Hd. }
  by rewrite lookup_insert_ne in Hx.
Qed.

Lemma failedDep_closed : Collector.closed Sample.failedDep.
Proof.
  intros a x Hx d Hd. unfold Sample.failedDep in Hx.
  destruct (decide (a = 0)) as [->|H0].
  { rewrite lookup_insert_eq in Hx. injection Hx as <-.
    apply list_elem_of_singleton in Hd as ->. by apply elem_of_dom. }
  rewrite lookup_insert_ne in Hx by done.
  destruct (decide (a = 1)) as [->|H1].
  { rewrite lookup_insert_eq in Hx. injection Hx as <-. by apply elem_of_nil in Hd. }
  by rewrite lookup_insert_ne in Hx.
Qed.

Lemma sample_roots_in_heap (heap : gmap ActionPtr action) (roots : list ActionPtr) :
  Forall (λ a, is_Some (heap !! a)) roots → ∀ a, a ∈ roots → a ∈ dom heap.
Proof. intros Hall a Ha. apply elem_of_dom. by eapply Forall_forall in Hall. Qed.

Lemma extractDiagnostics_no_duplicates_witness :
  ∃ order ds es,
    Collector.visitOrder Sample.twoRoots [0; 1] = Some order
    ∧ Collector.extractDiagnostics Sample.analyzer Sample.pkgs Sample.twoRoots [0; 1]
      = Some (ds, es)
    ∧ ds = Collector.firstByKey ∅
             (Collector.candidates Sample.pkgs Sample.twoRoots order)
    ∧ NoDup (Collector.diagKey <$> ds)
    ∧ (∀ d, d ∈ ds → d ∈ Collector.candidates Sample.pkgs Sample.twoRoots order)
    ∧ (∀ d, d ∈ Collector.candidates Sample.pkgs Sample.twoRoots order →
         ∃ d', d' ∈ ds ∧ Collector.diagKey d' = Collector.diagKey d).
Proof.
  apply (extractDiagnostics_no_duplicates Sample.analyzer Sample.pkgs Sample.twoRoots
           [0; 1] twoRoots_closed).
  apply sample_roots_in_heap. repeat constructor; by eexists.
Defined.

(** Of the four diagnostics the two roots report, the two with a new key
    are returned. *)
Example extractDiagnostics_twoRoots :
  Collector.extractDiagnostics Sample.analyzer Sample.pkgs Sample.twoRoots [0; 1] =
  Some ([mkDiagnostic Sample.unused 2 (Sample.posOf "root.go" 10);
         mkDiagnostic Sample.shadow 2 (Sample.posOf "root.go" 20)], []).
Proof. vm_compute. reflexivity. Qed.

(** The failed dependency is no root, and its error is returned, before the
    root's own. *)
Lemma extractDiagnostics_returns_non_root_error :
  isroot <$> Sample.failedDep !! 1 = Some false
  ∧ Collector.extractDiagnostics Sample.analyzer Sample.pkgs Sample.failedDep [0] =
    Some ([], [Wrap (errorString "boom") "facts";
               Wrap (errorString "failed prerequisites: facts@root") "lint"]).
Proof. split; vm_compute; reflexivity. Qed.

Lemma extractDiagnostics_errors_of_every_visited_action_witness :
  ∃ order ds es,
    Collector.visitOrder Sample.failedDep [0] = Some order
    ∧ Collector.extractDiagnostics Sample.analyzer Sample.pkgs Sample.failedDep [0]
      = Some (ds, es)
    ∧ es = Collector.errorsOf Sample.analyzer Sample.failedDep order
    ∧ (∀ a, a ∈ [0] → a ∈ order)
    ∧ (∀ a x d, a ∈ order → Sample.failedDep !! a = Some x → d ∈ deps x → d ∈ order)
    ∧ (∀ a x e, a ∈ order → Sample.failedDep !! a = Some x → act_err x = Some e →
         Wrap e (Name (Sample.analyzer (act_a x))) ∈ es).
Proof.
  apply (extractDiagnostics_errors_of_every_visited_action Sample.analyzer Sample.pkgs
           Sample.failedDep [0] failedDep_closed).
  apply sample_roots_in_heap. repeat constructor; by eexists.
Defined.

(** ** The action graph builder *)

Section BuilderFacts.

Import Builder.

Variable analyzer : AnalyzerPtr → Analyzer.
Variable pkgs : PackagePtr → Package.
Variable initialPkgs : gset PackagePtr.

Local Abbreviation mkAction := (Builder.mkAction analyzer pkgs initialPkgs).
Local Abbreviation newAction := (Builder.newAction initialPkgs).
Local Abbreviation importPaths := (Builder.importPaths pkgs).

(** The import paths are enumerated in ascending order, each once. *)
Lemma importPaths_sorted pkg : Sorted string_le (importPaths pkg).
Proof. apply Sorted_merge_sort, _. Qed.

Lemma importPaths_keys pkg :
  importPaths pkg ≡ₚ (map_to_list (Imports (pkgs pkg))).*1.
Proof. apply merge_sort_Permutation. Qed.

Lemma importPaths_NoDup pkg : NoDup (importPaths pkg).
Proof. rewrite importPaths_keys. apply NoDup_fst_map_to_list. Qed.

Lemma elem_of_importPaths pkg path :
  path ∈ importPaths pkg ↔ is_Some (Imports (pkgs pkg) !! path).
Proof.
  rewrite importPaths_keys, list_elem_of_fmap. split.
  - intros ([path' q] & -> & Hin). apply elem_of_map_to_list in Hin. by eexists.
  - intros [q Hq]. exists (path, q). split; [done|]. by apply elem_of_map_to_list.
Qed.

(** The two loops as instances of [forKeys]. *)
Lemma forRequires_forKeys mk act pkg reqs st :
  forRequires mk act pkg reqs st = forKeys mk act ((λ req, (req, pkg)) <$> reqs) st.
Proof.
  revert st. induction reqs as [|req reqs IH]; intros st; simpl; [done|].
  destruct (mk req pkg st) as [[dep st']|]; [apply IH|done].
Qed.

Lemma forPaths_forKeys mk act a imports paths qs st :
  Forall2 (λ path q, imports !! path = Some q) paths qs →
  forPaths mk act a imports paths st = forKeys mk act ((λ q, (a, q)) <$> qs) st.
Proof.
  intros Hqs. revert st. induction Hqs as [|path q paths qs Hq _ IH]; intros st;
    simpl; [done|].
  rewrite Hq. destruct (mk a q st) as [[dep st']|]; [apply IH|done].
Qed.

(** The packages behind the import paths. *)
Lemma importPaths_lookup pkg :
  ∃ qs, Forall2 (λ path q, Imports (pkgs pkg) !! path = Some q) (importPaths pkg) qs.
Proof.
  assert (Hall : Forall (λ path, is_Some (Imports (pkgs pkg) !! path)) (importPaths pkg)).
  { apply Forall_forall. intros path. apply elem_of_importPaths. }
  induction Hall as [|path paths [q Hq] _ [qs IH]].
  - exists []. constructor.
  - exists (q :: qs). by constructor.
Qed.

(** One unfolding of [mkAction] on a key the table does not hold. *)
Lemma mkAction_miss fuel a pkg st :
  actions st !! (a, pkg) = None →
  mkAction (S fuel) a pkg st =
  let act := next st in
  let st0 := (alloc (newAction a pkg) st).2 in
  match forRequires (mkAction fuel) act pkg (Requires (analyzer a)) st0 with
  | None => None
  | Some st1 =>
      match
        (if bool_decide (0 < length (FactTypes (analyzer a))) then
           match forPaths (mkAction fuel) act a (Imports (pkgs pkg))
                   (importPaths pkg) st1 with
           | None => None
           | Some st2 => Some (gobRegister (FactTypes (analyzer a)) st2)
           end
         else Some st1)
      with
      | None => None
      | Some st2 => Some (act, setAction (a, pkg) act st2)
      end
  end.
Proof. intros Hmiss. simpl. by rewrite Hmiss. Qed.

Lemma mkAction_hit fuel a pkg st act :
  actions st !! (a, pkg) = Some act → mkAction fuel a pkg st = Some (act, st).
Proof. intros Hhit. destruct fuel; simpl; by rewrite Hhit. Qed.

End BuilderFacts.

Section BuilderInvariants.

Import Builder.

Variable analyzer : AnalyzerPtr → Analyzer.
Variable pkgs : PackagePtr → Package.
Variable initialPkgs : gset PackagePtr.

(** The requirement graph of the analyzers and the import graph of the
    packages are acyclic: each has a rank that decreases along its edges. *)
Variable rankA : AnalyzerPtr → nat.
Variable rankP : PackagePtr → nat.
Hypothesis Requires_rank :
  ∀ a req, req ∈ Requires (analyzer a) → rankA req < rankA a.
Hypothesis Imports_rank :
  ∀ p path q, Imports (pkgs p) !! path = Some q → rankP q < rankP p.

Local Abbreviation mkAction := (Builder.mkAction analyzer pkgs initialPkgs).
Local Abbreviation newAction := (Builder.newAction initialPkgs).
Local Abbreviation importPaths := (Builder.importPaths pkgs).
Local Abbreviation measure := (λ k : AnalyzerPtr * PackagePtr, rankA k.1 + rankP k.2).
Local Abbreviation inv := (Builder.inv analyzer pkgs).
Local Abbreviation linked := (Builder.linked analyzer pkgs).

(** *** Termination *)

Lemma forKeys_total mk act ks st :
  (∀ k st, k ∈ ks → is_Some (mk k.1 k.2 st)) → is_Some (forKeys mk act ks st).
Proof.
  revert st. induction ks as [|[a p] ks IH]; intros st Hmk; simpl; [done|].
  destruct (Hmk (a, p) st) as [[dep st'] Hcall]; [apply elem_of_cons; by left|].
  simpl in Hcall. rewrite Hcall.
  apply IH. intros k st1 Hk. apply Hmk, elem_of_cons. by right.
Qed.

(** [mkAction] returns once the fuel exceeds the rank of its analyzer plus
    the rank of its package. *)
Lemma mkAction_total fuel a pkg st :
  rankA a + rankP pkg < fuel → is_Some (mkAction fuel a pkg st).
Proof.
  revert a pkg st. induction fuel as [|fuel IH]; intros a pkg st Hfuel; [lia|].
  destruct (actions st !! (a, pkg)) as [act|] eqn:Hlookup.
  { rewrite (mkAction_hit _ _ _ _ _ _ _ _ Hlookup). done. }
  rewrite mkAction_miss by done. cbn zeta.
  rewrite forRequires_forKeys.
  destruct (forKeys_total (mkAction fuel) (next st)
              ((λ req, (req, pkg)) <$> Requires (analyzer a))
              (alloc (newAction a pkg) st).2) as [st1 ->].
  { intros k st1 (req & -> & Hreq)%list_elem_of_fmap. simpl.
    apply IH. apply Requires_rank in Hreq. lia. }
  case_bool_decide; [|done].
  destruct (importPaths_lookup pkgs pkg) as [qs Hqs].
  rewrite (forPaths_forKeys _ _ _ _ _ _ _ Hqs).
  destruct (forKeys_total (mkAction fuel) (next st) ((λ q, (a, q)) <$> qs) st1)
    as [st2 ->]; [|done].
  intros k st2 (q & -> & Hq)%list_elem_of_fmap. simpl.
  apply IH. apply list_elem_of_lookup in Hq as [i Hi].
  destruct (Forall2_lookup_r _ _ _ _ _ Hqs Hi) as (path & _ & Hpath).
  apply Imports_rank in Hpath. lia.
Qed.

(** *** Invariants *)

Lemma grows_refl bound except st : grows measure bound except st st.
Proof.
  repeat split; try done. intros k Hnone [ptr Hsome]. by rewrite Hnone in Hsome.
Qed.

Lemma grows_trans b1 b2 X1 X2 st st1 st2 :
  grows measure b1 X1 st st1 → grows measure b2 X2 st1 st2 →
  grows measure (b1 `max` b2) (X1 ∪ X2) st st2.
Proof.
  intros (Hn1 & Hm1 & Hb1 & Hf1) (Hn2 & Hm2 & Hb2 & Hf2). repeat split.
  - lia.
  - intros k ptr Hk. by apply Hm2, Hm1.
  - intros k Hnone Hsome. destruct (actions st1 !! k) as [ptr|] eqn:Hk.
    + specialize (Hb1 k Hnone (mk_is_Some _ _ Hk)). lia.
    + specialize (Hb2 k Hk Hsome). lia.
  - intros ptr Hptr Hx. rewrite Hf2, Hf1; [done|done|set_solver|lia|set_solver].
Qed.

Lemma grows_weaken (b b' : nat) X X' st st' :
  (b ≤ b')%nat → X ⊆ X' → grows measure b X st st' → grows measure b' X' st st'.
Proof.
  intros Hb HX (Hn & Hm & Hbound & Hf). repeat split; try done.
  - intros k Hnone Hsome. specialize (Hbound k Hnone Hsome). lia.
  - intros ptr Hptr Hx. apply Hf; [done|set_solver].
Qed.

(** Being linked only depends on the table, and survives its growth. *)
Lemma linked_mono st st' x :
  (∀ k ptr, actions st !! k = Some ptr → actions st' !! k = Some ptr) →
  linked st x → linked st' x.
Proof.
  intros Hmono (reqDeps & impDeps & Hdeps & Hreq & Himp).
  exists reqDeps, impDeps. split; [done|]. split.
  - eapply Forall2_impl; [exact Hreq|]. intros req dep. apply Hmono.
  - destruct (bool_decide _); [|done].
    eapply Forall2_impl; [exact Himp|].
    intros path dep (q & Hq & Hdep). exists q. split; [done|]. by apply Hmono.
Qed.

(** An assignment to a field of an allocated action other than its analyzer
    and package keeps the invariant, if the action is pending or the field
    is not its dependency list. *)
Lemma inv_alter P f act st :
  (∀ x, action_key (f x) = action_key x) →
  act ∈ P ∨ (∀ x, deps (f x) = deps x) →
  inv P st →
  inv P (mkBuilder (alter f act (heap st)) (next st) (actions st) (gobRegistered st)).
Proof.
  intros Hf Hdeps (Hkeyed & Halloc & Hreg & HP & Hlinked).
  unfold Builder.inv, keyed, allocated, registered. simpl.
  split; [|split; [|split; [|split]]].
  - intros k ptr Hk. destruct (Hkeyed k ptr Hk) as (x & Hx & Hkey).
    destruct (decide (act = ptr)) as [->|Hne].
    + exists (f x). rewrite lookup_alter_eq, Hx. split; [done|]. by rewrite Hf.
    + exists x. by rewrite lookup_alter_ne.
  - intros ptr x [[-> (y & Hy & ->)]|[_ Hx]]%lookup_alter_Some; by eapply Halloc.
  - intros ptr x [[-> (y & Hy & ->)]|[_ Hx]]%lookup_alter_Some.
    + rewrite Hf. by apply Hreg.
    + by apply Hreg.
  - done.
  - intros ptr x [[-> (y & Hy & ->)]|[_ Hx]]%lookup_alter_Some Hptr.
    + destruct Hdeps as [?|Hdeps]; [done|].
      specialize (Hlinked ptr y Hy Hptr). specialize (Hf y).
      unfold action_key in Hf. injection Hf as Ha Hp.
      unfold Builder.linked in *. simpl. by rewrite Hdeps, Ha, Hp.
    + by apply (Hlinked ptr x).
Qed.

Section Loop.

(** The loop of [forKeys], for a callee [mk] that behaves as [mkAction] is
    about to be shown to behave on keys of measure below [M]. *)
Variable mk : AnalyzerPtr → PackagePtr → builder → option (ActionPtr * builder).
Variable M : nat.
Variable P : gset ActionPtr.
Variable act : ActionPtr.

Hypothesis mk_inv : ∀ a pkg st dep st',
  measure (a, pkg) < M →
  mk a pkg st = Some (dep, st') →
  inv P st →
  (∀ ptr x, ptr ∈ P → heap st !! ptr = Some x → measure (a, pkg) < measure (action_key x)) →
  inv P st' ∧ grows measure (S (measure (a, pkg))) ∅ st st'
  ∧ actions st' !! (a, pkg) = Some dep.

Hypothesis act_pending : act ∈ P.

Lemma forKeys_inv ks st st' x0 :
  forKeys mk act ks st = Some st' →
  Forall (λ k, measure k < M) ks →
  inv P st →
  (∀ ptr x, ptr ∈ P → heap st !! ptr = Some x → (M ≤ measure (action_key x))%nat) →
  heap st !! act = Some x0 →
  ∃ newdeps,
    inv P st'
    ∧ grows measure M {[act]} st st'
    ∧ heap st' !! act = Some (set_deps (λ ds, ds ++ newdeps) x0)
    ∧ Forall2 (λ k dep, actions st' !! k = Some dep) ks newdeps.
Proof.
  revert st x0. induction ks as [|[a pkg] ks IH]; intros st x0 Hloop Hks Hinv Hpend Hact.
  { injection Hloop as <-. exists [].
    split; [done|]. split; [apply grows_refl|]. split; [|constructor].
    rewrite Hact. f_equal. destruct x0; unfold set_deps; simpl.
    by rewrite app_nil_r. }
  simpl in Hloop.
  destruct (mk a pkg st) as [[dep s1]|] eqn:Hcall; [|done].
  apply Forall_cons in Hks as [Hk Hks].
  destruct (mk_inv a pkg st dep s1 Hk Hcall Hinv) as (Hinv1 & Hgrow1 & Hdep).
  { intros ptr x Hptr Hx. specialize (Hpend ptr x Hptr Hx). simpl in *. lia. }
  destruct Hinv as (_ & Halloc & _ & HP & _).
  assert (Hact1 : heap s1 !! act = Some x0).
  { destruct Hgrow1 as (_ & _ & _ & Hframe).
    rewrite Hframe; [done|by eapply Halloc|set_solver]. }
  set (s2 := appendDep act dep s1) in *.
  assert (Hinv2 : inv P s2) by (apply inv_alter; [done|by left|done]).
  assert (Hact2 : heap s2 !! act = Some (set_deps (λ ds, ds ++ [dep]) x0)).
  { unfold s2, appendDep. simpl. by rewrite lookup_alter_eq, Hact1. }
  assert (Hgrow2 : grows measure M {[act]} st s2).
  { destruct Hgrow1 as (Hn & Hm & Hb & Hframe).
    unfold grows. simpl. split; [done|]. split; [done|]. split.
    - intros k Hnone Hsome. specialize (Hb k Hnone Hsome). simpl in *. lia.
    - intros ptr Hptr Hne. rewrite lookup_alter_ne by set_solver.
      apply Hframe; [done|set_solver]. }
  destruct (IH s2 (set_deps (λ ds, ds ++ [dep]) x0) Hloop Hks Hinv2)
    as (newdeps & Hinv' & Hgrow' & Hact' & Hdeps'); [|exact Hact2|].
  { intros ptr x Hptr Hx. destruct (decide (ptr = act)) as [->|Hne].
    - rewrite Hact2 in Hx. injection Hx as <-.
      by apply (Hpend act x0).
    - destruct Hgrow2 as (_ & _ & _ & Hframe).
      rewrite Hframe in Hx; [by eapply Hpend|by apply HP|set_solver]. }
  exists (dep :: newdeps). split; [|split; [|split]].
  - apply Hinv'.
  - eapply grows_weaken; [| |exact (grows_trans _ _ _ _ _ _ _ Hgrow2 Hgrow')];
      [lia|set_solver].
  - rewrite Hact'. f_equal. destruct x0; unfold set_deps; simpl.
    by rewrite <- app_assoc.
  - constructor; [|done].
    destruct Hgrow' as (_ & Hmono & _). by apply Hmono.
Qed.

End Loop.

(** Allocating a pending action. *)
Lemma alloc_inv P x st :
  inv P st →
  inv ({[next st]} ∪ P) (alloc x st).2
  ∧ heap (alloc x st).2 !! next st = Some x
  ∧ actions (alloc x st).2 = actions st
  ∧ next (alloc x st).2 = S (next st)
  ∧ ∀ ptr, ptr < next st → heap (alloc x st).2 !! ptr = heap st !! ptr.
Proof.
  intros (Hkeyed & Halloc & Hreg & HP & Hlinked).
  unfold Builder.inv, keyed, allocated, registered. simpl.
  split; [split; [|split; [|split; [|split]]]|split; [|split; [|split]]].
  - intros k ptr Hk. destruct (Hkeyed k ptr Hk) as (y & Hy & Hkey).
    exists y. split; [|done].
    rewrite lookup_insert_ne; [done|]. apply Halloc in Hy. lia.
  - intros ptr y [[<- _]|[_ Hy]]%lookup_insert_Some; [lia|].
    apply Halloc in Hy. lia.
  - intros ptr y [[<- _]|[_ Hy]]%lookup_insert_Some; [left; set_solver|].
    destruct (Hreg ptr y Hy) as [?|?]; [left; set_solver|by right].
  - intros ptr [->%elem_of_singleton|Hptr%HP]%elem_of_union; lia.
  - intros ptr y [[<- _]|[_ Hy]]%lookup_insert_Some Hptr; [set_solver|].
    apply (Hlinked ptr y Hy). set_solver.
  - apply lookup_insert_eq.
  - done.
  - done.
  - intros ptr Hptr. apply lookup_insert_ne. lia.
Qed.

(** Entering a filled-in, linked pending action into the table. *)
Lemma setAction_inv P k act x st :
  inv ({[act]} ∪ P) st →
  heap st !! act = Some x → action_key x = k →
  actions st !! k = None →
  linked (setAction k act st) x →
  inv P (setAction k act st).
Proof.
  intros (Hkeyed & Halloc & Hreg & HP & Hlinked) Hx Hkey Hnone Hlinkx.
  unfold Builder.inv, keyed, allocated, registered.
  split; [|split; [|split; [|split]]]; simpl.
  - intros k' ptr [[<- <-]|[_ Hk']]%lookup_insert_Some; [by exists x|].
    by apply Hkeyed.
  - done.
  - intros ptr y Hy. destruct (decide (ptr = act)) as [->|Hne].
    + right. rewrite Hx in Hy. injection Hy as Heq. subst y.
      rewrite Hkey. apply lookup_insert_eq.
    + destruct (Hreg ptr y Hy) as [Hin|Htable]; [left; set_solver|].
      right. rewrite lookup_insert_ne; [done|].
      intros Heq. by rewrite <- Heq, Hnone in Htable.
  - intros ptr Hptr. apply HP. set_solver.
  - intros ptr y Hy Hptr. destruct (decide (ptr = act)) as [->|Hne].
    + rewrite Hx in Hy. by injection Hy as <-.
    + apply (linked_mono st); [|apply (Hlinked ptr y Hy); set_solver].
      intros k' ptr' Hk'. simpl. rewrite lookup_insert_ne; [done|].
      intros <-. by rewrite Hnone in Hk'.
Qed.

(** What a call of [mkAction] that returns does to a builder that satisfies
    the invariant, when every pending action has a key of greater measure
    than the key asked for: the invariant is kept, the table only grows, by
    keys of measure at most that of the key asked for, the actions allocated
    before are untouched, and the table holds the returned action under the
    key.  If the key was not in the table, the returned action is new and its
    dependencies are the actions of the required analyzers on the package,
    followed, if the analyzer has fact types, by its actions on the imports
    of the package in the order of [importPaths]. *)
Lemma mkAction_inv fuel : ∀ a pkg st act st' P,
  mkAction fuel a pkg st = Some (act, st') →
  inv P st →
  (∀ ptr x, ptr ∈ P → heap st !! ptr = Some x →
     measure (a, pkg) < measure (action_key x)) →
  inv P st'
  ∧ grows measure (S (measure (a, pkg))) ∅ st st'
  ∧ actions st' !! (a, pkg) = Some act
  ∧ (actions st !! (a, pkg) = None →
     ∃ reqDeps impDeps,
       heap st !! act = None
       ∧ heap st' !! act =
           Some (set_deps (λ ds, ds ++ reqDeps ++ impDeps) (newAction a pkg))
       ∧ Forall2 (λ req dep, actions st' !! (req, pkg) = Some dep)
           (Requires (analyzer a)) reqDeps
       ∧ if bool_decide (0 < length (FactTypes (analyzer a))) then
           Forall2 (λ path dep,
                      ∃ q, Imports (pkgs pkg) !! path = Some q
                           ∧ actions st' !! (a, q) = Some dep)
             (importPaths pkg) impDeps
         else impDeps = []).
Proof.
  induction fuel as [|fuel IH]; intros a pkg st act st' P Hcall Hinv Hpend.
  { simpl in Hcall. destruct (actions st !! (a, pkg)) as [ptr|] eqn:Hlookup; [|done].
    injection Hcall as <- <-.
    split; [done|]. split; [apply grows_refl|]. split; [done|]. by intros ?. }
  destruct (actions st !! (a, pkg)) as [ptr|] eqn:Hlookup.
  { rewrite (mkAction_hit _ _ _ _ _ _ _ _ Hlookup) in Hcall. injection Hcall as <- <-.
    split; [done|]. split; [apply grows_refl|]. split; [done|]. by intros ?. }
  rewrite mkAction_miss in Hcall by done. cbn zeta in Hcall.
  set (M := measure (a, pkg)) in *.
  set (act0 := next st) in *.
  set (P' := {[act0]} ∪ P).
  destruct (alloc_inv P (newAction a pkg) st Hinv)
    as (Hinv0 & Hact0 & Htable0 & Hnext0 & Hframe0).
  set (st0 := (alloc (newAction a pkg) st).2) in *.
  fold act0 in Hact0, Hinv0. fold P' in Hinv0.
  assert (Hfresh : heap st !! act0 = None).
  { destruct Hinv as (_ & Halloc & _).
    destruct (heap st !! act0) as [y|] eqn:Hy; [|done].
    apply Halloc in Hy. unfold act0 in Hy. lia. }
  assert (Hmk : ∀ a' pkg' s dep s',
            measure (a', pkg') < M →
            mkAction fuel a' pkg' s = Some (dep, s') →
            inv P' s →
            (∀ ptr x, ptr ∈ P' → heap s !! ptr = Some x →
               measure (a', pkg') < measure (action_key x)) →
            inv P' s' ∧ grows measure (S (measure (a', pkg'))) ∅ s s'
            ∧ actions s' !! (a', pkg') = Some dep).
  { intros a' pkg' s dep s' _ Hc Hi Hp.
    destruct (IH a' pkg' s dep s' P' Hc Hi Hp) as (? & ? & ? & _). done. }
  assert (Hin0 : act0 ∈ P') by set_solver.
  assert (Hpend0 : ∀ ptr x, ptr ∈ P' → heap st0 !! ptr = Some x →
                     (M ≤ measure (action_key x))%nat).
  { intros ptr x Hptr Hx. destruct (decide (ptr = act0)) as [->|Hne].
    - rewrite Hact0 in Hx. injection Hx as <-. done.
    - assert (HptrP : ptr ∈ P) by set_solver.
      destruct Hinv as (_ & _ & _ & HP & _).
      rewrite Hframe0 in Hx by (by apply HP).
      specialize (Hpend ptr x HptrP Hx). unfold M. cbn beta in *. lia. }
  (* the loop over a.Requires *)
  rewrite forRequires_forKeys in Hcall.
  destruct (forKeys (mkAction fuel) act0 _ st0) as [st1|] eqn:Hloop1; [|done].
  destruct (forKeys_inv (mkAction fuel) M P' act0 Hmk Hin0 _ st0 st1
              (newAction a pkg) Hloop1)
    as (reqDeps & Hinv1 & Hgrow1 & Hact1 & Hdeps1); [|done|done|done|].
  { apply Forall_fmap, Forall_forall. intros req Hreq. simpl.
    apply Requires_rank in Hreq. unfold M. simpl. lia. }
  assert (Hpend1 : ∀ ptr x, ptr ∈ P' → heap st1 !! ptr = Some x →
                     (M ≤ measure (action_key x))%nat).
  { intros ptr x Hptr Hx. destruct (decide (ptr = act0)) as [->|Hne].
    - rewrite Hact1 in Hx. injection Hx as <-. done.
    - destruct Hgrow1 as (_ & _ & _ & Hframe1).
      destruct Hinv0 as (_ & _ & _ & HP0 & _).
      rewrite Hframe1 in Hx; [by eapply Hpend0|by apply HP0|set_solver]. }
  (* the loop over the sorted import paths *)
  assert (Himports : ∃ sF impDeps,
            st' = setAction (a, pkg) act0 sF ∧ act = act0
            ∧ inv P' sF ∧ grows measure M {[act0]} st1 sF
            ∧ heap sF !! act0 =
                Some (set_deps (λ ds, ds ++ impDeps)
                        (set_deps (λ ds, ds ++ reqDeps) (newAction a pkg)))
            ∧ if bool_decide (0 < length (FactTypes (analyzer a))) then
                Forall2 (λ path dep,
                           ∃ q, Imports (pkgs pkg) !! path = Some q
                                ∧ actions sF !! (a, q) = Some dep)
                  (importPaths pkg) impDeps
              else impDeps = []).
  { case_bool_decide as Hfacts.
    - destruct (importPaths_lookup pkgs pkg) as [qs Hqs].
      rewrite (forPaths_forKeys _ _ _ _ _ _ _ Hqs) in Hcall.
      destruct (forKeys (mkAction fuel) act0 _ st1) as [st2|] eqn:Hloop2; [|done].
      injection Hcall as <- <-.
      destruct (forKeys_inv (mkAction fuel) M P' act0 Hmk Hin0 _ st1 st2
                  (set_deps (λ ds, ds ++ reqDeps) (newAction a pkg)) Hloop2)
        as (impDeps & Hinv2 & Hgrow2 & Hact2 & Hdeps2); [|done|done|done|].
      { apply Forall_fmap, Forall_forall. intros q Hq. simpl.
        apply list_elem_of_lookup in Hq as [i Hi].
        destruct (Forall2_lookup_r _ _ _ _ _ Hqs Hi) as (path & _ & Hpath).
        apply Imports_rank in Hpath. unfold M. simpl. lia. }
      exists (gobRegister (FactTypes (analyzer a)) st2), impDeps.
      split; [done|]. split; [done|]. split; [done|]. split; [done|].
      split; [done|].
      apply Forall2_fmap_l in Hdeps2.
      eapply Forall2_trans; [|exact Hqs|exact Hdeps2].
      intros path q dep Hq Hdep. by exists q.
    - injection Hcall as <- <-. exists st1, [].
      split; [done|]. split; [done|]. split; [done|].
      split; [apply grows_refl|]. split; [|done].
      rewrite Hact1. f_equal. unfold set_deps. simpl. by rewrite app_nil_r. }
  destruct Himports as (sF & impDeps & -> & -> & HinvF & HgrowF & HactF & HdepsF).
  pose proof (grows_trans _ _ _ _ _ _ _ Hgrow1 HgrowF) as Hgrow.
  apply (grows_weaken _ M _ {[act0]}) in Hgrow; [|lia|set_solver].
  destruct Hgrow as (HnextF & HmonoF & HboundF & HframeF).
  assert (HnoneF : actions sF !! (a, pkg) = None).
  { destruct (actions sF !! (a, pkg)) as [ptr|] eqn:Hk; [|done].
    specialize (HboundF (a, pkg)). rewrite Htable0, Hk in HboundF.
    specialize (HboundF Hlookup (mk_is_Some _ _ eq_refl)). unfold M in HboundF. lia. }
  assert (Hreq : Forall2 (λ req dep,
                    actions (setAction (a, pkg) act0 sF) !! (req, pkg) = Some dep)
                   (Requires (analyzer a)) reqDeps).
  { apply Forall2_fmap_l in Hdeps1.
    eapply Forall2_impl; [exact Hdeps1|]. simpl. intros req dep Hdep.
    rewrite lookup_insert_ne; [by apply HgrowF|].
    intros Heq. rewrite <- Heq in Hdep. apply HgrowF in Hdep.
    by rewrite HnoneF in Hdep. }
  assert (Himp : if bool_decide (0 < length (FactTypes (analyzer a))) then
                   Forall2 (λ path dep,
                              ∃ q, Imports (pkgs pkg) !! path = Some q
                                   ∧ actions (setAction (a, pkg) act0 sF) !! (a, q)
                                     = Some dep)
                     (importPaths pkg) impDeps
                 else impDeps = []).
  { destruct (bool_decide _); [|done].
    eapply Forall2_impl; [exact HdepsF|]. simpl.
    intros path dep (q & Hq & Hdep). exists q. split; [done|].
    rewrite lookup_insert_ne; [done|].
    intros Heq. rewrite <- Heq in Hdep. by rewrite HnoneF in Hdep. }
  split; [|split; [|split]].
  - eapply setAction_inv; [exact HinvF|exact HactF|done|done|].
    exists reqDeps, impDeps. simpl. by rewrite app_nil_l || done.
  - unfold grows. simpl. split; [|split; [|split]].
    + rewrite Hnext0 in HnextF. lia.
    + intros k ptr Hk. rewrite lookup_insert_ne by (intros <-; by rewrite Hlookup in Hk).
      apply HmonoF. by rewrite Htable0.
    + intros k Hnone [ptr [[<- _]|[_ Hk]]%lookup_insert_Some]; [fold M; lia|].
      specialize (HboundF k). rewrite Htable0 in HboundF.
      specialize (HboundF Hnone (mk_is_Some _ _ Hk)). fold M. lia.
    + intros ptr Hptr _. rewrite HframeF; [by apply Hframe0|lia|].
      unfold act0. intros ->%elem_of_singleton. lia.
  - simpl. apply lookup_insert_eq.
  - intros _. exists reqDeps, impDeps.
    split; [done|]. split; [|by split].
    simpl. rewrite HactF. f_equal; unfold set_deps; simpl; by rewrite app_assoc.
Qed.

End BuilderInvariants.

Section BuilderTheorems.

Import Builder.

Variable analyzer : AnalyzerPtr → Analyzer.
Variable pkgs : PackagePtr → Package.
Variable initialPkgs : gset PackagePtr.
Variable rankA : AnalyzerPtr → nat.
Variable rankP : PackagePtr → nat.
Hypothesis Requires_rank :
  ∀ a req, req ∈ Requires (analyzer a) → rankA req < rankA a.
Hypothesis Imports_rank :
  ∀ p path q, Imports (pkgs p) !! path = Some q → rankP q < rankP p.

Local Abbreviation mkAction := (Builder.mkAction analyzer pkgs initialPkgs).
Local Abbreviation importPaths := (Builder.importPaths pkgs).
Local Abbreviation inv := (Builder.inv analyzer pkgs).
Local Abbreviation steps := (Builder.steps analyzer pkgs initialPkgs).
Local Abbreviation reachable := (Builder.reachable analyzer pkgs initialPkgs).
Local Abbreviation rootsForPkgs := (Builder.rootsForPkgs analyzer pkgs initialPkgs).
Local Abbreviation rootsForAnalyzers :=
  (Builder.rootsForAnalyzers analyzer pkgs initialPkgs).
Local Abbreviation buildGraph := (Builder.buildGraph analyzer pkgs initialPkgs).

Lemma empty_inv : inv ∅ empty.
Proof.
  unfold Builder.inv, keyed, allocated, registered. simpl.
  repeat split; intros *; by rewrite ?lookup_empty.
Qed.

(** Between two states of [runner.analyze] the invariant is kept and the
    table only grows. *)
Lemma steps_inv st0 st :
  steps st0 st → inv ∅ st0 →
  inv ∅ st ∧ ∀ k ptr, actions st0 !! k = Some ptr → actions st !! k = Some ptr.
Proof.
  induction 1 as [|fuel a pkg st act st' _ IH Hcall|act st _ IH]; intros Hinv0.
  - done.
  - destruct (IH Hinv0) as [Hinv Hmono].
    destruct (mkAction_inv analyzer pkgs initialPkgs rankA rankP Requires_rank
                Imports_rank fuel a pkg st act st' ∅ Hcall Hinv)
      as (Hinv' & (_ & Hmono' & _) & _); [set_solver|].
    split; [done|]. intros k ptr Hk. by apply Hmono', Hmono.
  - destruct (IH Hinv0) as [Hinv Hmono]. split; [|done].
    apply inv_alter; [done|by right|done].
Qed.

Lemma reachable_inv st : reachable st → inv ∅ st.
Proof. intros Hsteps. by apply (steps_inv _ _ Hsteps), empty_inv. Qed.

(** The loops of [runner.analyze] over the analyzers and the initial
    packages return once the fuel covers every pair, and step the builder. *)
Lemma rootsForPkgs_steps fuel a ps roots st :
  (∀ p, p ∈ ps → rankA a + rankP p < fuel) →
  ∃ roots' st', rootsForPkgs fuel a ps roots st = Some (roots', st') ∧ steps st st'.
Proof.
  revert roots st. induction ps as [|p ps IH]; intros roots st Hfuel; simpl.
  - exists roots, st. split; [done|constructor].
  - destruct (mkAction_total analyzer pkgs initialPkgs rankA rankP Requires_rank
                Imports_rank fuel a p st) as [[root st1] Hcall].
    { apply Hfuel, elem_of_cons. by left. }
    rewrite Hcall.
    destruct (IH (roots ++ [root]) (markRoot root st1)) as (roots' & st' & -> & Hsteps).
    { intros q Hq. apply Hfuel, elem_of_cons. by right. }
    exists roots', st'. split; [done|].
    clear -Hcall Hsteps. induction Hsteps.
    + eapply steps_markRoot, steps_mkAction; [constructor|exact Hcall].
    + by eapply steps_mkAction.
    + by eapply steps_markRoot.
Qed.

Lemma steps_trans st0 st1 st2 : steps st0 st1 → steps st1 st2 → steps st0 st2.
Proof.
  intros H01 H12. induction H12.
  - done.
  - by eapply steps_mkAction.
  - by eapply steps_markRoot.
Qed.

Lemma rootsForAnalyzers_steps fuel analyzers ps roots st :
  (∀ a p, a ∈ analyzers → p ∈ ps → rankA a + rankP p < fuel) →
  ∃ roots' st',
    rootsForAnalyzers fuel analyzers ps roots st = Some (roots', st') ∧ steps st st'.
Proof.
  revert roots st. induction analyzers as [|a analyzers IH]; intros roots st Hfuel; simpl.
  - exists roots, st. split; [done|constructor].
  - destruct (rootsForPkgs_steps fuel a ps roots st) as (roots1 & st1 & -> & Hsteps1).
    { intros p Hp. apply Hfuel; [apply elem_of_cons; by left|done]. }
    destruct (IH roots1 st1) as (roots' & st' & -> & Hsteps).
    { intros a' p Ha' Hp. apply Hfuel; [apply elem_of_cons; by right|done]. }
    exists roots', st'. split; [done|]. by eapply steps_trans.
Qed.

(** The graph construction returns a reachable builder. *)
Lemma buildGraph_reachable fuel analyzers ps :
  (∀ a p, a ∈ analyzers → p ∈ ps → rankA a + rankP p < fuel) →
  ∃ roots st, buildGraph fuel analyzers ps = Some (roots, st) ∧ reachable st.
Proof. apply rootsForAnalyzers_steps. Qed.

(** C1. The graph construction returns, and in the graph it returns every
    action whose analyzer has fact types depends, after the actions of the
    required analyzers, on the action of the same analyzer on each direct
    import of its package: its dependency list ends with one such action
    per import path, in ascending order of the paths, each path once, and
    each of these actions is the table's and the heap's action for the
    analyzer and the imported package. *)
Theorem buildGraph_import_dependencies fuel analyzers ps :
  (∀ a p, a ∈ analyzers → p ∈ ps → rankA a + rankP p < fuel) →
  ∃ roots st,
    buildGraph fuel analyzers ps = Some (roots, st)
    ∧ ∀ act x,
        heap st !! act = Some x →
        FactTypes (analyzer (act_a x)) ≠ [] →
        ∃ reqDeps impDeps,
          deps x = reqDeps ++ impDeps
          ∧ length reqDeps = length (Requires (analyzer (act_a x)))
          ∧ Forall2 (λ path dep,
                       ∃ q y, Imports (pkgs (act_pkg x)) !! path = Some q
                              ∧ actions st !! (act_a x, q) = Some dep
                              ∧ heap st !! dep = Some y
                              ∧ act_a y = act_a x ∧ act_pkg y = q)
              (importPaths (act_pkg x)) impDeps
          ∧ Sorted string_le (importPaths (act_pkg x))
          ∧ NoDup (importPaths (act_pkg x))
          ∧ (∀ path q,
               Imports (pkgs (act_pkg x)) !! path = Some q →
               ∃ dep, dep ∈ deps x ∧ actions st !! (act_a x, q) = Some dep).
Proof.
  intros Hfuel.
  destruct (buildGraph_reachable fuel analyzers ps Hfuel) as (roots & st & Hbuild & Hreach).
  exists roots, st. split; [done|].
  destruct (reachable_inv st Hreach) as (Hkeyed & _ & _ & _ & Hlinked).
  intros act x Hx Hfacts.
  destruct (Hlinked act x Hx) as (reqDeps & impDeps & Hdeps & Hreq & Himp);
    [set_solver|].
  rewrite bool_decide_eq_true_2 in Himp
    by (destruct (FactTypes (analyzer (act_a x))); [done|simpl; lia]).
  assert (Himp' : Forall2 (λ path dep,
                     ∃ q y, Imports (pkgs (act_pkg x)) !! path = Some q
                            ∧ actions st !! (act_a x, q) = Some dep
                            ∧ heap st !! dep = Some y
                            ∧ act_a y = act_a x ∧ act_pkg y = q)
                    (importPaths (act_pkg x)) impDeps).
  { eapply Forall2_impl; [exact Himp|]. intros path dep (q & Hq & Hdep).
    destruct (Hkeyed _ _ Hdep) as (y & Hy & Hkey). injection Hkey as Ha Hp.
    by exists q, y. }
  exists reqDeps, impDeps.
  split; [done|]. split; [symmetry; by eapply Forall2_length|].
  split; [done|]. split; [apply importPaths_sorted|].
  split; [apply importPaths_NoDup|].
  intros path q Hq.
  assert (Hpath : path ∈ importPaths (act_pkg x)).
  { apply elem_of_importPaths. by eexists. }
  apply list_elem_of_lookup in Hpath as [i Hi].
  destruct (Forall2_lookup_l _ _ _ _ _ Himp Hi) as (dep & Hdep & q' & Hq' & Htable).
  rewrite Hq in Hq'. injection Hq' as <-.
  exists dep. split; [|done].
  rewrite Hdeps. apply elem_of_app. right. by eapply list_elem_of_lookup_2.
Qed.

(** C2. Two calls of [mkAction] with the same analyzer and package, however
    many steps of the construction lie between them, return the same action,
    and the later call changes nothing.  The graph construction returns, and
    in the graph it returns no two allocated actions have the same analyzer
    and package, the actions of the table are exactly the allocated ones,
    each under the key made of its analyzer and package, and none of them is
    listed twice. *)
Theorem buildGraph_one_action_per_key fuel analyzers ps :
  (∀ a p, a ∈ analyzers → p ∈ ps → rankA a + rankP p < fuel) →
  (∀ st1 f1 a pkg act1 st2 st3 f2 act2 st4,
     reachable st1 →
     mkAction f1 a pkg st1 = Some (act1, st2) →
     steps st2 st3 →
     mkAction f2 a pkg st3 = Some (act2, st4) →
     act2 = act1 ∧ st4 = st3)
  ∧ ∃ roots st,
      buildGraph fuel analyzers ps = Some (roots, st)
      ∧ (∀ p1 p2 x1 x2,
           heap st !! p1 = Some x1 → heap st !! p2 = Some x2 →
           act_a x1 = act_a x2 → act_pkg x1 = act_pkg x2 → p1 = p2)
      ∧ (∀ k ptr,
           actions st !! k = Some ptr ↔
           ∃ x, heap st !! ptr = Some x ∧ action_key x = k)
      ∧ (∀ ptr, ptr ∈ allActions st ↔ is_Some (heap st !! ptr))
      ∧ NoDup (allActions st).
Proof.
  intros Hfuel. split.
  { intros st1 f1 a pkg act1 st2 st3 f2 act2 st4 Hreach Hcall1 Hsteps Hcall2.
    pose proof (reachable_inv st1 Hreach) as Hinv1.
    destruct (mkAction_inv analyzer pkgs initialPkgs rankA rankP Requires_rank
                Imports_rank f1 a pkg st1 act1 st2 ∅ Hcall1 Hinv1)
      as (Hinv2 & _ & Htable & _); [set_solver|].
    destruct (steps_inv st2 st3 Hsteps Hinv2) as [_ Hmono].
    apply Hmono in Htable.
    rewrite (mkAction_hit _ _ _ _ _ _ _ _ Htable) in Hcall2.
    by injection Hcall2 as <- <-. }
  destruct (buildGraph_reachable fuel analyzers ps Hfuel) as (roots & st & Hbuild & Hreach).
  exists roots, st. split; [done|].
  destruct (reachable_inv st Hreach) as (Hkeyed & _ & Hreg & _ & _).
  assert (Htable : ∀ ptr x, heap st !! ptr = Some x →
                     actions st !! action_key x = Some ptr).
  { intros ptr x Hx. destruct (Hreg ptr x Hx) as [?|?]; [set_solver|done]. }
  split; [|split; [|split]].
  - intros p1 p2 x1 x2 Hx1 Hx2 Ha Hp.
    apply Htable in Hx1, Hx2. unfold action_key in *.
    rewrite Ha, Hp, Hx2 in Hx1. by injection Hx1.
  - intros k ptr. split; [apply Hkeyed|].
    intros (x & Hx & <-). by apply Htable.
  - intros ptr. unfold allActions. rewrite list_elem_of_fmap. split.
    + intros ([k ptr'] & -> & Hin). apply elem_of_map_to_list in Hin.
      destruct (Hkeyed k ptr' Hin) as (x & Hx & _). by eexists.
    + intros [x Hx]. exists (action_key x, ptr). split; [done|].
      by apply elem_of_map_to_list, Htable.
  - unfold allActions. apply NoDup_fmap_2_strong; [|apply NoDup_map_to_list].
    intros [k1 ptr1] [k2 ptr2] Hin1 Hin2 Heq. simpl in Heq. subst ptr2.
    apply elem_of_map_to_list in Hin1, Hin2.
    destruct (Hkeyed k1 ptr1 Hin1) as (x1 & Hx1 & Hk1).
    destruct (Hkeyed k2 ptr1 Hin2) as (x2 & Hx2 & Hk2).
    rewrite Hx1 in Hx2. injection Hx2 as <-. by rewrite <- Hk1, <- Hk2.
Qed.

(** Requires closure, one step: in the graph the construction returns,
    every action depends first, in the order of [a.Requires], on the action
    of each analyzer its analyzer requires, on the same package. *)
Theorem buildGraph_required_dependencies fuel analyzers ps :
  (∀ a p, a ∈ analyzers → p ∈ ps → rankA a + rankP p < fuel) →
  ∃ roots st,
    buildGraph fuel analyzers ps = Some (roots, st)
    ∧ ∀ act x,
        heap st !! act = Some x →
        ∃ reqDeps impDeps,
          deps x = reqDeps ++ impDeps
          ∧ Forall2 (λ req dep,
                       ∃ y, actions st !! (req, act_pkg x) = Some dep
                            ∧ heap st !! dep = Some y
                            ∧ act_a y = req ∧ act_pkg y = act_pkg x)
              (Requires (analyzer (act_a x))) reqDeps.
Proof.
  intros Hfuel.
  destruct (buildGraph_reachable fuel analyzers ps Hfuel) as (roots & st & Hbuild & Hreach).
  exists roots, st. split; [done|].
  destruct (reachable_inv st Hreach) as (Hkeyed & _ & _ & _ & Hlinked).
  intros act x Hx.
  destruct (Hlinked act x Hx) as (reqDeps & impDeps & Hdeps & Hreq & _);
    [set_solver|].
  exists reqDeps, impDeps. split; [done|].
  eapply Forall2_impl; [exact Hreq|]. intros req dep Hdep.
  destruct (Hkeyed _ _ Hdep) as (y & Hy & Hkey). injection Hkey as Ha Hp.
  by exists y.
Qed.

End BuilderTheorems.

(** The sample program is acyclic. *)
Lemma sample_Requires_rank a req :
  req ∈ Requires (Sample.analyzer a) → Sample.rankA req < Sample.rankA a.
Proof.
  unfold Sample.analyzer.
  destruct (decide (a = 1%positive)) as [->|H1]; [by intros ?%elem_of_nil|].
  destruct (decide (a = 2%positive)) as [->|H2]; [|by intros ?%elem_of_nil].
  intros ->%list_elem_of_singleton. vm_compute. lia.
Qed.

Lemma sample_Imports_rank p path q :
  Imports (Sample.pkgs p) !! path = Some q → Sample.rankP q < Sample.rankP p.
Proof.
  unfold Sample.pkgs.
  destruct (decide (p = 1%positive)) as [->|H1].
  { simpl. intros [[_ <-]|[_ [[_ <-]|[_ Hq]]%lookup_insert_Some]]%lookup_insert_Some;
      [vm_compute; lia..|done]. }
  destruct (decide (p = 2%positive)) as [->|H2].
  { simpl. intros [[_ <-]|[_ Hq]]%lookup_insert_Some; [vm_compute; lia|done]. }
  destruct (decide (p = 3%positive)) as [->|H3]; [done|].
  destruct (decide (p = 4%positive)) as [->|H4]; [done|].
  destruct (decide (p = 6%positive)) as [->|H6]; done.
Qed.

Lemma sample_fuel a p :
  a ∈ [1%positive; 2%positive] → p ∈ [1%positive] →
  Sample.rankA a + Sample.rankP p < 4.
Proof.
  intros Ha Hp. apply list_elem_of_singleton in Hp as ->.
  apply elem_of_cons in Ha as [->|Ha]; [vm_compute; lia|].
  apply list_elem_of_singleton in Ha as ->. vm_compute. lia.
Qed.

(** The sample graph: analyzer 1 on [root] (action 0) depends on its
    actions on [leaf] (1) and [mid] (2), in the order of the import paths;
    analyzer 2 on [root] (3) depends on action 0. *)
Example sample_graph_deps :
  (λ r, (r.1, (λ ptr, (λ x, (action_key x, isroot x, deps x))
                        <$> Builder.heap r.2 !! ptr) <$> [0; 1; 2; 3; 4]))
    <$> Sample.graph =
  Some ([0; 3],
        [Some ((1%positive, 1%positive), true, [1; 2]);
         Some ((1%positive, 3%positive), false, []);
         Some ((1%positive, 2%positive), false, [1]);
         Some ((2%positive, 1%positive), true, [0]);
         None]).
Proof. vm_compute. reflexivity. Qed.

Lemma buildGraph_import_dependencies_witness :
  ∃ roots st,
    Sample.graph = Some (roots, st)
    ∧ ∀ act x,
        Builder.heap st !! act = Some x →
        FactTypes (Sample.analyzer (act_a x)) ≠ [] →
        ∃ reqDeps impDeps,
          deps x = reqDeps ++ impDeps
          ∧ length reqDeps = length (Requires (Sample.analyzer (act_a x)))
          ∧ Forall2 (λ path dep,
                       ∃ q y, Imports (Sample.pkgs (act_pkg x)) !! path = Some q
                              ∧ Builder.actions st !! (act_a x, q) = Some dep
                              ∧ Builder.heap st !! dep = Some y
                              ∧ act_a y = act_a x ∧ act_pkg y = q)
              (Builder.importPaths Sample.pkgs (act_pkg x)) impDeps
          ∧ Sorted string_le (Builder.importPaths Sample.pkgs (act_pkg x))
          ∧ NoDup (Builder.importPaths Sample.pkgs (act_pkg x))
          ∧ (∀ path q,
               Imports (Sample.pkgs (act_pkg x)) !! path = Some q →
               ∃ dep, dep ∈ deps x
                      ∧ Builder.actions st !! (act_a x, q) = Some dep).
Proof.
  exact (buildGraph_import_dependencies Sample.analyzer Sample.pkgs {[1%positive]}
           Sample.rankA Sample.rankP sample_Requires_rank sample_Imports_rank
           4 [1%positive; 2%positive] [1%positive] sample_fuel).
Defined.

Lemma buildGraph_one_action_per_key_witness :
  (∀ st1 f1 a pkg act1 st2 st3 f2 act2 st4,
     Builder.reachable Sample.analyzer Sample.pkgs {[1%positive]} st1 →
     Builder.mkAction Sample.analyzer Sample.pkgs {[1%positive]} f1 a pkg st1
       = Some (act1, st2) →
     Builder.steps Sample.analyzer Sample.pkgs {[1%positive]} st2 st3 →
     Builder.mkAction Sample.analyzer Sample.pkgs {[1%positive]} f2 a pkg st3
       = Some (act2, st4) →
     act2 = act1 ∧ st4 = st3)
  ∧ ∃ roots st,
      Sample.graph = Some (roots, st)
      ∧ (∀ p1 p2 x1 x2,
           Builder.heap st !! p1 = Some x1 → Builder.heap st !! p2 = Some x2 →
           act_a x1 = act_a x2 → act_pkg x1 = act_pkg x2 → p1 = p2)
      ∧ (∀ k ptr,
           Builder.actions st !! k = Some ptr ↔
           ∃ x, Builder.heap st !! ptr = Some x ∧ action_key x = k)
      ∧ (∀ ptr, ptr ∈ Builder.allActions st ↔ is_Some (Builder.heap st !! ptr))
      ∧ NoDup (Builder.allActions st).
Proof.
  exact (buildGraph_one_action_per_key Sample.analyzer Sample.pkgs {[1%positive]}
           Sample.rankA Sample.rankP sample_Requires_rank sample_Imports_rank
           4 [1%positive; 2%positive] [1%positive] sample_fuel).
Defined.

Lemma buildGraph_required_dependencies_witness :
  ∃ roots st,
    Sample.graph = Some (roots, st)
    ∧ ∀ act x,
        Builder.heap st !! act = Some x →
        ∃ reqDeps impDeps,
          deps x = reqDeps ++ impDeps
          ∧ Forall2 (λ req dep,
                       ∃ y, Builder.actions st !! (req, act_pkg x) = Some dep
                            ∧ Builder.heap st !! dep = Some y
                            ∧ act_a y = req ∧ act_pkg y = act_pkg x)
              (Requires (Sample.analyzer (act_a x))) reqDeps.
Proof.
  exact (buildGraph_required_dependencies Sample.analyzer Sample.pkgs {[1%positive]}
           Sample.rankA Sample.rankP sample_Requires_rank sample_Imports_rank
           4 [1%positive; 2%positive] [1%positive] sample_fuel).
Defined.

(** ** [NeedFacts]: the search over [Requires] *)

Section NeedFacts.

Import Requirements.

Variable analyzer : AnalyzerPtr → Analyzer.

Local Abbreviation needFactsLoop := (Requirements.needFactsLoop analyzer).
Local Abbreviation NeedFacts := (Requirements.NeedFacts analyzer).
Local Abbreviation required := (Requirements.required analyzer).
Local Abbreviation requirements := (Requirements.requirements analyzer).

Lemma requirements_remove (U : gset AnalyzerPtr) a :
  a ∈ U →
  requirements U = length (Requires (analyzer a)) + requirements (U ∖ {[a]}).
Proof.
  intros Ha. unfold Requirements.requirements.
  assert (elements U ≡ₚ a :: elements (U ∖ {[a]})) as ->.
  { rewrite <- elements_union_singleton by set_solver.
    f_equiv. apply leibniz_equiv_iff. apply union_difference_L. set_solver. }
  done.
Qed.

(** The search ends: every iteration takes an analyzer off the queue, and
    puts the requirements of an analyzer on it at most once. *)
Lemma needFactsLoop_total (U : gset AnalyzerPtr) fuel seen q :
  (∀ a r, a ∈ U → r ∈ Requires (analyzer a) → r ∈ U) →
  (∀ a, a ∈ q → a ∈ U) →
  length q + requirements (U ∖ seen) < fuel →
  is_Some (needFactsLoop fuel seen q).
Proof.
  intros HU. revert seen q. induction fuel as [|fuel IH]; intros seen q Hq Hfuel.
  { lia. }
  destruct q as [|a q]; [by eexists|]. cbn [Requirements.needFactsLoop].
  destruct (decide (a ∈ seen)) as [Hin|Hin].
  { apply IH; [intros; apply Hq; by right|]. cbn [length] in Hfuel. lia. }
  case_bool_decide; [by eexists|].
  apply IH.
  - intros b [Hb|Hb]%elem_of_app; [apply Hq; by right|].
    eapply HU; [|done]. apply Hq. by left.
  - rewrite length_app.
    rewrite (requirements_remove (U ∖ seen) a) in Hfuel.
    2:{ apply elem_of_difference. split; [apply Hq; by left|done]. }
    replace (U ∖ ({[a]} ∪ seen)) with (U ∖ seen ∖ {[a]}) by set_solver.
    cbn [length] in Hfuel. lia.
Qed.

(** An answer [true] comes with an analyzer of the queue that has fact
    types. *)
Lemma needFactsLoop_true fuel seen q :
  needFactsLoop fuel seen q = Some true →
  ∃ a, (a ∈ q ∨ ∃ s, s ∈ q ∧ rtc (λ a r, r ∈ Requires (analyzer a)) s a)
       ∧ FactTypes (analyzer a) ≠ [].
Proof.
  revert seen q. induction fuel as [|fuel IH]; intros seen q.
  { by destruct q. }
  destruct q as [|a q]; [done|]. cbn [Requirements.needFactsLoop].
  destruct (decide (a ∈ seen)) as [Hin|Hin].
  { intros (b & [Hb|(s & Hs & Hrtc)] & Hf)%IH; exists b; (split; [|done]).
    - left. by right.
    - right. exists s. split; [by right|done]. }
  case_bool_decide as Hlen.
  { intros _. exists a. split; [left; by left|].
    intros Heq. rewrite Heq in Hlen. cbn in Hlen. lia. }
  intros (b & Hb & Hf)%IH. exists b. split; [|done]. right.
  destruct Hb as [[Hb|Hb]%elem_of_app|(s & [Hs|Hs]%elem_of_app & Hrtc)].
  - exists b. split; [by right|apply rtc_refl].
  - exists a. split; [by left|]. by apply rtc_once.
  - exists s. split; [by right|done].
  - exists a. split; [by left|]. by eapply rtc_l.
Qed.

(** An answer [false] comes with a set that holds what was seen and what
    was on the queue, is closed under [Requires] and holds no analyzer with
    fact types. *)
Lemma needFactsLoop_false fuel seen q :
  needFactsLoop fuel seen q = Some false →
  (∀ a, a ∈ seen →
     FactTypes (analyzer a) = []
     ∧ ∀ r, r ∈ Requires (analyzer a) → r ∈ seen ∨ r ∈ q) →
  ∃ S : gset AnalyzerPtr,
    seen ⊆ S ∧ (∀ a, a ∈ q → a ∈ S)
    ∧ ∀ a, a ∈ S →
        FactTypes (analyzer a) = [] ∧ ∀ r, r ∈ Requires (analyzer a) → r ∈ S.
Proof.
  revert seen q. induction fuel as [|fuel IH]; intros seen q.
  { destruct q; [|done]. intros _ HJ. exists seen. split; [done|]. split.
    - intros a Ha. by apply elem_of_nil in Ha.
    - intros a Ha. destruct (HJ a Ha) as [Hf Hr]. split; [done|].
      intros r Hin. destruct (Hr r Hin) as [?|Hn]; [done|]. by apply elem_of_nil in Hn. }
  destruct q as [|a q].
  { intros _ HJ. exists seen. split; [done|]. split.
    - intros a Ha. by apply elem_of_nil in Ha.
    - intros a Ha. destruct (HJ a Ha) as [Hf Hr]. split; [done|].
      intros r Hin. destruct (Hr r Hin) as [?|Hn]; [done|]. by apply elem_of_nil in Hn. }
  cbn [Requirements.needFactsLoop].
  destruct (decide (a ∈ seen)) as [Hin|Hin].
  { intros Hloop HJ. destruct (IH _ _ Hloop) as (S & Hsub & Hq & HS).
    - intros b Hb. destruct (HJ b Hb) as [Hf Hr]. split; [done|].
      intros r Hr'. destruct (Hr r Hr') as [?|[->|?]%elem_of_cons]; auto.
    - exists S. split; [done|]. split; [|done].
      intros b [->|Hb]%elem_of_cons; [by apply Hsub|by apply Hq]. }
  case_bool_decide as Hlen; [done|].
  intros Hloop HJ. destruct (IH _ _ Hloop) as (S & Hsub & Hq & HS).
  - intros b [->%elem_of_singleton|Hb]%elem_of_union.
    + split.
      * destruct (FactTypes (analyzer a)); [done|]. cbn in Hlen. lia.
      * intros r Hr. right. apply elem_of_app. by right.
    + destruct (HJ b Hb) as [Hf Hr]. split; [done|].
      intros r Hr'. destruct (Hr r Hr') as [?|[->|?]%elem_of_cons].
      * left. apply elem_of_union. by right.
      * left. apply elem_of_union. left. by apply elem_of_singleton.
      * right. apply elem_of_app. by left.
  - exists S. split; [set_solver|]. split; [|done].
    intros b [->|Hb]%elem_of_cons.
    + apply Hsub. apply elem_of_union. left. by apply elem_of_singleton.
    + apply Hq. apply elem_of_app. by left.
Qed.

(** X3. Among analyzers closed under [Requires], cyclic or not, [NeedFacts]
    returns, and it returns [true] exactly when an analyzer of the list, or
    one that such an analyzer requires directly or not, has a fact type. *)
Theorem NeedFacts_iff_required_fact_types (U : gset AnalyzerPtr) fuel analyzers :
  (∀ a r, a ∈ U → r ∈ Requires (analyzer a) → r ∈ U) →
  (∀ a, a ∈ analyzers → a ∈ U) →
  length analyzers + requirements U < fuel →
  ∃ b, NeedFacts fuel analyzers = Some b
       ∧ (b = true ↔ ∃ a, required analyzers a ∧ FactTypes (analyzer a) ≠ []).
Proof.
  intros HU Hl Hfuel.
  destruct (needFactsLoop_total U fuel ∅ analyzers HU Hl) as [b Hb].
  { by replace (U ∖ ∅) with U by set_solver. }
  exists b. split; [done|]. destruct b.
  - split; [intros _|done].
    destruct (needFactsLoop_true _ _ _ Hb) as (a & Ha & Hf).
    exists a. split; [|done]. destruct Ha as [Ha|(s & Hs & Hrtc)].
    + exists a. split; [done|apply rtc_refl].
    + by exists s.
  - split; [done|]. intros (a & (a0 & Ha0 & Hrtc) & Hf). exfalso.
    destruct (needFactsLoop_false _ _ _ Hb) as (S & _ & Hq & HS).
    { intros ? Hin. by apply elem_of_empty in Hin. }
    assert (a ∈ S) as Ha.
    { specialize (Hq a0 Ha0). clear Ha0 Hf. induction Hrtc as [|x y z Hxy _ IHr]; [done|].
      apply IHr. by apply (HS x Hq). }
    by destruct (HS a Ha).
Qed.

End NeedFacts.

(** Analyzer 2 declares no fact type and requires analyzer 1, which does. *)
Lemma NeedFacts_iff_required_fact_types_witness :
  ∃ b, Requirements.NeedFacts Sample.analyzer 3 [2%positive] = Some b
       ∧ (b = true ↔
          ∃ a, Requirements.required Sample.analyzer [2%positive] a
               ∧ FactTypes (Sample.analyzer a) ≠ []).
Proof.
  apply (NeedFacts_iff_required_fact_types Sample.analyzer {[1%positive; 2%positive]}).
  - intros a r [->%elem_of_singleton| ->%elem_of_singleton]%elem_of_union Hr;
      vm_compute in Hr.
    + by apply elem_of_nil in Hr.
    + apply list_elem_of_singleton in Hr as ->. set_solver.
  - intros a ->%list_elem_of_singleton. set_solver.
  - vm_compute. lia.
Defined.

(** ** The graph builder: what the actions of the graph look like *)

Section BuilderShape.

Import Builder.

Variable analyzer : AnalyzerPtr → Analyzer.
Variable pkgs : PackagePtr → Package.
Variable initialPkgs : gset PackagePtr.

Local Abbreviation mkAction := (Builder.mkAction analyzer pkgs initialPkgs).
Local Abbreviation newAction := (Builder.newAction initialPkgs).
Local Abbreviation importPaths := (Builder.importPaths pkgs).
Local Abbreviation steps := (Builder.steps analyzer pkgs initialPkgs).

(** A property of actions that the struct literal of [mkAction] has and
    that appending a dependency keeps holds of every action allocated from
    address [n0] on. *)
Variable Q : action → Prop.
Hypothesis Q_new : ∀ a p, Q (newAction a p).
Hypothesis Q_deps : ∀ f x, Q x → Q (set_deps f x).

Local Abbreviation above := (λ (n0 : nat) (st : builder),
  (n0 ≤ next st)%nat ∧ ∀ ptr x, heap st !! ptr = Some x → (n0 ≤ ptr)%nat → Q x).

Lemma appendDep_above n0 act dep st : above n0 st → above n0 (appendDep act dep st).
Proof.
  intros [Hn HQ]. split; [done|]. intros ptr x Hx Hptr. cbn in Hx.
  destruct (decide (ptr = act)) as [->|Hne].
  - rewrite lookup_alter_eq in Hx. destruct (heap st !! act) as [y|] eqn:Hy; [|done].
    injection Hx as <-. apply Q_deps. by eapply HQ.
  - rewrite lookup_alter_ne in Hx by done. by eapply HQ.
Qed.

Lemma forKeys_above mk n0 act ks st st' :
  (∀ a p st dep st', mk a p st = Some (dep, st') → above n0 st → above n0 st') →
  forKeys mk act ks st = Some st' → above n0 st → above n0 st'.
Proof.
  intros Hmk. revert st. induction ks as [|[a p] ks IH]; intros st Hloop Hst.
  { by injection Hloop as <-. }
  cbn [forKeys] in Hloop. destruct (mk a p st) as [[dep st1]|] eqn:Hcall; [|done].
  apply (IH _ Hloop). apply appendDep_above. by eapply Hmk.
Qed.

Lemma mkAction_above fuel : ∀ n0 a pkg st act st',
  mkAction fuel a pkg st = Some (act, st') → above n0 st → above n0 st'.
Proof.
  induction fuel as [|fuel IH]; intros n0 a pkg st act st' Hcall Hst.
  { cbn in Hcall. destruct (actions st !! (a, pkg)); [|done]. by injection Hcall as _ <-. }
  destruct (actions st !! (a, pkg)) as [act0|] eqn:Htable.
  { rewrite (mkAction_hit _ _ _ _ _ _ _ _ Htable) in Hcall. by injection Hcall as _ <-. }
  rewrite (mkAction_miss _ _ _ _ _ _ _ Htable) in Hcall. cbn zeta in Hcall.
  rewrite forRequires_forKeys in Hcall.
  destruct (forKeys _ _ _ _) as [st1|] eqn:Hreq in Hcall; [|done].
  assert (above n0 (alloc (newAction a pkg) st).2) as Hst0.
  { destruct Hst as [Hn HQ]. split; [cbn; lia|]. intros ptr x Hx Hptr. cbn in Hx.
    destruct (decide (ptr = next st)) as [->|Hne].
    - rewrite lookup_insert_eq in Hx. injection Hx as <-. apply Q_new.
    - rewrite lookup_insert_ne in Hx by done. by eapply HQ. }
  pose proof (forKeys_above _ n0 _ _ _ _ (IH n0) Hreq Hst0) as Hst1.
  case_bool_decide.
  - destruct (importPaths_lookup pkgs pkg) as [qs Hqs].
    rewrite (forPaths_forKeys _ _ _ _ _ qs) in Hcall by done.
    destruct (forKeys _ _ _ st1) as [st2|] eqn:Himp in Hcall; [|done].
    injection Hcall as _ <-.
    by apply (forKeys_above _ n0 _ _ _ _ (IH n0) Himp).
  - by injection Hcall as _ <-.
Qed.

Hypothesis Q_isroot : ∀ b x, Q x → Q (set_isroot b x).

Lemma steps_above n0 st0 st : steps st0 st → above n0 st0 → above n0 st.
Proof.
  induction 1 as [|fuel a pkg st act st' _ IH Hcall|act st _ IH]; intros Hst0.
  - done.
  - by eapply mkAction_above, IH.
  - destruct (IH Hst0) as [Hn HQ]. split; [done|]. intros ptr x Hx Hptr. cbn in Hx.
    destruct (decide (ptr = act)) as [->|Hne].
    + rewrite lookup_alter_eq in Hx. destruct (heap st !! act) as [y|] eqn:Hy; [|done].
      injection Hx as <-. apply Q_isroot. by eapply HQ.
    + rewrite lookup_alter_ne in Hx by done. by eapply HQ.
Qed.

End BuilderShape.

Section BuilderGraph.

Import Builder.

Variable analyzer : AnalyzerPtr → Analyzer.
Variable pkgs : PackagePtr → Package.
Variable initialPkgs : gset PackagePtr.
Variable rankA : AnalyzerPtr → nat.
Variable rankP : PackagePtr → nat.
Hypothesis Requires_rank :
  ∀ a req, req ∈ Requires (analyzer a) → rankA req < rankA a.
Hypothesis Imports_rank :
  ∀ p path q, Imports (pkgs p) !! path = Some q → rankP q < rankP p.

Local Abbreviation mkAction := (Builder.mkAction analyzer pkgs initialPkgs).
Local Abbreviation importPaths := (Builder.importPaths pkgs).
Local Abbreviation inv := (Builder.inv analyzer pkgs).
Local Abbreviation steps := (Builder.steps analyzer pkgs initialPkgs).
Local Abbreviation reachable := (Builder.reachable analyzer pkgs initialPkgs).
Local Abbreviation rootsForPkgs := (Builder.rootsForPkgs analyzer pkgs initialPkgs).
Local Abbreviation rootsForAnalyzers :=
  (Builder.rootsForAnalyzers analyzer pkgs initialPkgs).
Local Abbreviation buildGraph := (Builder.buildGraph analyzer pkgs initialPkgs).

(** X4. The graph construction returns, and every action of the graph it
    returns is as the struct literal of [mkAction] made it, its dependencies
    and its root mark apart: it is flagged initial, and in need of source
    analysis, exactly when its package is one of the initial packages; it has
    no pass, no facts, no result, no diagnostics and no error, and its cached
    facts have not been tried. *)
Theorem buildGraph_actions_as_allocated fuel analyzers ps :
  (∀ a p, a ∈ analyzers → p ∈ ps → rankA a + rankP p < fuel) →
  ∃ roots st,
    buildGraph fuel analyzers ps = Some (roots, st)
    ∧ ∀ act x,
        heap st !! act = Some x →
        isInitialPkg x = bool_decide (act_pkg x ∈ initialPkgs)
        ∧ needAnalyzeSource x = bool_decide (act_pkg x ∈ initialPkgs)
        ∧ act_pass x = None
        ∧ objectFacts x = ∅ ∧ packageFacts x = ∅
        ∧ result x = None ∧ diagnostics x = [] ∧ act_err x = None
        ∧ loadCachedFactsDone x = false.
Proof.
  intros Hfuel.
  destruct (buildGraph_reachable analyzer pkgs initialPkgs rankA rankP Requires_rank
              Imports_rank fuel analyzers ps Hfuel) as (roots & st & Hbuild & Hreach).
  exists roots, st. split; [done|]. intros act x Hx.
  refine (proj2 (steps_above analyzer pkgs initialPkgs
            (λ x, isInitialPkg x = bool_decide (act_pkg x ∈ initialPkgs)
                  ∧ needAnalyzeSource x = bool_decide (act_pkg x ∈ initialPkgs)
                  ∧ act_pass x = None
                  ∧ objectFacts x = ∅ ∧ packageFacts x = ∅
                  ∧ result x = None ∧ diagnostics x = [] ∧ act_err x = None
                  ∧ loadCachedFactsDone x = false)
            _ _ _ 0 empty st Hreach _) act x Hx _); try done; try lia.
Qed.

(** The loops that make the roots: the roots are the table's actions for
    the pairs the loops went through, and the root mark is on them and on no
    other action. *)
Local Abbreviation rooted := (λ (ks : list (AnalyzerPtr * PackagePtr))
    (roots : list ActionPtr) (st : builder),
  inv ∅ st
  ∧ Forall2 (λ k r, actions st !! k = Some r) ks roots
  ∧ ∀ ptr x, heap st !! ptr = Some x → (isroot x = true ↔ ptr ∈ roots)).

Lemma rootsForPkgs_rooted fuel a : ∀ ps ks roots st roots' st',
  rootsForPkgs fuel a ps roots st = Some (roots', st') →
  rooted ks roots st →
  rooted (ks ++ ((λ p, (a, p)) <$> ps)) roots' st'.
Proof.
  induction ps as [|p ps IH]; intros ks roots st roots' st' Hloop Hst.
  { injection Hloop as <- <-. by rewrite app_nil_r. }
  cbn [Builder.rootsForPkgs] in Hloop.
  destruct (mkAction fuel a p st) as [[root st1]|] eqn:Hcall; [|done].
  destruct Hst as (Hinv & Htable & Hroot).
  destruct (mkAction_inv analyzer pkgs initialPkgs rankA rankP Requires_rank
              Imports_rank fuel a p st root st1 ∅ Hcall Hinv)
    as (Hinv1 & (Hnext & Hmono & _ & Hframe) & Hroot1 & _); [set_solver|].
  apply (IH (ks ++ [(a, p)])) in Hloop.
  { by rewrite <- app_assoc in Hloop. }
  split; [apply inv_alter; [done|by right|done]|]. split.
  - apply Forall2_app; [|by repeat constructor].
    eapply Forall2_impl; [exact Htable|]. intros k r Hk. by apply Hmono.
  - intros ptr x Hx. cbn in Hx.
    destruct (decide (ptr = root)) as [->|Hne].
    { rewrite lookup_alter_eq in Hx. destruct (heap st1 !! root) as [y|]; [|done].
      injection Hx as <-. split; [intros _|done]. apply elem_of_app. right. by left. }
    rewrite lookup_alter_ne in Hx by done.
    rewrite elem_of_app, list_elem_of_singleton.
    destruct (decide (ptr < next st)) as [Hold|Hnew].
    + rewrite Hframe in Hx by set_solver. rewrite (Hroot ptr x Hx). tauto.
    + split; [|intros [Hin|?]; [|done]].
      * intros Htrue. exfalso.
        assert (isroot x = false); [|congruence].
        refine (proj2 (mkAction_above analyzer pkgs initialPkgs
                  (λ x, isroot x = false) _ _ fuel (next st) a p st root st1 Hcall _)
                  ptr x Hx _); try done; try lia.
        split; [done|]. intros ptr' y Hy Hge.
        destruct Hinv as (_ & Halloc & _). apply Halloc in Hy. lia.
      * exfalso. apply list_elem_of_lookup in Hin as [i Hi].
        destruct (Forall2_lookup_r _ _ _ _ _ Htable Hi) as (k & _ & Hk).
        destruct Hinv as (Hkeyed & Halloc & _).
        destruct (Hkeyed _ _ Hk) as (y & Hy & _). apply Halloc in Hy. lia.
Qed.

Lemma rootsForAnalyzers_rooted fuel ps : ∀ analyzers ks roots st roots' st',
  rootsForAnalyzers fuel analyzers ps roots st = Some (roots', st') →
  rooted ks roots st →
  rooted (ks ++ (analyzers ≫= λ a, (λ p, (a, p)) <$> ps)) roots' st'.
Proof.
  induction analyzers as [|a analyzers IH]; intros ks roots st roots' st' Hloop Hst.
  { injection Hloop as <- <-. by rewrite app_nil_r. }
  cbn [Builder.rootsForAnalyzers] in Hloop.
  destruct (rootsForPkgs fuel a ps roots st) as [[roots1 st1]|] eqn:Hpkgs; [|done].
  apply (rootsForPkgs_rooted _ _ _ ks) in Hpkgs; [|done].
  apply IH with (ks := ks ++ ((λ p, (a, p)) <$> ps)) in Hloop; [|done].
  by rewrite <- app_assoc in Hloop.
Qed.

(** X5. The graph construction returns one root for each analyzer and
    initial package, in the order of the two loops: the table's action for
    that analyzer and package, which is allocated, carries them as key and
    is marked as root.  No other action of the graph is marked as root. *)
Theorem buildGraph_roots fuel analyzers ps :
  (∀ a p, a ∈ analyzers → p ∈ ps → rankA a + rankP p < fuel) →
  ∃ roots st,
    buildGraph fuel analyzers ps = Some (roots, st)
    ∧ Forall2 (λ k root,
                 actions st !! k = Some root
                 ∧ ∃ x, heap st !! root = Some x ∧ action_key x = k
                        ∧ isroot x = true)
        (analyzers ≫= λ a, (λ p, (a, p)) <$> ps) roots
    ∧ ∀ act x, heap st !! act = Some x → (isroot x = true ↔ act ∈ roots).
Proof.
  intros Hfuel.
  destruct (buildGraph_reachable analyzer pkgs initialPkgs rankA rankP Requires_rank
              Imports_rank fuel analyzers ps Hfuel) as (roots & st & Hbuild & _).
  exists roots, st. split; [done|].
  destruct (rootsForAnalyzers_rooted fuel ps analyzers [] [] empty roots st Hbuild)
    as (Hinv & Htable & Hroot).
  { split; [apply empty_inv|]. split; [constructor|].
    intros ptr x Hx. cbn in Hx. by rewrite lookup_empty in Hx. }
  split; [|done]. cbn [app] in Htable.
  apply Forall2_same_length_lookup. split; [by eapply Forall2_length|].
  intros i k root Hk Hr.
  pose proof (Forall2_lookup_lr _ _ _ _ _ _ Htable Hk Hr) as Hentry.
  split; [done|]. destruct Hinv as (Hkeyed & _).
  destruct (Hkeyed _ _ Hentry) as (x & Hx & Hkey). exists x.
  split; [done|]. split; [done|]. apply (Hroot root x Hx).
  by eapply list_elem_of_lookup_2.
Qed.

(** X6. In the graph the construction returns every edge is of one of two
    kinds and leads to an allocated action: a horizontal edge, to an action
    on the same package whose analyzer the action's analyzer requires; or a
    vertical edge, to an action of the same analyzer, which then has fact
    types, on a package the action's package imports.  Either way the edge
    descends along the ranks, so the graph is acyclic. *)
Theorem buildGraph_edges fuel analyzers ps :
  (∀ a p, a ∈ analyzers → p ∈ ps → rankA a + rankP p < fuel) →
  ∃ roots st,
    buildGraph fuel analyzers ps = Some (roots, st)
    ∧ ∀ act x dep,
        heap st !! act = Some x → dep ∈ deps x →
        ∃ y, heap st !! dep = Some y
             ∧ actions st !! action_key y = Some dep
             ∧ (act_pkg y = act_pkg x ∧ act_a y ∈ Requires (analyzer (act_a x))
                ∨ act_a y = act_a x ∧ FactTypes (analyzer (act_a x)) ≠ []
                  ∧ ∃ path, Imports (pkgs (act_pkg x)) !! path = Some (act_pkg y))
             ∧ rankA (act_a y) + rankP (act_pkg y) < rankA (act_a x) + rankP (act_pkg x).
Proof.
  intros Hfuel.
  destruct (buildGraph_reachable analyzer pkgs initialPkgs rankA rankP Requires_rank
              Imports_rank fuel analyzers ps Hfuel) as (roots & st & Hbuild & Hreach).
  exists roots, st. split; [done|].
  destruct (reachable_inv analyzer pkgs initialPkgs rankA rankP Requires_rank
              Imports_rank st Hreach) as (Hkeyed & _ & _ & _ & Hlinked).
  intros act x dep Hx Hdep.
  destruct (Hlinked act x Hx) as (reqDeps & impDeps & Hdeps & Hreq & Himp);
    [set_solver|].
  rewrite Hdeps in Hdep. apply elem_of_app in Hdep as [Hdep|Hdep].
  - apply list_elem_of_lookup in Hdep as [i Hi].
    destruct (Forall2_lookup_r _ _ _ _ _ Hreq Hi) as (req & Hreq_i & Htable).
    destruct (Hkeyed _ _ Htable) as (y & Hy & Hkey). exists y.
    injection Hkey as Ha Hp. apply list_elem_of_lookup_2 in Hreq_i.
    split; [done|]. split; [unfold action_key; by rewrite Ha, Hp|].
    split; [left; by rewrite Ha, Hp|].
    rewrite Ha, Hp. apply Requires_rank in Hreq_i. lia.
  - case_bool_decide as Hfacts; [|subst impDeps; by apply elem_of_nil in Hdep].
    apply list_elem_of_lookup in Hdep as [i Hi].
    destruct (Forall2_lookup_r _ _ _ _ _ Himp Hi) as (path & _ & q & Hq & Htable).
    destruct (Hkeyed _ _ Htable) as (y & Hy & Hkey). exists y.
    injection Hkey as Ha Hp.
    split; [done|]. split; [unfold action_key; by rewrite Ha, Hp|].
    split.
    + right. split; [done|]. split.
      * intros Hnil. rewrite Hnil in Hfacts. cbn in Hfacts. lia.
      * exists path. by rewrite Hp.
    + rewrite Ha, Hp. apply Imports_rank in Hq. lia.
Qed.

End BuilderGraph.

Lemma buildGraph_actions_as_allocated_witness :
  ∃ roots st,
    Sample.graph = Some (roots, st)
    ∧ ∀ act x,
        Builder.heap st !! act = Some x →
        isInitialPkg x = bool_decide (act_pkg x ∈ ({[1%positive]} : gset PackagePtr))
        ∧ needAnalyzeSource x = bool_decide (act_pkg x ∈ ({[1%positive]} : gset PackagePtr))
        ∧ act_pass x = None
        ∧ objectFacts x = ∅ ∧ packageFacts x = ∅
        ∧ result x = None ∧ diagnostics x = [] ∧ act_err x = None
        ∧ loadCachedFactsDone x = false.
Proof.
  exact (buildGraph_actions_as_allocated Sample.analyzer Sample.pkgs {[1%positive]}
           Sample.rankA Sample.rankP sample_Requires_rank sample_Imports_rank
           4 [1%positive; 2%positive] [1%positive] sample_fuel).
Defined.

Lemma buildGraph_roots_witness :
  ∃ roots st,
    Sample.graph = Some (roots, st)
    ∧ Forall2 (λ k root,
                 Builder.actions st !! k = Some root
                 ∧ ∃ x, Builder.heap st !! root = Some x ∧ action_key x = k
                        ∧ isroot x = true)
        [(1%positive, 1%positive); (2%positive, 1%positive)] roots
    ∧ ∀ act x, Builder.heap st !! act = Some x → (isroot x = true ↔ act ∈ roots).
Proof.
  exact (buildGraph_roots Sample.analyzer Sample.pkgs {[1%positive]}
           Sample.rankA Sample.rankP sample_Requires_rank sample_Imports_rank
           4 [1%positive; 2%positive] [1%positive] sample_fuel).
Defined.

Lemma buildGraph_edges_witness :
  ∃ roots st,
    Sample.graph = Some (roots, st)
    ∧ ∀ act x dep,
        Builder.heap st !! act = Some x → dep ∈ deps x →
        ∃ y, Builder.heap st !! dep = Some y
             ∧ Builder.actions st !! action_key y = Some dep
             ∧ (act_pkg y = act_pkg x
                ∧ act_a y ∈ Requires (Sample.analyzer (act_a x))
                ∨ act_a y = act_a x ∧ FactTypes (Sample.analyzer (act_a x)) ≠ []
                  ∧ ∃ path, Imports (Sample.pkgs (act_pkg x)) !! path = Some (act_pkg y))
             ∧ Sample.rankA (act_a y) + Sample.rankP (act_pkg y)
               < Sample.rankA (act_a x) + Sample.rankP (act_pkg x).
Proof.
  exact (buildGraph_edges Sample.analyzer Sample.pkgs {[1%positive]}
           Sample.rankA Sample.rankP sample_Requires_rank sample_Imports_rank
           4 [1%positive; 2%positive] [1%positive] sample_fuel).
Defined.

(** ** Facts: export, import and enumeration *)

Section FactOperations.

Import Exec FactOps.

Variable analyzer : AnalyzerPtr → Analyzer.
Variable objects : ObjectPtr → Object.
Variable Object_Pos : ObjectPtr → nat.
Variable isFactsDebug : bool.
Variable pkgs : PackagePtr → Package.

Local Abbreviation exportObjectFact :=
  (Exec.exportObjectFact analyzer objects Object_Pos isFactsDebug pkgs).
Local Abbreviation exportPackageFact :=
  (Exec.exportPackageFact analyzer isFactsDebug pkgs).

Lemma factType_Ok fact t : factType fact = Ok t → t = fact_type fact ∧ rt_isPtr t = true.
Proof.
  unfold factType. destruct (rt_isPtr (fact_type fact)) eqn:Hptr; [|done].
  by intros [= <-].
Qed.

Lemma factType_ptr fact : rt_isPtr (fact_type fact) = true → factType fact = Ok (fact_type fact).
Proof. unfold factType. by intros ->. Qed.

Lemma reflect_Set_same ptr v :
  fact_type v = fact_type ptr → reflect_Set ptr v = Ok v.
Proof.
  intros Ht. unfold reflect_Set. rewrite decide_True by done.
  rewrite <- Ht. by destruct v.
Qed.

(** What a successful [exportObjectFact] did. *)
Lemma exportObjectFact_Ok obj fact x x' evs :
  exportObjectFact obj fact x = (x', evs, Ok tt) →
  rt_isPtr (fact_type fact) = true
  ∧ Object_Pkg (objects obj) = Types (pkgs (act_pkg x))
  ∧ x' = set_objectFacts (<[(obj, fact_type fact) := fact]> (objectFacts x)) x.
Proof.
  unfold Exec.exportObjectFact. destruct (act_pass x) as [pass|]; [|done].
  destruct (negb _); [done|]. destruct (decide _) as [|Hown]; [done|].
  destruct (factType fact) as [t| |] eqn:Ht; [|done..].
  apply factType_Ok in Ht as [-> Hptr]. intros [= <- _].
  split; [done|]. split; [|done]. by apply dec_stable.
Qed.

(** X7. Export, then import.  After [exportObjectFact] has stored a fact on
    an object, [importObjectFact] for that object through a pointer of the
    fact's type finds it and copies that very fact, whatever was stored
    there before; for every other object or type it answers as it did before
    the export.  A fact is only ever stored on an object of the action's own
    package and under a pointer type. *)
Theorem exportObjectFact_then_import obj fact x x' evs :
  exportObjectFact obj fact x = (x', evs, Ok tt) →
  Object_Pkg (objects obj) = Types (pkgs (act_pkg x))
  ∧ rt_isPtr (fact_type fact) = true
  ∧ (∀ ptr, fact_type ptr = fact_type fact →
       importObjectFact (Some obj) ptr x' = Ok (true, fact))
  ∧ (∀ obj' ptr, (obj', fact_type ptr) ≠ (obj, fact_type fact) →
       importObjectFact (Some obj') ptr x' = importObjectFact (Some obj') ptr x)
  ∧ ∀ pkg ptr, importPackageFact pkg ptr x' = importPackageFact pkg ptr x.
Proof.
  intros (Hptr & Hown & ->)%exportObjectFact_Ok.
  split; [done|]. split; [done|]. split; [|split].
  - intros ptr Ht. unfold importObjectFact.
    rewrite factType_ptr by (by rewrite Ht). cbn. rewrite Ht, lookup_insert_eq.
    by rewrite reflect_Set_same.
  - intros obj' ptr Hne. unfold importObjectFact.
    destruct (factType ptr) as [t| |] eqn:Ht; [|done..].
    apply factType_Ok in Ht as [-> _]. cbn. by rewrite lookup_insert_ne.
  - done.
Qed.

(** What a successful [exportPackageFact] did. *)
Lemma exportPackageFact_Ok fact x x' evs :
  exportPackageFact fact x = (x', evs, Ok tt) →
  ∃ pass tpkg,
    act_pass x = Some pass ∧ Pass_Pkg pass = Some tpkg
    ∧ rt_isPtr (fact_type fact) = true
    ∧ x' = set_packageFacts (<[(Some tpkg, fact_type fact) := fact]> (packageFacts x)) x.
Proof.
  unfold Exec.exportPackageFact. destruct (act_pass x) as [pass|]; [|done].
  destruct (negb _); [done|].
  destruct (factType fact) as [t| |] eqn:Ht; [|done..].
  apply factType_Ok in Ht as [-> Hptr].
  destruct (Pass_Files pass) as [|[f|] ?]; [done| |done].
  destruct (Pass_Pkg pass) as [tpkg|] eqn:Hpkg; [|done].
  intros [= <- _]. by exists pass, tpkg.
Qed.

(** X8. Export, then import, for package facts.  After [exportPackageFact]
    has returned, [importPackageFact] for the package of the pass through a
    pointer of the fact's type finds and copies that very fact; for every
    other package or type, and for object facts, the imports answer as
    before. *)
Theorem exportPackageFact_then_import fact x x' evs :
  exportPackageFact fact x = (x', evs, Ok tt) →
  ∃ pass tpkg,
    act_pass x = Some pass ∧ Pass_Pkg pass = Some tpkg
    ∧ rt_isPtr (fact_type fact) = true
    ∧ (∀ ptr, fact_type ptr = fact_type fact →
         importPackageFact (Some tpkg) ptr x' = Ok (true, fact))
    ∧ (∀ pkg ptr, (pkg, fact_type ptr) ≠ (Some tpkg, fact_type fact) →
         importPackageFact pkg ptr x' = importPackageFact pkg ptr x)
    ∧ ∀ obj ptr, importObjectFact obj ptr x' = importObjectFact obj ptr x.
Proof.
  intros (pass & tpkg & Hpass & Hpkg & Hptr & ->)%exportPackageFact_Ok.
  exists pass, tpkg. split; [done|]. split; [done|]. split; [done|].
  split; [|split].
  - intros ptr Ht. unfold importPackageFact.
    rewrite factType_ptr by (by rewrite Ht). cbn. rewrite Ht, lookup_insert_eq.
    by rewrite reflect_Set_same.
  - intros pkg ptr Hne. unfold importPackageFact. destruct pkg as [q|]; [|done].
    destruct (factType ptr) as [t| |] eqn:Ht; [|done..].
    apply factType_Ok in Ht as [-> _]. cbn. by rewrite lookup_insert_ne.
  - done.
Qed.

(** In a well-keyed action the imports do not panic on a pointer of pointer
    type: they return the stored fact, or report that there is none. *)
Lemma importObjectFact_wellKeyed obj ptr x :
  wellKeyed x → rt_isPtr (fact_type ptr) = true →
  importObjectFact (Some obj) ptr x =
    match objectFacts x !! (obj, fact_type ptr) with
    | Some v => Ok (true, v)
    | None => Ok (false, ptr)
    end.
Proof.
  intros [Hobj _] Hptr. unfold importObjectFact. rewrite factType_ptr by done.
  destruct (objectFacts x !! _) as [v|] eqn:Hv; [|done].
  destruct (Hobj _ _ Hv) as [Ht _]. cbn in Ht. by rewrite reflect_Set_same.
Qed.

Lemma importPackageFact_wellKeyed pkg ptr x :
  wellKeyed x → rt_isPtr (fact_type ptr) = true →
  importPackageFact (Some pkg) ptr x =
    match packageFacts x !! (Some pkg, fact_type ptr) with
    | Some v => Ok (true, v)
    | None => Ok (false, ptr)
    end.
Proof.
  intros [_ Hpkg] Hptr. unfold importPackageFact. rewrite factType_ptr by done.
  destruct (packageFacts x !! _) as [v|] eqn:Hv; [|done].
  destruct (Hpkg _ _ Hv) as [Ht _]. cbn in Ht. by rewrite reflect_Set_same.
Qed.

(** X9. Enumeration agrees with import.  In a well-keyed action
    [allObjectFacts] lists a fact for an object exactly when
    [importObjectFact] retrieves it for that object through a pointer of the
    fact's type, and it lists each entry of the store once; likewise for
    [allPackageFacts] and [importPackageFact]. *)
Theorem allFacts_iff_import x :
  wellKeyed x →
  (∀ obj f data,
     (obj, f) ∈ allObjectFacts x ↔
     importObjectFact (Some obj) (mkAFact (fact_type f) data) x = Ok (true, f))
  ∧ (∀ pkg f data,
       (Some pkg, f) ∈ allPackageFacts x ↔
       importPackageFact (Some pkg) (mkAFact (fact_type f) data) x = Ok (true, f))
  ∧ length (allObjectFacts x) = size (objectFacts x)
  ∧ length (allPackageFacts x) = size (packageFacts x).
Proof.
  intros Hwk. split; [|split; [|split]].
  - intros obj f data. unfold allObjectFacts. rewrite list_elem_of_fmap. split.
    + intros ([[o t] f'] & [= -> ->] & Hin). apply elem_of_map_to_list in Hin.
      destruct (proj1 Hwk _ _ Hin) as [Ht Hptr]. cbn in Ht, Hptr. subst t.
      rewrite importObjectFact_wellKeyed by done. cbn. by rewrite Hin.
    + intros Himp. destruct (rt_isPtr (fact_type f)) eqn:Hptr.
      * rewrite importObjectFact_wellKeyed in Himp by done. cbn in Himp.
        destruct (objectFacts x !! (obj, fact_type f)) as [v|] eqn:Hv; [|done].
        injection Himp as ->. exists (obj, fact_type f, f). split; [done|].
        by apply elem_of_map_to_list.
      * unfold importObjectFact, factType in Himp. cbn in Himp. by rewrite Hptr in Himp.
  - intros pkg f data. unfold allPackageFacts. rewrite list_elem_of_fmap. split.
    + intros ([[o t] f'] & Heq & Hin). cbn in Heq. injection Heq as Ho Hf. subst o f'.
      apply elem_of_map_to_list in Hin.
      destruct (proj2 Hwk _ _ Hin) as [Ht Hptr]. cbn in Ht, Hptr. subst t.
      rewrite importPackageFact_wellKeyed by done. cbn. by rewrite Hin.
    + intros Himp. destruct (rt_isPtr (fact_type f)) eqn:Hptr.
      * rewrite importPackageFact_wellKeyed in Himp by done. cbn in Himp.
        destruct (packageFacts x !! (Some pkg, fact_type f)) as [v|] eqn:Hv; [|done].
        injection Himp as ->. exists (Some pkg, fact_type f, f). split; [done|].
        by apply elem_of_map_to_list.
      * unfold importPackageFact, factType in Himp. cbn in Himp. by rewrite Hptr in Himp.
  - unfold allObjectFacts. by rewrite length_fmap, length_map_to_list.
  - unfold allPackageFacts. by rewrite length_fmap, length_map_to_list.
Qed.

End FactOperations.

(** ** The fact stores stay well keyed *)

Section WellKeyed.

Import Exec FactOps.

Variable analyzer : AnalyzerPtr → Analyzer.
Variable objects : ObjectPtr → Object.
Variable Object_Pos : ObjectPtr → nat.
Variable objectpath_For : ObjectPtr → error + string.
Variable objectpath_Object : option TypesPkgPtr → string → error + ObjectPtr.
Variable cacheGet : PackagePtr → string → error + list Fact.
Variable cachePut : PackagePtr → string → list Fact → option error.
Variable gobEncode : nat → analysis_Fact → error + list nat.
Variable gobDecode : list nat → rtype → error + analysis_Fact.
Variable Run : Pass → action → RunBehaviour.
Variable isFactsDebug : bool.
Variable pkgs : PackagePtr → Package.

Local Abbreviation analyze :=
  (Exec.analyze analyzer objects Object_Pos objectpath_For cachePut gobEncode
     gobDecode Run isFactsDebug pkgs).
Local Abbreviation runPass :=
  (Exec.runPass analyzer objects Object_Pos objectpath_For cachePut Run
     isFactsDebug pkgs).
Local Abbreviation runCalls :=
  (Exec.runCalls analyzer objects Object_Pos isFactsDebug pkgs).
Local Abbreviation plumbDeps := (Exec.plumbDeps objects gobEncode gobDecode pkgs).
Local Abbreviation inheritFacts := (Exec.inheritFacts objects gobEncode gobDecode pkgs).
Local Abbreviation exportObjectFact :=
  (Exec.exportObjectFact analyzer objects Object_Pos isFactsDebug pkgs).
Local Abbreviation exportPackageFact :=
  (Exec.exportPackageFact analyzer isFactsDebug pkgs).
Local Abbreviation loadFacts := (Exec.loadFacts objectpath_Object pkgs).
Local Abbreviation loadPersistedFacts :=
  (Exec.loadPersistedFacts analyzer objectpath_Object cacheGet pkgs).
Local Abbreviation loadCachedFacts :=
  (Exec.loadCachedFacts analyzer objectpath_Object cacheGet pkgs).

Lemma wellKeyed_same_facts x x' :
  objectFacts x' = objectFacts x → packageFacts x' = packageFacts x →
  wellKeyed x → wellKeyed x'.
Proof. unfold wellKeyed. by intros -> ->. Qed.

Lemma wellKeyed_insert_object x obj fact :
  rt_isPtr (fact_type fact) = true → wellKeyed x →
  wellKeyed (set_objectFacts (<[(obj, fact_type fact) := fact]> (objectFacts x)) x).
Proof.
  intros Hptr [Hobj Hpkg]. split; [|done]. intros k f. cbn.
  intros [[<- <-]|[_ Hk]]%lookup_insert_Some; [done|by apply Hobj].
Qed.

Lemma wellKeyed_insert_package x pkg fact :
  rt_isPtr (fact_type fact) = true → wellKeyed x →
  wellKeyed (set_packageFacts (<[(pkg, fact_type fact) := fact]> (packageFacts x)) x).
Proof.
  intros Hptr [Hobj Hpkg]. split; [done|]. intros k f. cbn.
  intros [[<- <-]|[_ Hk]]%lookup_insert_Some; [done|by apply Hpkg].
Qed.

Lemma exportObjectFact_wellKeyed obj fact x :
  wellKeyed x → wellKeyed (exportObjectFact obj fact x).1.1.
Proof.
  intros Hwk. unfold Exec.exportObjectFact.
  destruct (act_pass x) as [pass|]; [|done].
  destruct (negb _); [done|]. destruct (decide _); [done|].
  destruct (factType fact) as [t| |] eqn:Ht; [|done..].
  apply factType_Ok in Ht as [-> Hptr]. by apply wellKeyed_insert_object.
Qed.

Lemma exportPackageFact_wellKeyed fact x :
  wellKeyed x → wellKeyed (exportPackageFact fact x).1.1.
Proof.
  intros Hwk. unfold Exec.exportPackageFact.
  destruct (act_pass x) as [pass|]; [|done].
  destruct (negb _); [done|].
  destruct (factType fact) as [t| |] eqn:Ht; [|done..].
  apply factType_Ok in Ht as [-> Hptr].
  pose proof (wellKeyed_insert_package x (Pass_Pkg pass) fact Hptr Hwk).
  destruct (Pass_Files pass) as [|[f|] ?]; [done| |done].
  by destruct (Pass_Pkg pass).
Qed.

Lemma runCalls_wellKeyed cs evs x :
  wellKeyed x → wellKeyed (runCalls cs evs x).1.1.
Proof.
  revert evs x. induction cs as [|c cs IH]; intros evs x Hwk; [done|].
  destruct c as [d|obj fact|fact]; cbn [Exec.runCalls].
  - by apply IH.
  - pose proof (exportObjectFact_wellKeyed obj fact x Hwk) as Hwk'.
    destruct (exportObjectFact obj fact x) as [[x' evs'] [[]| |]]; [by apply IH|done..].
  - pose proof (exportPackageFact_wellKeyed fact x Hwk) as Hwk'.
    destruct (exportPackageFact fact x) as [[x' evs'] [[]| |]]; [by apply IH|done..].
Qed.

Lemma inheritObjectFacts_wellKeyed dep l n x :
  (∀ k f, (k, f) ∈ l → k.2 = fact_type f ∧ rt_isPtr k.2 = true) →
  wellKeyed x →
  wellKeyed (inheritObjectFacts objects gobEncode gobDecode pkgs false dep l n x).1.1.
Proof.
  revert x. induction l as [|[k f] l IH]; intros x Hl Hwk; [done|].
  cbn [Exec.inheritObjectFacts].
  assert (∀ k f, (k, f) ∈ l → k.2 = fact_type f ∧ rt_isPtr k.2 = true) as Hl'.
  { intros ???. apply Hl. by right. }
  destruct (negb _); [by apply IH|]. apply IH; [done|].
  destruct (Hl k f) as [Ht Hptr]; [by left|]. destruct k as [obj t]. cbn in Ht, Hptr.
  subst t. by apply wellKeyed_insert_object.
Qed.

Lemma inheritPackageFacts_wellKeyed l n x :
  (∀ k f, (k, f) ∈ l → k.2 = fact_type f ∧ rt_isPtr k.2 = true) →
  wellKeyed x →
  wellKeyed (inheritPackageFacts gobEncode gobDecode false l n x).1.1.
Proof.
  revert x. induction l as [|[k f] l IH]; intros x Hl Hwk; [done|].
  cbn [Exec.inheritPackageFacts].
  assert (∀ k f, (k, f) ∈ l → k.2 = fact_type f ∧ rt_isPtr k.2 = true) as Hl'.
  { intros ???. apply Hl. by right. }
  destruct (Hl k f) as [Ht Hptr]; [by left|]. destruct k as [[pkg|] t]; [|done].
  cbn in Ht, Hptr. subst t. apply IH; [done|]. by apply wellKeyed_insert_package.
Qed.

Lemma inheritFacts_wellKeyed n x dep :
  wellKeyed dep → wellKeyed x → wellKeyed (inheritFacts n x dep).1.1.
Proof.
  intros [Hdobj Hdpkg] Hwk. unfold Exec.inheritFacts.
  pose proof (inheritObjectFacts_wellKeyed dep (map_to_list (objectFacts dep)) n x) as H1.
  destruct (inheritObjectFacts _ _ _ _ _ _ _ _ _) as [[x1 n1] [[]| |]];
    [|apply H1; [|done]; intros k f ?%elem_of_map_to_list; by apply Hdobj..].
  apply inheritPackageFacts_wellKeyed.
  - intros k f ?%elem_of_map_to_list. by apply Hdpkg.
  - apply H1; [|done]. intros k f ?%elem_of_map_to_list. by apply Hdobj.
Qed.

Lemma plumbDeps_wellKeyed ds inputs n x :
  Forall wellKeyed ds → wellKeyed x → wellKeyed (plumbDeps ds inputs n x).1.1.2.
Proof.
  revert inputs n x. induction ds as [|dep ds IH]; intros inputs n x Hds Hwk; [done|].
  apply Forall_cons in Hds as [Hdep Hds]. cbn [Exec.plumbDeps].
  destruct (decide _); [by apply IH|]. destruct (decide _); [|by apply IH].
  pose proof (inheritFacts_wellKeyed n x dep Hdep Hwk) as Hwk'.
  destruct (inheritFacts n x dep) as [[x' n'] [[]| |]]; [by apply IH|done..].
Qed.

Lemma closePass_facts x :
  objectFacts (closePass x) = objectFacts x ∧ packageFacts (closePass x) = packageFacts x.
Proof. unfold closePass. by destruct (act_pass x). Qed.

Lemma runPass_wellKeyed inputs x :
  wellKeyed x → wellKeyed (runPass inputs x).1.1.
Proof.
  intros Hwk. unfold Exec.runPass. cbn zeta.
  destruct (_ && _).
  { destruct (persistFactsToCache _ _ _ _ _ _). cbn [fst].
    eapply wellKeyed_same_facts;
      [apply (proj1 (closePass_facts _))|apply (proj2 (closePass_facts _))|exact Hwk]. }
  set (x0 := set_pass _ x).
  pose proof (runCalls_wellKeyed (calls (Run (mkPass (act_a x) (Syntax (pkgs (act_pkg x)))
                 (Types (pkgs (act_pkg x))) inputs true true) x0))
                [EvRun (act_a x0) (act_pkg x0)] x0 Hwk) as Hwk'.
  destruct (runCalls _ _ _) as [[x1 evs1] [[]| |]]; [|done..].
  destruct (returns _) as [[r err]| |]; [|done..].
  destruct (persistFactsToCache _ _ _ _ _ _). cbn [fst].
  eapply wellKeyed_same_facts;
    [apply (proj1 (closePass_facts _))|apply (proj2 (closePass_facts _))|exact Hwk'].
Qed.

Lemma loadFacts_wellKeyed facts x :
  wellKeyed x → wellKeyed (loadFacts facts x).1.
Proof.
  revert x. induction facts as [|f facts IH]; intros x Hwk; [done|].
  cbn [Exec.loadFacts]. destruct (decide _).
  - destruct (factType (Fact_Fact f)) as [t| |] eqn:Ht; [|done..].
    apply factType_Ok in Ht as [-> Hptr]. apply IH. by apply wellKeyed_insert_package.
  - destruct (objectpath_Object _ _) as [|obj]; [by apply IH|].
    destruct (factType (Fact_Fact f)) as [t| |] eqn:Ht; [|done..].
    apply factType_Ok in Ht as [-> Hptr]. apply IH. by apply wellKeyed_insert_object.
Qed.

Lemma loadPersistedFacts_wellKeyed x :
  wellKeyed x → wellKeyed (loadPersistedFacts x).1.1.
Proof.
  intros Hwk. unfold Exec.loadPersistedFacts. destruct (cacheGet _ _) as [|facts]; [done|].
  pose proof (loadFacts_wellKeyed facts x Hwk).
  by destruct (loadFacts facts x) as [x' [[]| |]].
Qed.

Lemma loadCachedFacts_wellKeyed x :
  wellKeyed x → wellKeyed (loadCachedFacts x).1.1.
Proof.
  intros Hwk. unfold Exec.loadCachedFacts. destruct (loadCachedFactsDone x); [done|].
  destruct (isInitialPkg x); [done|]. case_bool_decide; [done|].
  pose proof (loadPersistedFacts_wellKeyed x Hwk).
  by destruct (loadPersistedFacts x) as [[x' evs] [r| |]].
Qed.

(** X10. Every fact the driver stores sits under its own dynamic type, a
    pointer type, and this is kept by all that [analyze] does to the action
    (inheriting the facts of its dependencies, the exports of the running
    analyzer) and by loading cached facts.  So an import through a pointer of
    pointer type does not panic copying the fact: it returns the stored fact,
    or reports that there is none. *)
Theorem facts_stay_well_keyed heap act n :
  (∀ ptr x, heap !! ptr = Some x → wellKeyed x) →
  (∀ ptr x, (analyze heap act n).1.1 !! ptr = Some x →
     wellKeyed x
     ∧ wellKeyed (loadCachedFacts x).1.1
     ∧ ∀ ptr, rt_isPtr (fact_type ptr) = true →
         (∀ obj, importObjectFact (Some obj) ptr x =
            match objectFacts x !! (obj, fact_type ptr) with
            | Some v => Ok (true, v)
            | None => Ok (false, ptr)
            end)
         ∧ (∀ pkg, importPackageFact (Some pkg) ptr x =
              match packageFacts x !! (Some pkg, fact_type ptr) with
              | Some v => Ok (true, v)
              | None => Ok (false, ptr)
              end)).
Proof.
  intros Hheap.
  assert (∀ ptr x, (analyze heap act n).1.1 !! ptr = Some x → wellKeyed x) as Hwk.
  { unfold Exec.analyze. destruct (heap !! act) as [x|] eqn:Hx; [|done].
    destruct (negb _); [done|].
    destruct (mapM _ _) as [ds|] eqn:Hds; [|done].
    assert (Forall wellKeyed ds) as Hdswk.
    { apply mapM_Some in Hds. clear -Hds Hheap.
      induction Hds as [|d y ? ? Hd _ IH]; constructor; [by eapply Hheap|done]. }
    pose proof (Hheap _ _ Hx) as Hxwk.
    assert (∀ y, wellKeyed y → ∀ ptr z, <[act := y]> heap !! ptr = Some z → wellKeyed z)
      as Hins.
    { intros y Hy ptr z. intros [[_ <-]|[_ Hz]]%lookup_insert_Some; [done|by eapply Hheap]. }
    destruct (failedDeps _ _ ds); [|by apply Hins].
    pose proof (plumbDeps_wellKeyed ds ∅ n x Hdswk Hxwk) as Hwk1.
    destruct (plumbDeps ds ∅ n x) as [[[inputs x1] n1] [[]| |]]; [|by apply Hins..].
    pose proof (runPass_wellKeyed inputs x1 Hwk1) as Hwk2.
    destruct (runPass inputs x1) as [[x2 evs] res]. by apply Hins. }
  intros ptr x Hx. pose proof (Hwk _ _ Hx) as Hxwk.
  split; [done|]. split; [by apply loadCachedFacts_wellKeyed|].
  intros p Hptr. split; intros ?.
  - by apply importObjectFact_wellKeyed.
  - by apply importPackageFact_wellKeyed.
Qed.

End WellKeyed.

(** An action of analyzer 1 on [root] with an open pass; object 2 is a
    function of [root]. *)
Lemma exportObjectFact_then_import_witness :
  let x := Sample.actionOf 1 1 (Some (Sample.passOf [Some (mkFile 1)] true)) true [] None in
  let x' := set_objectFacts (<[(2%positive, Sample.factT) := Sample.aFact]> ∅) x in
  Object_Pkg (Sample.objects 2) = Types (Sample.pkgs (act_pkg x))
  ∧ rt_isPtr (fact_type Sample.aFact) = true
  ∧ (∀ ptr, fact_type ptr = fact_type Sample.aFact →
       FactOps.importObjectFact (Some 2%positive) ptr x' = Ok (true, Sample.aFact))
  ∧ (∀ obj' ptr, (obj', fact_type ptr) ≠ (2%positive, fact_type Sample.aFact) →
       FactOps.importObjectFact (Some obj') ptr x'
       = FactOps.importObjectFact (Some obj') ptr x)
  ∧ ∀ pkg ptr, FactOps.importPackageFact pkg ptr x' = FactOps.importPackageFact pkg ptr x.
Proof.
  intros x x'.
  apply (exportObjectFact_then_import Sample.analyzer Sample.objects Sample.objectPos
           false Sample.pkgs 2%positive Sample.aFact x x' []).
  reflexivity.
Defined.

Lemma exportPackageFact_then_import_witness :
  let x := Sample.actionOf 1 1 (Some (Sample.passOf [Some (mkFile 1)] true)) true [] None in
  let x' := set_packageFacts (<[(Some 11%positive, Sample.factT) := Sample.aFact]> ∅) x in
  ∃ pass tpkg,
    act_pass x = Some pass ∧ Pass_Pkg pass = Some tpkg
    ∧ rt_isPtr (fact_type Sample.aFact) = true
    ∧ (∀ ptr, fact_type ptr = fact_type Sample.aFact →
         FactOps.importPackageFact (Some tpkg) ptr x' = Ok (true, Sample.aFact))
    ∧ (∀ pkg ptr, (pkg, fact_type ptr) ≠ (Some tpkg, fact_type Sample.aFact) →
         FactOps.importPackageFact pkg ptr x' = FactOps.importPackageFact pkg ptr x)
    ∧ ∀ obj ptr, FactOps.importObjectFact obj ptr x' = FactOps.importObjectFact obj ptr x.
Proof.
  intros x x'.
  apply (exportPackageFact_then_import Sample.analyzer false Sample.pkgs
           Sample.aFact x x' []).
  reflexivity.
Defined.

(** The sample dependency [mid] is well keyed. *)
Lemma midAction_wellKeyed : FactOps.wellKeyed Sample.midAction.
Proof.
  split; intros k f; cbn.
  - intros [[<- <-]|[_ Hk]]%lookup_insert_Some; [done|].
    by rewrite lookup_empty in Hk.
  - intros [[<- <-]|[_ Hk]]%lookup_insert_Some; [done|].
    by rewrite lookup_empty in Hk.
Qed.

Lemma allFacts_iff_import_witness :
  (∀ obj f data,
     (obj, f) ∈ FactOps.allObjectFacts Sample.midAction ↔
     FactOps.importObjectFact (Some obj) (mkAFact (fact_type f) data) Sample.midAction
     = Ok (true, f))
  ∧ (∀ pkg f data,
       (Some pkg, f) ∈ FactOps.allPackageFacts Sample.midAction ↔
       FactOps.importPackageFact (Some pkg) (mkAFact (fact_type f) data) Sample.midAction
       = Ok (true, f))
  ∧ length (FactOps.allObjectFacts Sample.midAction) = size (objectFacts Sample.midAction)
  ∧ length (FactOps.allPackageFacts Sample.midAction)
    = size (packageFacts Sample.midAction).
Proof. exact (allFacts_iff_import Sample.midAction midAction_wellKeyed). Defined.

Lemma facts_stay_well_keyed_witness :
  let heap : gmap ActionPtr action := {[0 := Sample.midAction]} in
  let x := default Sample.midAction ((Sample.analyze heap 0).1.1 !! 0) in
  FactOps.wellKeyed x
  ∧ FactOps.wellKeyed
      (Exec.loadCachedFacts Sample.analyzer Sample.objectpathObject Sample.cacheGet
         Sample.pkgs x).1.1
  ∧ ∀ ptr, rt_isPtr (fact_type ptr) = true →
      (∀ obj, FactOps.importObjectFact (Some obj) ptr x =
         match objectFacts x !! (obj, fact_type ptr) with
         | Some v => Ok (true, v)
         | None => Ok (false, ptr)
         end)
      ∧ (∀ pkg, FactOps.importPackageFact (Some pkg) ptr x =
           match packageFacts x !! (Some pkg, fact_type ptr) with
           | Some v => Ok (true, v)
           | None => Ok (false, ptr)
           end).
Proof.
  intros heap x.
  apply (facts_stay_well_keyed Sample.analyzer Sample.objects Sample.objectPos
           Sample.objectpathFor Sample.objectpathObject Sample.cacheGet Sample.cachePut
           Sample.brokenEncode Sample.noDecode Sample.run false Sample.pkgs heap 0 0
           (λ ptr y Hy,
              eq_ind Sample.midAction FactOps.wellKeyed midAction_wellKeyed y
                (proj2 (proj1 (lookup_singleton_Some _ _ _ _) Hy)))
           0 x).
  vm_compute. reflexivity.
Defined.

(** ** Inheriting facts: the stores after [inheritFacts] *)

Section InheritUnion.

Import Exec.

Variable objects : ObjectPtr → Object.
Variable gobEncode : nat → analysis_Fact → error + list nat.
Variable gobDecode : list nat → rtype → error + analysis_Fact.
Variable pkgs : PackagePtr → Package.

Local Abbreviation inheritFacts := (Exec.inheritFacts objects gobEncode gobDecode pkgs).

(** Storing the entries of a list one after the other, when no key comes
    twice, is the union with the map the list stands for. *)
Lemma foldl_insert_union `{Countable K} {A} (l : list (K * A)) (m0 : gmap K A) :
  NoDup l.*1 →
  foldl (λ m kv, <[kv.1 := kv.2]> m) m0 l = list_to_map l ∪ m0.
Proof.
  revert m0. induction l as [|[k v] l IH]; intros m0 Hnd.
  { cbn. by rewrite (left_id_L ∅ (∪)). }
  rewrite fmap_cons in Hnd. apply NoDup_cons in Hnd as [Hk Hnd].
  cbn [foldl list_to_map foldr fst snd uncurry]. rewrite IH by done.
  change (foldr _ ∅ l) with (list_to_map l : gmap K A).
  rewrite <- insert_union_l. symmetry. apply insert_union_r.
  by apply not_elem_of_list_to_map_1.
Qed.

Lemma set_objectFacts_id x : set_objectFacts (objectFacts x) x = x.
Proof. by destruct x. Qed.

Lemma set_packageFacts_id x : set_packageFacts (packageFacts x) x = x.
Proof. by destruct x. Qed.

Lemma inheritObjectFacts_foldl dep l n x :
  inheritObjectFacts objects gobEncode gobDecode pkgs false dep l n x =
  (set_objectFacts
     (foldl (λ m kv, <[kv.1 := kv.2]> m) (objectFacts x)
        (filter (λ kv : objectFactKey * analysis_Fact,
                   exportedFrom (objects kv.1.1) (Types (pkgs (act_pkg dep))) = true) l))
     x, n, Ok tt).
Proof.
  revert x. induction l as [|[k f] l IH]; intros x.
  { cbn. by rewrite set_objectFacts_id. }
  cbn [Exec.inheritObjectFacts]. rewrite filter_cons. cbn [fst snd].
  destruct (exportedFrom (objects k.1) (Types (pkgs (act_pkg dep)))) eqn:Hexp; cbn [negb].
  - rewrite decide_True by done. rewrite IH. by destruct x.
  - rewrite decide_False by done. apply IH.
Qed.

Lemma inheritPackageFacts_foldl l n x :
  Forall (λ kv : packageFactKey * analysis_Fact, is_Some kv.1.1) l →
  inheritPackageFacts gobEncode gobDecode false l n x =
  (set_packageFacts (foldl (λ m kv, <[kv.1 := kv.2]> m) (packageFacts x) l) x, n, Ok tt).
Proof.
  revert x. induction l as [|[k f] l IH]; intros x Hl.
  { cbn. by rewrite set_packageFacts_id. }
  apply Forall_cons in Hl as [[q Hq] Hl]. cbn [Exec.inheritPackageFacts].
  cbn in Hq. rewrite Hq. rewrite IH by done. by destruct x.
Qed.

(** X11. What an action holds after [inheritFacts]: its object facts are
    those of the dependency that [exportedFrom] lets through, over its own
    (the dependency's fact wins under a common key); its package facts are
    all those of the dependency, unfiltered, over its own; nothing else of
    the action changes and no encoder is created.  The package facts of the
    dependency all name a package, as the closing debug call asks for its
    path. *)
Theorem inheritFacts_union n x dep :
  (∀ k f, packageFacts dep !! k = Some f → is_Some k.1) →
  inheritFacts n x dep =
    (set_packageFacts (packageFacts dep ∪ packageFacts x)
       (set_objectFacts
          (filter (λ kv : objectFactKey * analysis_Fact,
                     exportedFrom (objects kv.1.1) (Types (pkgs (act_pkg dep))) = true)
             (objectFacts dep) ∪ objectFacts x) x),
     n, Ok tt).
Proof.
  intros Hkeys. unfold Exec.inheritFacts. cbn zeta.
  rewrite inheritObjectFacts_foldl, inheritPackageFacts_foldl.
  2:{ apply Forall_forall. intros [k f] Hin%elem_of_map_to_list. by eapply Hkeys. }
  rewrite !foldl_insert_union.
  - rewrite list_to_map_to_list, <- map_filter_alt. by destruct x.
  - apply (sublist_NoDup _ (map_to_list (objectFacts dep)).*1);
      [apply NoDup_fst_map_to_list|].
    f_equiv. apply sublist_filter.
  - apply NoDup_fst_map_to_list.
Qed.

End InheritUnion.

(** The action of analyzer 1 on [root] inherits from [mid], whose object
    fact sits on an exported function of [mid]. *)
Lemma inheritFacts_union_witness :
  let x := Sample.actionOf 1 1 None true [1] None in
  Exec.inheritFacts Sample.objects Sample.brokenEncode Sample.noDecode Sample.pkgs 0 x
    Sample.midAction =
    (set_packageFacts (packageFacts Sample.midAction ∪ packageFacts x)
       (set_objectFacts
          (filter (λ kv : objectFactKey * analysis_Fact,
                     Exec.exportedFrom (Sample.objects kv.1.1)
                       (Types (Sample.pkgs (act_pkg Sample.midAction))) = true)
             (objectFacts Sample.midAction) ∪ objectFacts x) x),
     0, Ok tt).
Proof.
  intros x.
  apply (inheritFacts_union Sample.objects Sample.brokenEncode Sample.noDecode
           Sample.pkgs 0 x Sample.midAction).
  intros k f Hk. cbn in Hk.
  apply lookup_insert_Some in Hk as [[<- _]|[_ Hk]]; [by eexists|].
  by rewrite lookup_empty in Hk.
Defined.

(** ** Persisted facts load back *)

Section PersistLoad.

Import Exec FactOps.

Variable analyzer : AnalyzerPtr → Analyzer.
Variable objects : ObjectPtr → Object.
Variable objectpath_For : ObjectPtr → error + string.
Variable objectpath_Object : option TypesPkgPtr → string → error + ObjectPtr.
Variable cacheGet : PackagePtr → string → error + list Fact.
Variable pkgs : PackagePtr → Package.

Local Abbreviation factsToPersist := (Exec.factsToPersist objects objectpath_For pkgs).
Local Abbreviation objectFactRecord :=
  (Exec.objectFactRecord objects objectpath_For pkgs).
Local Abbreviation loadFacts := (Exec.loadFacts objectpath_Object pkgs).
Local Abbreviation loadPersistedFacts :=
  (Exec.loadPersistedFacts analyzer objectpath_Object cacheGet pkgs).

Lemma loadFacts_app l1 l2 y :
  loadFacts (l1 ++ l2) y =
  match loadFacts l1 y with
  | (y1, Ok _) => loadFacts l2 y1
  | r => r
  end.
Proof.
  revert y. induction l1 as [|f l1 IH]; intros y; [done|].
  cbn [app Exec.loadFacts]. destruct (decide _).
  - by destruct (factType (Fact_Fact f)).
  - destruct (objectpath_Object _ _); [done|]. by destruct (factType (Fact_Fact f)).
Qed.

(** Loading the records of package facts stores each under the package of
    the action and the type of the fact. *)
Lemma loadFacts_package_records (l : list (packageFactKey * analysis_Fact)) y :
  Forall (λ kv, kv.1 = (Types (pkgs (act_pkg y)), fact_type kv.2)
                ∧ rt_isPtr (fact_type kv.2) = true) l →
  loadFacts ((λ kv, mkFact EmptyString kv.2) <$> l) y =
  (set_packageFacts (foldl (λ m kv, <[kv.1 := kv.2]> m) (packageFacts y) l) y, Ok tt).
Proof.
  revert y. induction l as [|[k f] l IH]; intros y Hl.
  { cbn. by destruct y. }
  apply Forall_cons in Hl as [[Hk Hptr] Hl]. cbn in Hk, Hptr. subst k.
  cbn [fmap list_fmap Exec.loadFacts Path Fact_Fact snd]. rewrite decide_True by done.
  rewrite factType_ptr by done. rewrite IH by done. by destruct y.
Qed.

(** Loading the records of object facts stores each under the object its
    path resolves to and the type of the fact. *)
Lemma loadFacts_object_records x (l : list (objectFactKey * analysis_Fact)) y :
  act_pkg y = act_pkg x →
  (∀ obj path,
     Object_Pkg (objects obj) = Types (pkgs (act_pkg x)) →
     objectpath_For obj = inr path →
     path ≠ EmptyString
     ∧ objectpath_Object (Types (pkgs (act_pkg x))) path = inr obj) →
  Forall (λ kv, kv.1.2 = fact_type kv.2 ∧ rt_isPtr (fact_type kv.2) = true) l →
  loadFacts (omap (objectFactRecord x) l) y =
  (set_objectFacts
     (foldl (λ m kv, <[kv.1 := kv.2]> m) (objectFacts y)
        (filter (λ kv, is_Some (objectFactRecord x kv)) l)) y, Ok tt).
Proof.
  intros Hpkg Hpath. revert y Hpkg. induction l as [|[[obj t] f] l IH]; intros y Hpkg Hl.
  { cbn. by destruct y. }
  apply Forall_cons in Hl as [[Ht Hptr] Hl]. cbn in Ht, Hptr. subst t.
  cbn [omap list_omap]. rewrite filter_cons.
  destruct (objectFactRecord x (obj, fact_type f, f)) as [r|] eqn:Hr.
  - rewrite decide_True by (by eexists).
    unfold Exec.objectFactRecord in Hr. cbn [fst snd] in Hr.
    destruct (decide _) as [Hown|]; [|done].
    destruct (objectpath_For obj) as [|path] eqn:Hfor; [done|]. injection Hr as <-.
    destruct (Hpath obj path Hown Hfor) as [Hne Hobj].
    cbn [Exec.loadFacts Path Fact_Fact]. rewrite decide_False by done.
    rewrite Hpkg, Hobj, factType_ptr by done. rewrite IH by done. by destruct y.
  - rewrite decide_False by (by intros [? ?]). by apply IH.
Qed.

(** X12. Persist, then load.  When the cache hands back the records
    [persistFactsToCache] wrote for an action whose facts sit under their own
    pointer types, and object paths resolve to the objects they were made
    for, [loadPersistedFacts] on an action of the same analyzer and package
    returns [true] after one cache read and no warning, and restores, each
    under its key, the package facts of the action's own package and the
    object facts that were eligible for persisting, over what the loading
    action held. *)
Theorem persisted_facts_load_back x y :
  wellKeyed x →
  act_a y = act_a x → act_pkg y = act_pkg x →
  (∀ obj path,
     Object_Pkg (objects obj) = Types (pkgs (act_pkg x)) →
     objectpath_For obj = inr path →
     path ≠ EmptyString
     ∧ objectpath_Object (Types (pkgs (act_pkg x))) path = inr obj) →
  cacheGet (act_pkg x) (factsKey analyzer (act_a x)) = inr (factsToPersist x) →
  loadPersistedFacts y =
    (set_objectFacts
       (filter (λ kv, is_Some (objectFactRecord x kv)) (objectFacts x) ∪ objectFacts y)
       (set_packageFacts
          (filter (λ kv : packageFactKey * analysis_Fact,
                     kv.1.1 = Types (pkgs (act_pkg x))) (packageFacts x)
           ∪ packageFacts y) y),
     [EvCacheGet (act_pkg x) (factsKey analyzer (act_a x))], Ok true).
Proof.
  intros [Hobj Hpk] Ha Hp Hpath Hcache. unfold Exec.loadPersistedFacts.
  rewrite Ha, Hp, Hcache. unfold Exec.factsToPersist.
  rewrite foldl_persistPackageFact, foldl_persistObjectFact. cbn [app].
  rewrite loadFacts_app, loadFacts_package_records.
  2:{ apply Forall_forall. intros [[pkg t] f] [Hown Hin%elem_of_map_to_list]%list_elem_of_filter.
      cbn in Hown. subst pkg. destruct (Hpk _ _ Hin) as [Ht Hptr]. cbn in Ht, Hptr.
      subst t. by rewrite Hp. }
  rewrite (loadFacts_object_records x); [|done|done|].
  2:{ apply Forall_forall. intros [[obj t] f] Hin%elem_of_map_to_list.
      destruct (Hobj _ _ Hin) as [Ht Hptr]. cbn in Ht, Hptr. by subst t. }
  cbn [objectFacts set_packageFacts].
  rewrite !foldl_insert_union.
  - rewrite <- !map_filter_alt. by destruct y.
  - apply (sublist_NoDup _ (map_to_list (packageFacts x)).*1);
      [apply NoDup_fst_map_to_list|].
    f_equiv. apply sublist_filter.
  - apply (sublist_NoDup _ (map_to_list (objectFacts x)).*1);
      [apply NoDup_fst_map_to_list|].
    f_equiv. apply sublist_filter.
Qed.

End PersistLoad.

(** The facts of [mid] come back from a cache that returns what was
    written for it. *)
Lemma persisted_facts_load_back_witness :
  let x := Sample.midAction in
  let y := Sample.actionOf 1 2 None false [] None in
  let cache := λ (p : PackagePtr) (key : string),
    @inr error _ (Exec.factsToPersist Sample.objects Sample.objectpathFor Sample.pkgs x) in
  Exec.loadPersistedFacts Sample.analyzer Sample.objectpathObject cache Sample.pkgs y =
    (set_objectFacts
       (filter (λ kv, is_Some (Exec.objectFactRecord Sample.objects Sample.objectpathFor
                                 Sample.pkgs x kv)) (objectFacts x) ∪ objectFacts y)
       (set_packageFacts
          (filter (λ kv : packageFactKey * analysis_Fact,
                     kv.1.1 = Types (Sample.pkgs (act_pkg x))) (packageFacts x)
           ∪ packageFacts y) y),
     [Exec.EvCacheGet (act_pkg x) (Exec.factsKey Sample.analyzer (act_a x))], Ok true).
Proof.
  intros x y cache.
  apply (persisted_facts_load_back Sample.analyzer Sample.objects Sample.objectpathFor
           Sample.objectpathObject cache Sample.pkgs x y midAction_wellKeyed);
    [reflexivity..| |reflexivity].
  intros obj path Hown Hfor. injection Hfor as <-. split; [done|].
  unfold Sample.objectpathObject. f_equal.
  unfold Sample.objects in Hown.
  destruct (decide (obj = 1%positive)) as [->|]; [done|].
  by destruct (decide (obj = 2%positive)).
Defined.

(** ** [action.analyze]: what it leaves in the action *)

Section AnalyzeOutcome.

Import Exec.

Variable analyzer : AnalyzerPtr → Analyzer.
Variable objects : ObjectPtr → Object.
Variable Object_Pos : ObjectPtr → nat.
Variable objectpath_For : ObjectPtr → error + string.
Variable cachePut : PackagePtr → string → list Fact → option error.
Variable gobEncode : nat → analysis_Fact → error + list nat.
Variable gobDecode : list nat → rtype → error + analysis_Fact.
Variable Run : Pass → action → RunBehaviour.
Variable isFactsDebug : bool.
Variable pkgs : PackagePtr → Package.

Local Abbreviation analyze :=
  (Exec.analyze analyzer objects Object_Pos objectpath_For cachePut gobEncode
     gobDecode Run isFactsDebug pkgs).
Local Abbreviation runPass :=
  (Exec.runPass analyzer objects Object_Pos objectpath_For cachePut Run
     isFactsDebug pkgs).
Local Abbreviation runCalls :=
  (Exec.runCalls analyzer objects Object_Pos isFactsDebug pkgs).
Local Abbreviation plumbDeps := (Exec.plumbDeps objects gobEncode gobDecode pkgs).
Local Abbreviation inheritFacts := (Exec.inheritFacts objects gobEncode gobDecode pkgs).
Local Abbreviation exportObjectFact :=
  (Exec.exportObjectFact analyzer objects Object_Pos isFactsDebug pkgs).
Local Abbreviation exportPackageFact :=
  (Exec.exportPackageFact analyzer isFactsDebug pkgs).
Local Abbreviation action_String := (Exec.action_String analyzer pkgs).
Local Abbreviation failedDeps := (Exec.failedDeps analyzer pkgs).

(** The part of an action that makes the graph and steers the loader: its
    key, its dependencies and its flags. *)
Local Abbreviation skeleton := (λ x : action,
  (action_key x, deps x, isroot x, isInitialPkg x, needAnalyzeSource x,
   loadCachedFactsDone x, loadCachedFactsOk x)).

Lemma failedDeps_filter ds :
  failedDeps ds = action_String <$> filter (λ d, is_Some (act_err d)) ds.
Proof.
  induction ds as [|d ds IH]; [done|]. cbn [Exec.failedDeps]. rewrite filter_cons.
  destruct (act_err d) as [e|].
  - rewrite decide_True by (by eexists). by rewrite fmap_cons, IH.
  - by rewrite decide_False by (by intros [? ?]).
Qed.

(** X13. Failed prerequisites.  When a dependency of an action that needs
    source analysis has its error set, [analyze] sets the action's error to
    the message that lists the failed dependencies, by name and in ascending
    order, and does nothing else: the analyzer is not run, nothing is read
    from or written to the cache, and the pass, facts, result and
    diagnostics of the action are as they were. *)
Theorem analyze_failed_prerequisites heap act x ds n :
  heap !! act = Some x →
  needAnalyzeSource x = true →
  mapM (λ d, heap !! d) (deps x) = Some ds →
  Exists (λ d, is_Some (act_err d)) ds →
  ∃ names,
    analyze heap act n =
      (<[act := set_err (Some (errorString ("failed prerequisites: "
                                            +:+ strings_Join names ", "))) x]> heap,
       [], Ok tt)
    ∧ Sorted string_le names
    ∧ names ≡ₚ action_String <$> filter (λ d, is_Some (act_err d)) ds
    ∧ names ≠ [].
Proof.
  intros Hx Hneed Hds Hfailed.
  exists (sort_Strings (failedDeps ds)).
  assert (failedDeps ds ≠ []) as Hne.
  { rewrite failedDeps_filter. apply Exists_exists in Hfailed as (d & Hd & He).
    intros Hnil. apply fmap_nil_inv in Hnil.
    assert (d ∈ filter (λ d, is_Some (act_err d)) ds) as Hin
      by (by apply list_elem_of_filter).
    rewrite Hnil in Hin. by apply elem_of_nil in Hin. }
  split; [|split; [|split]].
  - unfold Exec.analyze. rewrite Hx, Hneed, Hds. cbn [negb].
    by destruct (failedDeps ds).
  - apply Sorted_merge_sort. apply _.
  - unfold sort_Strings. by rewrite merge_sort_Permutation, failedDeps_filter.
  - intros Hnil. apply Hne. apply Permutation_nil_r.
    rewrite <- Hnil. unfold sort_Strings. by rewrite merge_sort_Permutation.
Qed.

(** The skeleton of an action is not touched by what [analyze] does to it. *)
Lemma inheritFacts_skeleton n x dep :
  skeleton (inheritFacts n x dep).1.1 = skeleton x.
Proof.
  unfold Exec.inheritFacts. cbn zeta.
  assert (∀ l n x, skeleton (inheritObjectFacts objects gobEncode gobDecode pkgs false
                               dep l n x).1.1 = skeleton x) as Hobj.
  { clear. intros l n. induction l as [|[k f] l IH]; intros x; [done|].
    cbn [Exec.inheritObjectFacts]. destruct (negb _); [apply IH|]. by rewrite IH. }
  assert (∀ l n x, skeleton (inheritPackageFacts gobEncode gobDecode false
                               l n x).1.1 = skeleton x) as Hpkg.
  { clear. intros l n. induction l as [|[k f] l IH]; intros x; [done|].
    cbn [Exec.inheritPackageFacts]. destruct k.1; [|done]. by rewrite IH. }
  specialize (Hobj (map_to_list (objectFacts dep)) n x).
  destruct (inheritObjectFacts _ _ _ _ _ _ _ _ _) as [[x1 n1] [[]| |]]; [|done..].
  by rewrite Hpkg.
Qed.

Lemma plumbDeps_skeleton ds inputs n x :
  skeleton (plumbDeps ds inputs n x).1.1.2 = skeleton x.
Proof.
  revert inputs n x. induction ds as [|dep ds IH]; intros inputs n x; [done|].
  cbn [Exec.plumbDeps]. destruct (decide _); [apply IH|].
  destruct (decide _); [|apply IH].
  pose proof (inheritFacts_skeleton n x dep) as Hsk.
  destruct (inheritFacts n x dep) as [[x' n'] [[]| |]]; [|done..].
  by rewrite IH.
Qed.

Lemma exportObjectFact_skeleton obj fact x :
  skeleton (exportObjectFact obj fact x).1.1 = skeleton x
  ∧ act_pass (exportObjectFact obj fact x).1.1 = act_pass x.
Proof.
  unfold Exec.exportObjectFact. destruct (act_pass x) as [pass|] eqn:Hpass; [|done].
  destruct (negb _); [done|]. destruct (decide _); [done|].
  by destruct (factType fact).
Qed.

Lemma exportPackageFact_skeleton fact x :
  skeleton (exportPackageFact fact x).1.1 = skeleton x
  ∧ act_pass (exportPackageFact fact x).1.1 = act_pass x.
Proof.
  unfold Exec.exportPackageFact. destruct (act_pass x) as [pass|] eqn:Hpass; [|done].
  destruct (negb _); [done|]. destruct (factType fact); [|done..].
  destruct (Pass_Files pass) as [|[f|] ?]; [done| |done]. by destruct (Pass_Pkg pass).
Qed.

Lemma runCalls_skeleton cs evs x :
  skeleton (runCalls cs evs x).1.1 = skeleton x
  ∧ act_pass (runCalls cs evs x).1.1 = act_pass x.
Proof.
  revert evs x. induction cs as [|c cs IH]; intros evs x; [done|].
  destruct c as [d|obj fact|fact]; cbn [Exec.runCalls].
  - destruct (IH evs (set_diagnostics (diagnostics x ++ [d]) x)) as [-> ->]. done.
  - destruct (exportObjectFact_skeleton obj fact x) as [Hsk Hpass].
    destruct (exportObjectFact obj fact x) as [[x' evs'] [[]| |]]; [|done..].
    destruct (IH (evs ++ evs') x') as [-> ->]. done.
  - destruct (exportPackageFact_skeleton fact x) as [Hsk Hpass].
    destruct (exportPackageFact fact x) as [[x' evs'] [[]| |]]; [|done..].
    destruct (IH (evs ++ evs') x') as [-> ->]. done.
Qed.

Lemma closePass_skeleton x : skeleton (closePass x) = skeleton x.
Proof. unfold closePass. by destruct (act_pass x). Qed.

Lemma runPass_skeleton inputs x : skeleton (runPass inputs x).1.1 = skeleton x.
Proof.
  unfold Exec.runPass. cbn zeta. destruct (_ && _).
  { by destruct (persistFactsToCache _ _ _ _ _ _). }
  set (x0 := set_pass _ x).
  destruct (runCalls_skeleton
              (calls (Run (mkPass (act_a x) (Syntax (pkgs (act_pkg x)))
                             (Types (pkgs (act_pkg x))) inputs true true) x0))
              [EvRun (act_a x0) (act_pkg x0)] x0) as [Hsk _].
  destruct (runCalls _ _ _) as [[x1 evs1] [[]| |]]; [|done..].
  destruct (returns _) as [[r err]| |]; [|done..].
  destruct (persistFactsToCache _ _ _ _ _ _). cbn [fst].
  by rewrite closePass_skeleton.
Qed.

(** X14. [analyze] leaves the graph as it is.  Whatever its outcome, it
    touches no action but its own, allocates and frees none, and keeps the
    own action's analyzer, package, dependencies, root mark and loader
    flags; so a heap in which no dependency dangles stays one. *)
Theorem analyze_keeps_graph heap act n :
  dom (analyze heap act n).1.1 = dom heap
  ∧ (∀ ptr, ptr ≠ act → (analyze heap act n).1.1 !! ptr = heap !! ptr)
  ∧ (∀ ptr x, heap !! ptr = Some x →
       ∃ x', (analyze heap act n).1.1 !! ptr = Some x'
             ∧ action_key x' = action_key x ∧ deps x' = deps x
             ∧ isroot x' = isroot x
             ∧ isInitialPkg x' = isInitialPkg x
             ∧ needAnalyzeSource x' = needAnalyzeSource x
             ∧ loadCachedFactsDone x' = loadCachedFactsDone x
             ∧ loadCachedFactsOk x' = loadCachedFactsOk x)
  ∧ (Collector.closed heap → Collector.closed (analyze heap act n).1.1).
Proof.
  assert ((analyze heap act n).1.1 = heap
          ∨ ∃ x y, heap !! act = Some x ∧ skeleton y = skeleton x
                   ∧ (analyze heap act n).1.1 = <[act := y]> heap) as Hy.
  { unfold Exec.analyze. destruct (heap !! act) as [x|] eqn:Hx; [|by left].
    destruct (negb _); [by left|].
    destruct (mapM _ _) as [ds|]; [|by left].
    destruct (failedDeps ds).
    - pose proof (plumbDeps_skeleton ds ∅ n x) as Hsk.
      destruct (plumbDeps ds ∅ n x) as [[[inputs x1] n1] [[]| |]];
        [|right; by exists x, x1..].
      pose proof (runPass_skeleton inputs x1) as Hsk2.
      destruct (runPass inputs x1) as [[x2 evs] res]. right. exists x, x2.
      split; [done|]. split; [|done]. cbn [fst snd] in *. congruence.
    - right. eexists x, _. split; [done|]. split; [|done]. done. }
  assert (dom (analyze heap act n).1.1 = dom heap) as Hdom.
  { destruct Hy as [->|(x0 & y & Hx0 & _ & ->)]; [done|].
    rewrite dom_insert_L. apply elem_of_dom_2 in Hx0. set_solver. }
  assert (∀ ptr x, heap !! ptr = Some x →
            ∃ x', (analyze heap act n).1.1 !! ptr = Some x' ∧ skeleton x' = skeleton x)
    as Hall.
  { intros ptr x Hx. destruct Hy as [->|(x0 & y & Hx0 & Hsk & ->)]; [by exists x|].
    destruct (decide (ptr = act)) as [->|Hne].
    - exists y. rewrite lookup_insert_eq. split; [done|]. congruence.
    - exists x. by rewrite lookup_insert_ne. }
  split; [done|]. split; [|split].
  - intros ptr Hne. destruct Hy as [->|(x0 & y & _ & _ & ->)]; [done|].
    by rewrite lookup_insert_ne.
  - intros ptr x Hx. destruct (Hall ptr x Hx) as (x' & Hx' & Hsk). exists x'.
    split; [done|]. injection Hsk. intros. unfold action_key.
    repeat split; congruence.
  - intros Hclosed a x' Hx' d Hd. rewrite Hdom.
    assert (is_Some (heap !! a)) as [x Hx].
    { apply elem_of_dom. rewrite <- Hdom. apply elem_of_dom. by eexists. }
    destruct (Hall a x Hx) as (x'' & Hx'' & Hsk). rewrite Hx' in Hx''.
    injection Hx'' as <-. injection Hsk as _ _ Hdeps _ _ _ _ _.
    rewrite Hdeps in Hd. by eapply Hclosed.
Qed.

Lemma closePass_fields x :
  act_err (closePass x) = act_err x
  ∧ result (closePass x) = result x
  ∧ act_pass (closePass x) =
      (λ p, mkPass (Pass_Analyzer p) (Pass_Files p) (Pass_Pkg p) (Pass_ResultOf p)
              false false) <$> act_pass x.
Proof. unfold closePass. destruct (act_pass x) eqn:E; cbn; by rewrite ?E. Qed.

(** What a run of the pass that returns leaves in the action. *)
Lemma runPass_Ok inputs x x' evs :
  runPass inputs x = (x', evs, Ok tt) →
  act_pass x' = Some (mkPass (act_a x) (Syntax (pkgs (act_pkg x)))
                        (Types (pkgs (act_pkg x))) inputs false false)
  ∧ (act_err x' = None →
     fst <$> result x' = ResultType (analyzer (act_a x))
     ∧ EvRun (act_a x) (act_pkg x) ∈ evs
     ∧ IllTyped (pkgs (act_pkg x)) && negb (RunDespiteErrors (analyzer (act_a x))) = false).
Proof.
  unfold Exec.runPass. cbn zeta. destruct (_ && _) eqn:Hgate.
  { destruct (persistFactsToCache _ _ _ _ _ _). intros [= <- _]. done. }
  set (pass := mkPass _ _ _ _ _ _). set (x0 := set_pass _ x).
  destruct (runCalls_skeleton (calls (Run pass x0)) [EvRun (act_a x0) (act_pkg x0)] x0)
    as [Hsk Hpass].
  destruct (runCalls_events analyzer objects Object_Pos isFactsDebug pkgs
              (calls (Run pass x0)) [EvRun (act_a x0) (act_pkg x0)] x0) as [evs' Hevs].
  destruct (runCalls _ _ _) as [[x1 evs1] [[]| |]]; [|done..].
  destruct (returns _) as [[r err]| |]; [|done..].
  destruct (persistFactsToCache _ _ _ _ _ _) as [pevs perr]. intros [= <- <-].
  cbn [fst snd] in Hsk, Hpass, Hevs. injection Hsk as Ha Hp _ _ _ _ _ _.
  match goal with
  | |- context [closePass ?y] => destruct (closePass_fields y) as (-> & -> & ->)
  end.
  cbn [act_err result act_pass set_err set_result act_a]. rewrite Hpass. split; [done|].
  destruct err as [e|]; [done|]. destruct (decide _) as [|Heq]; [done|]. intros _.
  apply dec_stable in Heq. rewrite Ha in Heq. cbn [act_a set_pass] in Heq.
  split; [done|]. split; [|done]. rewrite Hevs.
  apply elem_of_app. left. by left.
Qed.


(** X16. Exports are refused after the run.  When [analyze] has run the pass
    of an action and returned, the action's pass has both export callbacks
    cleared, and a later [exportObjectFact] or [exportPackageFact] on the
    action panics with the called-after-Run message and stores nothing. *)
Theorem analyze_closes_pass heap act x ds n heap' evs :
  heap !! act = Some x →
  needAnalyzeSource x = true →
  mapM (λ d, heap !! d) (deps x) = Some ds →
  Forall (λ d, act_err d = None) ds →
  analyze heap act n = (heap', evs, Ok tt) →
  ∃ x' pass,
    heap' !! act = Some x'
    ∧ act_pass x' = Some pass
    ∧ Pass_ExportObjectFact pass = false ∧ Pass_ExportPackageFact pass = false
    ∧ (∀ obj fact,
         exportObjectFact obj fact x' =
           (x', [], Panic (action_String x
                           +:+ ": Pass.ExportObjectFact called after Run")))
    ∧ (∀ fact,
         exportPackageFact fact x' =
           (x', [], Panic (action_String x
                           +:+ ": Pass.ExportPackageFact called after Run"))).
Proof.
  intros Hx Hneed Hds Hok. unfold Exec.analyze. rewrite Hx, Hneed, Hds. cbn [negb].
  rewrite failedDeps_nil by done.
  pose proof (plumbDeps_skeleton ds ∅ n x) as Hsk.
  destruct (plumbDeps ds ∅ n x) as [[[inputs x1] n1] [[]| |]]; [|done..].
  pose proof (runPass_skeleton inputs x1) as Hsk2.
  destruct (runPass inputs x1) as [[x2 evs2] res] eqn:Hrun.
  intros [= <- <- ->].
  destruct (runPass_Ok _ _ _ _ Hrun) as [Hpass _].
  cbn [fst snd] in Hsk, Hsk2. rewrite Hsk in Hsk2.
  injection Hsk2 as Ha Hp _ _ _ _ _ _.
  exists x2, (mkPass (act_a x1) (Syntax (pkgs (act_pkg x1)))
                (Types (pkgs (act_pkg x1))) inputs false false).
  split; [apply lookup_insert_eq|]. split; [done|]. split; [done|]. split; [done|].
  split.
  - intros obj fact. unfold Exec.exportObjectFact, Exec.action_String.
    by rewrite Hpass, Ha, Hp.
  - intros fact. unfold Exec.exportPackageFact, Exec.action_String.
    by rewrite Hpass, Ha, Hp.
Qed.

(** The inputs [plumbDeps] collects. *)
Lemma plumbDeps_inputs ds : ∀ inputs0 n x inputs x1 n1,
  plumbDeps ds inputs0 n x = (inputs, x1, n1, Ok tt) →
  (∀ a r, inputs !! a = Some r →
     inputs0 !! a = Some r
     ∨ ∃ d, d ∈ ds ∧ act_pkg d = act_pkg x ∧ act_a d = a ∧ result d = r)
  ∧ (∀ a, is_Some (inputs0 !! a) → is_Some (inputs !! a))
  ∧ (∀ d, d ∈ ds → act_pkg d = act_pkg x → is_Some (inputs !! act_a d))
  ∧ (∀ i d, ds !! i = Some d → act_pkg d = act_pkg x →
       (∀ j d', ds !! j = Some d' → i < j → act_pkg d' = act_pkg x →
          act_a d' ≠ act_a d) →
       inputs !! act_a d = Some (result d))
  ∧ (∀ a, (∀ d, d ∈ ds → act_pkg d = act_pkg x → act_a d ≠ a) →
       inputs !! a = inputs0 !! a).
Proof.
  induction ds as [|dep ds IH]; intros inputs0 n x inputs x1 n1 Hplumb.
  { injection Hplumb as <- _ _. split; [by left|]. split; [done|].
    split; [by intros ? ?%elem_of_nil|]. split; [done|]. done. }
  cbn [Exec.plumbDeps] in Hplumb.
  assert (∀ inputs0' x',
            act_pkg x' = act_pkg x →
            plumbDeps ds inputs0' n1 x' = (inputs, x1, n1, Ok tt) → True) as _ by done.
  destruct (decide (act_pkg dep = act_pkg x)) as [Hh|Hv].
  - destruct (IH _ _ _ _ _ _ Hplumb) as (H1 & H2 & H3 & H4 & H5).
    split; [|split; [|split; [|split]]].
    + intros a r Ha. destruct (H1 a r Ha) as [Hin|(d & Hd & ?)].
      * apply lookup_insert_Some in Hin as [[<- <-]|[_ Hin]]; [|by left].
        right. exists dep. split; [by left|done].
      * right. exists d. split; [by right|done].
    + intros a [r Ha]. apply H2. destruct (decide (act_a dep = a)) as [<-|Hne].
      * rewrite lookup_insert_eq. by eexists.
      * rewrite lookup_insert_ne by done. by eexists.
    + intros d [->|Hd]%elem_of_cons Hp; [|by apply H3].
      apply H2. rewrite lookup_insert_eq. by eexists.
    + intros [|i] d Hi Hp Hlast.
      * injection Hi as <-. rewrite H5; [apply lookup_insert_eq|].
        intros d' Hd' Hp'. apply list_elem_of_lookup in Hd' as [j Hj].
        apply (Hlast (S j) d' Hj); [lia|done].
      * apply (H4 i d Hi Hp). intros j d' Hj Hij. apply (Hlast (S j) d' Hj). lia.
    + intros a Hnone. rewrite H5.
      * apply lookup_insert_ne. apply Hnone; [by left|done].
      * intros d Hd. apply Hnone. by right.
  - assert (∃ x' n', act_pkg x' = act_pkg x
                     ∧ plumbDeps ds inputs0 n' x' = (inputs, x1, n1, Ok tt))
      as (x' & n' & Hp' & Hrest).
    { destruct (decide _).
      - pose proof (inheritFacts_skeleton n x dep) as Hsk.
        destruct (inheritFacts n x dep) as [[x' n'] [[]| |]]; [|done..].
        exists x', n'. split; [|done]. cbn [fst] in Hsk.
        by injection Hsk as _ Hp _ _ _ _ _ _.
      - by exists x, n. }
    destruct (IH _ _ _ _ _ _ Hrest) as (H1 & H2 & H3 & H4 & H5). rewrite Hp' in *.
    split; [|split; [|split; [|split]]].
    + intros a r Ha. destruct (H1 a r Ha) as [Hin|(d & Hd & ?)]; [by left|].
      right. exists d. split; [by right|done].
    + done.
    + intros d [->|Hd]%elem_of_cons Hp; [done|by apply H3].
    + intros [|i] d Hi Hp Hlast.
      * injection Hi as <-. done.
      * apply (H4 i d Hi Hp). intros j d' Hj Hij. apply (Hlast (S j) d' Hj). lia.
    + intros a Hnone. apply H5. intros d Hd. apply Hnone. by right.
Qed.

(** X17. What the analyzer sees of its prerequisites.  When [analyze] has
    run the pass of an action and returned, the [ResultOf] map of the pass
    has an entry for an analyzer exactly when the action has a dependency on
    its own package with that analyzer, and the entry is the result that
    dependency holds (the last such dependency, should two share the
    analyzer); a dependency on another package contributes none. *)
Theorem analyze_ResultOf heap act x ds n heap' evs :
  heap !! act = Some x →
  needAnalyzeSource x = true →
  mapM (λ d, heap !! d) (deps x) = Some ds →
  Forall (λ d, act_err d = None) ds →
  analyze heap act n = (heap', evs, Ok tt) →
  ∃ x' pass,
    heap' !! act = Some x' ∧ act_pass x' = Some pass
    ∧ (∀ a, is_Some (Pass_ResultOf pass !! a) ↔
            ∃ d, d ∈ ds ∧ act_pkg d = act_pkg x ∧ act_a d = a)
    ∧ (∀ a r, Pass_ResultOf pass !! a = Some r →
         ∃ d, d ∈ ds ∧ act_pkg d = act_pkg x ∧ act_a d = a ∧ result d = r)
    ∧ (∀ i d, ds !! i = Some d → act_pkg d = act_pkg x →
         (∀ j d', ds !! j = Some d' → i < j → act_pkg d' = act_pkg x →
            act_a d' ≠ act_a d) →
         Pass_ResultOf pass !! act_a d = Some (result d)).
Proof.
  intros Hx Hneed Hds Hok. unfold Exec.analyze. rewrite Hx, Hneed, Hds. cbn [negb].
  rewrite failedDeps_nil by done.
  destruct (plumbDeps ds ∅ n x) as [[[inputs x1] n1] [[]| |]] eqn:Hplumb; [|done..].
  destruct (runPass inputs x1) as [[x2 evs2] res] eqn:Hrun.
  intros [= <- <- ->].
  destruct (runPass_Ok _ _ _ _ Hrun) as [Hpass _].
  destruct (plumbDeps_inputs _ _ _ _ _ _ _ Hplumb) as (H1 & _ & H3 & H4 & _).
  eexists x2, _. split; [apply lookup_insert_eq|]. split; [exact Hpass|].
  cbn [Pass_ResultOf]. split; [|split].
  - intros a. split.
    + intros [r Hr]. destruct (H1 a r Hr) as [Hin|(d & Hd & Hp & Ha & _)].
      * by rewrite lookup_empty in Hin.
      * by exists d.
    + intros (d & Hd & Hp & <-). by apply H3.
  - intros a r Hr. destruct (H1 a r Hr) as [Hin|?]; [|done].
    by rewrite lookup_empty in Hin.
  - done.
Qed.

End AnalyzeOutcome.

(** The action of analyzer 2 on [root] with two failed dependencies. *)
Lemma analyze_failed_prerequisites_witness :
  let d1 := Sample.actionOf 1 1 None true [] (Some (errorString "boom")) in
  let d2 := Sample.actionOf 1 3 None true [] (Some (errorString "boom")) in
  let x := Sample.actionOf 2 1 None true [1; 2] None in
  let heap : gmap ActionPtr action := <[0 := x]> (<[1 := d1]> (<[2 := d2]> ∅)) in
  ∃ names,
    Sample.analyze heap 0 =
      (<[0 := set_err (Some (errorString ("failed prerequisites: "
                                          +:+ strings_Join names ", "))) x]> heap,
       [], Ok tt)
    ∧ Sorted string_le names
    ∧ names ≡ₚ Exec.action_String Sample.analyzer Sample.pkgs
                 <$> filter (λ d, is_Some (act_err d)) [d1; d2]
    ∧ names ≠ [].
Proof.
  intros d1 d2 x heap.
  apply (analyze_failed_prerequisites Sample.analyzer Sample.objects Sample.objectPos
           Sample.objectpathFor Sample.cachePut Sample.brokenEncode Sample.noDecode
           Sample.run false Sample.pkgs heap 0 x [d1; d2] 0); [reflexivity..|].
  apply Exists_cons_hd. by eexists.
Defined.


Lemma analyze_closes_pass_witness :
  let d := set_result (Some (Sample.factT, 5)) (Sample.actionOf 1 1 None true [] None) in
  let x := Sample.actionOf 2 1 None true [1] None in
  let heap : gmap ActionPtr action := <[0 := x]> (<[1 := d]> ∅) in
  ∃ x' pass,
    (Sample.analyze heap 0).1.1 !! 0 = Some x'
    ∧ act_pass x' = Some pass
    ∧ Pass_ExportObjectFact pass = false ∧ Pass_ExportPackageFact pass = false
    ∧ (∀ obj fact,
         Exec.exportObjectFact Sample.analyzer Sample.objects Sample.objectPos false
           Sample.pkgs obj fact x' =
           (x', [], Panic (Exec.action_String Sample.analyzer Sample.pkgs x
                           +:+ ": Pass.ExportObjectFact called after Run")))
    ∧ (∀ fact,
         Exec.exportPackageFact Sample.analyzer false Sample.pkgs fact x' =
           (x', [], Panic (Exec.action_String Sample.analyzer Sample.pkgs x
                           +:+ ": Pass.ExportPackageFact called after Run"))).
Proof.
  intros d x heap.
  apply (analyze_closes_pass Sample.analyzer Sample.objects Sample.objectPos
           Sample.objectpathFor Sample.cachePut Sample.brokenEncode Sample.noDecode
           Sample.run false Sample.pkgs heap 0 x [d] 0 (Sample.analyze heap 0).1.1
           (Sample.analyze heap 0).1.2); [reflexivity..| |vm_compute; reflexivity].
  by repeat constructor.
Defined.

Lemma analyze_ResultOf_witness :
  let d := set_result (Some (Sample.factT, 5)) (Sample.actionOf 1 1 None true [] None) in
  let x := Sample.actionOf 2 1 None true [1] None in
  let heap : gmap ActionPtr action := <[0 := x]> (<[1 := d]> ∅) in
  ∃ x' pass,
    (Sample.analyze heap 0).1.1 !! 0 = Some x' ∧ act_pass x' = Some pass
    ∧ (∀ a, is_Some (Pass_ResultOf pass !! a) ↔
            ∃ d', d' ∈ [d] ∧ act_pkg d' = act_pkg x ∧ act_a d' = a)
    ∧ (∀ a r, Pass_ResultOf pass !! a = Some r →
         ∃ d', d' ∈ [d] ∧ act_pkg d' = act_pkg x ∧ act_a d' = a ∧ result d' = r)
    ∧ (∀ i d0, [d] !! i = Some d0 → act_pkg d0 = act_pkg x →
         (∀ j d', [d] !! j = Some d' → i < j → act_pkg d' = act_pkg x →
            act_a d' ≠ act_a d0) →
         Pass_ResultOf pass !! act_a d0 = Some (result d0)).
Proof.
  intros d x heap.
  apply (analyze_ResultOf Sample.analyzer Sample.objects Sample.objectPos
           Sample.objectpathFor Sample.cachePut Sample.brokenEncode Sample.noDecode
           Sample.run false Sample.pkgs heap 0 x [d] 0 (Sample.analyze heap 0).1.1
           (Sample.analyze heap 0).1.2); [reflexivity..| |vm_compute; reflexivity].
  by repeat constructor.
Defined.

(** ** The loader: what a load writes *)

Section LoaderWrites.

Import Exec Loader.

Variable parser_ParseFile : string → error + File.
Variable types_Check :
  list (option File) → (string → option TypesPkgPtr * option error) →
  list error * option error.

Local Abbreviation parseFiles := (Loader.parseFiles parser_ParseFile).
Local Abbreviation loadFromSource := (Loader.loadFromSource parser_ParseFile types_Check).

Lemma updPkg_lookup p f st :
  packages (updPkg p f st) p = f (packages st p)
  ∧ (∀ q, q ≠ p → packages (updPkg p f st) q = packages st q)
  ∧ heap (updPkg p f st) = heap st
  ∧ nextTypes (updPkg p f st) = nextTypes st
  ∧ events (updPkg p f st) = events st.
Proof.
  unfold updPkg. cbn. split; [apply fn_lookup_insert|]. split; [|done].
  intros q Hq. by apply fn_lookup_insert_ne.
Qed.

Lemma recordError_lookup p err st :
  packages (recordError p err st) p =
    set_Errors (Errors (packages st p) ++ (convertError err).1) (packages st p)
  ∧ (∀ q, q ≠ p → packages (recordError p err st) q = packages st q)
  ∧ heap (recordError p err st) = heap st
  ∧ nextTypes (recordError p err st) = nextTypes st.
Proof.
  unfold recordError. destruct (convertError err) as [errs evs]. cbn.
  split; [apply fn_lookup_insert|]. split; [|done].
  intros q Hq. by apply fn_lookup_insert_ne.
Qed.

Lemma foldl_recordError p reported : ∀ st,
  packages (foldl (λ st e, recordError p e st) st reported) p =
    set_Errors (Errors (packages st p) ++ (reported ≫= λ e, (convertError e).1))
      (packages st p)
  ∧ (∀ q, q ≠ p →
       packages (foldl (λ st e, recordError p e st) st reported) q = packages st q)
  ∧ heap (foldl (λ st e, recordError p e st) st reported) = heap st
  ∧ nextTypes (foldl (λ st e, recordError p e st) st reported) = nextTypes st.
Proof.
  induction reported as [|e reported IH]; intros st.
  { cbn. rewrite app_nil_r. by destruct (packages st p). }
  cbn [foldl]. destruct (IH (recordError p e st)) as (Hp & Hq & Hh & Hn).
  destruct (recordError_lookup p e st) as (Hp1 & Hq1 & Hh1 & Hn1).
  split; [|split; [|split]].
  - rewrite Hp, Hp1. cbn. rewrite <- app_assoc. by destruct (packages st p).
  - intros q Hne. by rewrite Hq, Hq1.
  - by rewrite Hh.
  - by rewrite Hn.
Qed.

(** The parsing loop: on success every file was parsed and sits at its
    index; on failure the error of the first file that does not parse is
    recorded and returned. *)
Lemma parseFiles_spec p : ∀ files i st st' err pre,
  parseFiles p i files st = (st', err) →
  Syntax (packages st p) = pre ++ replicate (length files) None →
  length pre = i →
  heap st' = heap st ∧ nextTypes st' = nextTypes st
  ∧ (∀ q, q ≠ p → packages st' q = packages st q)
  ∧ ∃ syn errs,
      packages st' p =
        set_Errors (Errors (packages st p) ++ errs) (set_Syntax syn (packages st p))
      ∧ match err with
        | None =>
            errs = []
            ∧ ∃ parsed,
                Forall2 (λ file f, parser_ParseFile file = inr f) files parsed
                ∧ syn = pre ++ (Some <$> parsed)
        | Some e =>
            ∃ file, file ∈ files ∧ parser_ParseFile file = inl e
                    ∧ errs = (convertError e).1
        end.
Proof.
  induction files as [|file files IH]; intros i st st' err pre Hloop Hsyn Hlen.
  { injection Hloop as <- <-. split; [done|]. split; [done|]. split; [done|].
    exists pre, []. split.
    - rewrite app_nil_r. cbn in Hsyn. rewrite app_nil_r in Hsyn. rewrite <- Hsyn.
      by destruct (packages st p).
    - split; [done|]. exists []. split; [constructor|]. by rewrite app_nil_r. }
  cbn [Loader.parseFiles] in Hloop.
  destruct (parser_ParseFile file) as [e|f] eqn:Hparse.
  - injection Hloop as <- <-.
    destruct (recordError_lookup p e st) as (Hp & Hq & Hh & Hn).
    split; [done|]. split; [done|]. split; [done|].
    exists (Syntax (packages st p)), (convertError e).1. split.
    + rewrite Hp. by destruct (packages st p).
    + exists file. split; [by left|done].
  - set (st1 := updPkg p _ st) in Hloop.
    destruct (updPkg_lookup p
                (λ pkg, set_Syntax (<[i := Some f]> (Syntax pkg)) pkg) st)
      as (Hp1 & Hq1 & Hh1 & Hn1 & _). fold st1 in Hp1, Hq1, Hh1, Hn1.
    destruct (IH (S i) st1 st' err (pre ++ [Some f]) Hloop) as (Hh & Hn & Hq & Hp).
    { rewrite Hp1. cbn [Syntax set_Syntax]. rewrite Hsyn. cbn [length replicate].
      rewrite insert_app_r_alt by lia. replace (i - length pre) with 0 by lia.
      cbn. by rewrite <- app_assoc. }
    { rewrite length_app. cbn. lia. }
    split; [congruence|]. split; [congruence|].
    split; [intros q Hne; by rewrite Hq, Hq1|].
    destruct Hp as (syn & errs & Hp & Herr). exists syn, errs. split.
    + rewrite Hp, Hp1. by destruct (packages st p).
    + destruct err as [e|].
      * destruct Herr as (file' & Hin & Hfail & ->). exists file'.
        split; [by right|done].
      * destruct Herr as (-> & parsed & Hparsed & ->). split; [done|].
        exists (f :: parsed). split; [by constructor|].
        by rewrite <- app_assoc.
Qed.

Lemma newTypes_lookup p st :
  packages (newTypes p st) p = set_Types (Some (nextTypes st)) (packages st p)
  ∧ (∀ q, q ≠ p → packages (newTypes p st) q = packages st q)
  ∧ heap (newTypes p st) = heap st
  ∧ nextTypes (newTypes p st) = Pos.succ (nextTypes st).
Proof.
  unfold newTypes. cbn. split; [apply fn_lookup_insert|]. split; [|done].
  intros q Hq. by apply fn_lookup_insert_ne.
Qed.

(** What [loadFromSource] leaves behind: it writes the package it loads and
    nothing else, and of that package only [Types], [IllTyped], [Syntax],
    [TypesInfo] and, by appending, [Errors]. *)
Lemma loadFromSource_spec lp st :
  let p := lp_pkg lp in
  let pkg := packages st p in
  let r := loadFromSource lp st in
  heap r.1 = heap st
  ∧ nextTypes r.1 = Pos.succ (nextTypes st)
  ∧ (∀ q, q ≠ p → packages r.1 q = packages st q)
  ∧ ∃ syn ti errs,
      packages r.1 p =
        mkPackage (ID pkg) (PkgName pkg) (PkgPath pkg) (Imports pkg)
          (CompiledGoFiles pkg) (ExportFile pkg) (bool_decide (is_Some r.2))
          (Some (nextTypes st)) syn ti (Errors pkg ++ errs) (Fset pkg)
      ∧ (r.2 = None →
         ti = true
         ∧ Forall2 (λ file s, ∃ f, parser_ParseFile file = inr f ∧ s = Some f)
             (CompiledGoFiles pkg) syn).
Proof.
  intros p pkg r. subst r. unfold Loader.loadFromSource. cbn zeta. fold p.
  set (st1 := newTypes p st).
  set (st2 := updPkg p (set_IllTyped true) st1).
  set (st3 := updPkg p _ st2).
  destruct (newTypes_lookup p st) as (Hp1 & Hq1 & Hh1 & Hn1). fold st1 in Hp1, Hq1, Hh1, Hn1.
  destruct (updPkg_lookup p (set_IllTyped true) st1) as (Hp2 & Hq2 & Hh2 & Hn2 & _).
  fold st2 in Hp2, Hq2, Hh2, Hn2.
  destruct (updPkg_lookup p
              (λ pkg, set_Syntax (replicate (length (CompiledGoFiles pkg)) None) pkg) st2)
    as (Hp3 & Hq3 & Hh3 & Hn3 & _).
  fold st3 in Hp3, Hq3, Hh3, Hn3.
  assert (packages st3 p =
            mkPackage (ID pkg) (PkgName pkg) (PkgPath pkg) (Imports pkg)
              (CompiledGoFiles pkg) (ExportFile pkg) true (Some (nextTypes st))
              (replicate (length (CompiledGoFiles pkg)) None) (TypesInfo pkg)
              (Errors pkg) (Fset pkg)) as Hpkg3.
  { rewrite Hp3, Hp2, Hp1. fold pkg. by destruct pkg. }
  destruct (parseFiles p 0 (CompiledGoFiles (packages st3 p)) st3) as [st4 err] eqn:Hparse.
  destruct (parseFiles_spec p _ 0 st3 st4 err [] Hparse) as (Hh4 & Hn4 & Hq4 & Hp4).
  { by rewrite Hpkg3. }
  { done. }
  destruct Hp4 as (syn & errs & Hp4 & Herr). rewrite Hpkg3 in Hp4. cbn in Hp4.
  destruct err as [e|].
  { cbn [fst snd]. split; [congruence|]. split; [congruence|].
    split; [intros q Hne; by rewrite Hq4, Hq3, Hq2, Hq1|].
    exists syn, (TypesInfo pkg), errs. split; [|done].
    rewrite Hp4. reflexivity. }
  destruct Herr as (-> & parsed & Hparsed & ->). rewrite Hpkg3 in Hparsed.
  cbn in Hparsed. rewrite app_nil_r in Hp4. cbn [app] in Hp4.
  set (st5 := updPkg p (set_TypesInfo true) st4).
  destruct (updPkg_lookup p (set_TypesInfo true) st4) as (Hp5 & Hq5 & Hh5 & Hn5 & _).
  fold st5 in Hp5, Hq5, Hh5, Hn5.
  destruct (types_Check (Syntax (packages st5 p)) (importer st5 p)) as [reported cerr].
  destruct (foldl_recordError p reported st5) as (Hp6 & Hq6 & Hh6 & Hn6).
  set (st6 := foldl _ st5 reported) in *.
  assert (Forall2 (λ file s, ∃ f, parser_ParseFile file = inr f ∧ s = Some f)
            (CompiledGoFiles pkg) (Some <$> parsed)) as Hsyn.
  { apply Forall2_fmap_r. eapply Forall2_impl; [exact Hparsed|].
    intros file f Hf. by exists f. }
  destruct cerr as [e|].
  - cbn [fst snd]. split; [congruence|]. split; [congruence|].
    split; [intros q Hne; by rewrite Hq6, Hq5, Hq4, Hq3, Hq2, Hq1|].
    eexists (Some <$> parsed), true, _. split; [|done].
    rewrite Hp6, Hp5, Hp4. reflexivity.
  - destruct (updPkg_lookup p (set_IllTyped false) st6) as (Hp7 & Hq7 & Hh7 & Hn7 & _).
    cbn [fst snd]. split; [congruence|]. split; [congruence|].
    split; [intros q Hne; by rewrite Hq7, Hq6, Hq5, Hq4, Hq3, Hq2, Hq1|].
    eexists (Some <$> parsed), true, _. split; [|done].
    rewrite Hp7, Hp6, Hp5, Hp4. reflexivity.
Qed.

(** X18. What loading from source does to the package graph.  It returns no
    error exactly when it leaves the package well typed, and then the
    package has its type information and one parsed file per compiled file,
    in order.  Either way the package gets the fresh [types.Package], keeps
    its identity, imports, file list and export file, loses none of its
    recorded errors, and no other package and no action is written. *)
Theorem loadFromSource_outcome lp st :
  let p := lp_pkg lp in
  let pkg := packages st p in
  let r := loadFromSource lp st in
  (r.2 = None ↔ IllTyped (packages r.1 p) = false)
  ∧ (r.2 = None →
     TypesInfo (packages r.1 p) = true
     ∧ Forall2 (λ file s, ∃ f, parser_ParseFile file = inr f ∧ s = Some f)
         (CompiledGoFiles pkg) (Syntax (packages r.1 p)))
  ∧ Types (packages r.1 p) = Some (nextTypes st)
  ∧ nextTypes r.1 = Pos.succ (nextTypes st)
  ∧ (ID (packages r.1 p), PkgName (packages r.1 p), PkgPath (packages r.1 p),
     Imports (packages r.1 p), CompiledGoFiles (packages r.1 p),
     ExportFile (packages r.1 p))
    = (ID pkg, PkgName pkg, PkgPath pkg, Imports pkg, CompiledGoFiles pkg, ExportFile pkg)
  ∧ Errors pkg `prefix_of` Errors (packages r.1 p)
  ∧ (∀ q, q ≠ p → packages r.1 q = packages st q)
  ∧ heap r.1 = heap st.
Proof.
  intros p pkg r.
  destruct (loadFromSource_spec lp st) as (Hh & Hn & Hq & syn & ti & errs & Hp & Hok).
  fold p pkg r in Hh, Hn, Hq, Hp, Hok. rewrite Hp. cbn.
  split; [|split; [done|]; split; [done|]; split; [done|]; split; [done|];
           split; [by eexists|]; split; done].
  destruct r.2 as [e|].
  - rewrite bool_decide_eq_true_2 by (by eexists). by split.
  - by rewrite bool_decide_eq_false_2 by (by intros [? ?]).
Qed.

End LoaderWrites.

(** ** Loading from export data: the view handed to [gcexportdata.Read] *)

Section ExportDataView.

Import Exec Loader.

Variable st : loader.

(** [q] is a direct import of [p]. *)
Local Abbreviation imports := (λ p q : PackagePtr,
  ∃ path, Imports (packages st p) !! path = Some q).

Local Abbreviation importsOf := (λ q : PackagePtr,
  (map_to_list (Imports (packages st q))).*2).

Lemma elem_of_importsOf p q : q ∈ importsOf p ↔ imports p q.
Proof.
  rewrite list_elem_of_fmap. split.
  - intros ([path q'] & -> & Hin%elem_of_map_to_list). by exists path.
  - intros [path Hq]. exists (path, q). split; [done|]. by apply elem_of_map_to_list.
Qed.

Lemma visit_cons fuel q rest (sv : gset PackagePtr * gmap string (option TypesPkgPtr)) :
  visit st (S fuel) (q :: rest) sv =
  if decide (q ∈ sv.1) then visit st (S fuel) rest sv
  else
    match visit st fuel (importsOf q)
            ({[q]} ∪ sv.1, <[PkgPath (packages st q) := Types (packages st q)]> sv.2) with
    | None => None
    | Some sv' => visit st (S fuel) rest sv'
    end.
Proof. reflexivity. Qed.

Lemma visit_nil fuel (sv : gset PackagePtr * gmap string (option TypesPkgPtr)) :
  visit st (S fuel) [] sv = Some sv.
Proof. reflexivity. Qed.

(** The traversal returns once the fuel exceeds the rank of the packages it
    starts from. *)
Lemma visit_total (rankP : PackagePtr → nat) fuel imps sv :
  (∀ p q, imports p q → rankP q < rankP p) →
  (∀ q, q ∈ imps → rankP q < fuel) →
  is_Some (visit st (S fuel) imps sv).
Proof.
  intros Hrank. revert imps sv.
  induction fuel as [fuel IHfuel] using lt_wf_ind. intros imps sv Himps.
  revert sv. induction imps as [|q rest IHl]; intros sv.
  { by rewrite visit_nil. }
  rewrite visit_cons. destruct (decide (q ∈ sv.1)).
  { apply IHl. intros ??. apply Himps. by right. }
  assert (rankP q < fuel) as Hq by (apply Himps; by left).
  destruct fuel as [|fuel]; [lia|].
  destruct (IHfuel fuel ltac:(lia) (importsOf q)
              ({[q]} ∪ sv.1, <[PkgPath (packages st q) := Types (packages st q)]> sv.2))
    as [sv' ->].
  { intros q' Hq'%elem_of_importsOf. apply Hrank in Hq'. lia. }
  apply IHl. intros ??. apply Himps. by right.
Qed.

(** What a traversal adds to the set of visited packages and to the view. *)
Lemma visit_spec fuel : ∀ imps E V E' V',
  visit st fuel imps (E, V) = Some (E', V') →
  E ⊆ E'
  ∧ (∀ q, q ∈ imps → q ∈ E')
  ∧ (∀ q, q ∈ E' → q ∉ E →
       (∃ q0, q0 ∈ imps ∧ rtc imports q0 q)
       ∧ (∀ q', imports q q' → q' ∈ E')
       ∧ is_Some (V' !! PkgPath (packages st q)))
  ∧ (∀ path t, V' !! path = Some t →
       V !! path = Some t
       ∨ ∃ q, q ∈ E' ∧ (q ∉ E) ∧ PkgPath (packages st q) = path
              ∧ Types (packages st q) = t)
  ∧ (∀ path, is_Some (V !! path) → is_Some (V' !! path)).
Proof.
  induction fuel as [|fuel IHfuel]; intros imps E V E' V'; [done|].
  revert E V E' V'. induction imps as [|q rest IHl]; intros E V E' V'.
  { rewrite visit_nil. intros [= <- <-]. split; [done|].
    split; [by intros ? ?%elem_of_nil|]. split; [done|]. split; [by left|done]. }
  rewrite visit_cons. cbn [fst snd].
  destruct (decide (q ∈ E)) as [Hin|Hnotin].
  { intros Hrest. destruct (IHl _ _ _ _ Hrest) as (Hsub & Hcov & Hnew & Hview & Hkeep).
    split; [done|]. split; [intros q' [->|?]%elem_of_cons; [by apply Hsub|by apply Hcov]|].
    split; [|done]. intros q' Hq' Hfresh.
    destruct (Hnew q' Hq' Hfresh) as ((q0 & Hq0 & Hrtc) & Hcl & Hv).
    split; [|done]. exists q0. split; [by right|done]. }
  destruct (visit st fuel _ _) as [[E1 V1]|] eqn:Hdeps; [|done].
  intros Hrest.
  destruct (IHfuel _ _ _ _ _ Hdeps) as (Hsub1 & Hcov1 & Hnew1 & Hview1 & Hkeep1).
  destruct (IHl _ _ _ _ Hrest) as (Hsub2 & Hcov2 & Hnew2 & Hview2 & Hkeep2).
  assert (q ∈ E1) as Hq1 by set_solver.
  split; [set_solver|].
  split; [intros q' [->|?]%elem_of_cons; [by apply Hsub2|by apply Hcov2]|].
  split; [|split].
  - intros q' Hq' Hfresh.
    destruct (decide (q' ∈ E1)) as [Hin1|Hnotin1].
    + destruct (decide (q' = q)) as [->|Hne].
      * split; [exists q; split; [by left|apply rtc_refl]|]. split.
        -- intros q' Hq'q. apply Hsub2, Hcov1. by apply elem_of_importsOf.
        -- apply Hkeep2, Hkeep1. rewrite lookup_insert_eq. by eexists.
      * destruct (Hnew1 q' Hin1) as ((q0 & Hq0 & Hrtc) & Hcl & Hv); [set_solver|].
        split; [|split].
        -- exists q. split; [by left|]. apply elem_of_importsOf in Hq0.
           by eapply rtc_l.
        -- intros q'' Hq''. by apply Hsub2, Hcl.
        -- by apply Hkeep2.
    + destruct (Hnew2 q' Hq' Hnotin1) as ((q0 & Hq0 & Hrtc) & Hcl & Hv).
      split; [|done]. exists q0. split; [by right|done].
  - intros path t Ht.
    destruct (Hview2 path t Ht) as [Ht1|(q' & Hq' & Hfresh & Hpath & Htypes)].
    + destruct (Hview1 path t Ht1) as [Ht0|(q' & Hq' & Hfresh & Hpath & Htypes)].
      * apply lookup_insert_Some in Ht0 as [[<- <-]|[_ Ht0]]; [|by left].
        right. exists q. split; [by apply Hsub2|]. done.
      * right. exists q'. split; [by apply Hsub2|]. split; [set_solver|done].
    + right. exists q'. split; [done|]. split; [set_solver|done].
  - intros path Hpath. apply Hkeep2, Hkeep1.
    destruct (decide (PkgPath (packages st q) = path)) as [<-|Hne].
    + rewrite lookup_insert_eq. by eexists.
    + by rewrite lookup_insert_ne.
Qed.

(** X19. The view of the import graph that [loadFromExportData] builds.
    Started on the imports of a package, [visit] returns, the packages it
    marks are exactly those the package imports directly or through other
    imports, and the view has an entry exactly for their package paths; the
    entry of a path is the [types.Package] of a marked package with that
    path, and of the package itself when no two marked packages share a
    path. *)
Theorem visit_view_of_transitive_imports (rankP : PackagePtr → nat) fuel p :
  (∀ p q, imports p q → rankP q < rankP p) →
  rankP p < fuel →
  ∃ seen view,
    visit st fuel (importsOf p) (∅, ∅) = Some (seen, view)
    ∧ (∀ q, q ∈ seen ↔ tc imports p q)
    ∧ (∀ path, is_Some (view !! path) ↔
               ∃ q, q ∈ seen ∧ PkgPath (packages st q) = path)
    ∧ (∀ path t, view !! path = Some t →
         ∃ q, q ∈ seen ∧ PkgPath (packages st q) = path ∧ Types (packages st q) = t)
    ∧ ((∀ q1 q2, q1 ∈ seen → q2 ∈ seen →
          PkgPath (packages st q1) = PkgPath (packages st q2) → q1 = q2) →
       ∀ q, q ∈ seen →
         view !! PkgPath (packages st q) = Some (Types (packages st q))).
Proof.
  intros Hrank Hfuel.
  destruct fuel as [|fuel]; [lia|].
  destruct (visit_total rankP fuel (importsOf p) (∅, ∅) Hrank) as [[seen view] Hvisit].
  { intros q Hq%elem_of_importsOf. apply Hrank in Hq. lia. }
  exists seen, view. split; [done|].
  destruct (visit_spec _ _ _ _ _ _ Hvisit) as (_ & Hcov & Hnew & Hview & _).
  assert (∀ path t, view !! path = Some t →
            ∃ q, q ∈ seen ∧ PkgPath (packages st q) = path ∧ Types (packages st q) = t)
    as Hentries.
  { intros path t Ht. destruct (Hview path t Ht) as [Hempty|(q & Hq & _ & ?)].
    - by rewrite lookup_empty in Hempty.
    - by exists q. }
  split; [|split; [|split; [done|]]].
  - intros q. split.
    + intros Hq. destruct (Hnew q Hq) as ((q0 & Hq0 & Hrtc) & _); [set_solver|].
      apply elem_of_importsOf in Hq0. by eapply tc_rtc_r; [apply tc_once|].
    + intros Htc.
      assert (∀ a, a = p ∨ a ∈ seen → ∀ b, imports a b → b ∈ seen) as Hstep.
      { intros a [->|Ha] b Hb; [by apply Hcov, elem_of_importsOf|].
        destruct (Hnew a Ha) as (_ & Hcl & _); [set_solver|]. by apply Hcl. }
      assert (∀ a b, tc imports a b → a = p ∨ a ∈ seen → b ∈ seen) as Hreach.
      { intros a b Hab. induction Hab as [a b Hab|a b c Hab _ IH]; intros Ha.
        - by eapply Hstep.
        - apply IH. right. by eapply Hstep. }
      apply (Hreach p q Htc). by left.
  - intros path. split.
    + intros [t Ht]. destruct (Hentries path t Ht) as (q & Hq & Hpath & _). by exists q.
    + intros (q & Hq & <-). destruct (Hnew q Hq) as (_ & _ & Hv); [set_solver|done].
  - intros Hinj q Hq. destruct (Hnew q Hq) as (_ & _ & [t Ht]); [set_solver|].
    destruct (Hentries _ t Ht) as (q' & Hq' & Hpath & <-).
    by pose proof (Hinj q' q Hq' Hq Hpath) as ->.
Qed.

End ExportDataView.

(** ** Loading from export data: the outcome *)

Section ExportData.

Import Exec Loader.

Variable os_Open : string → option error.
Variable gcexportdata_NewReader : string → option error.
Variable gcexportdata_Read :
  string → gmap string (option TypesPkgPtr) → string → error + TypesPkgPtr.

Local Abbreviation loadFromExportData :=
  (Loader.loadFromExportData os_Open gcexportdata_NewReader gcexportdata_Read).

(** X20. What loading from export data does.  On an acyclic import graph it
    returns; it returns no error exactly when it leaves the package well
    typed, which takes every direct import to be loaded, an export file, and
    [gcexportdata.Read] to succeed, whose package then becomes the package's
    [Types].  An import that is not loaded yet is reported as such, before
    any file is opened, and a missing export file as no export data; on any
    error the package keeps the fresh empty [types.Package] and stays
    ill-typed.  No other field of the package, no other package and no
    action is written. *)
Theorem loadFromExportData_outcome (rankP : PackagePtr → nat) fuel lp st :
  let p := lp_pkg lp in
  let pkg := packages st p in
  (∀ a path b, Imports (packages st a) !! path = Some b → rankP b < rankP a) →
  rankP p < fuel →
  ∃ st' err,
    loadFromExportData fuel lp st = Some (st', err)
    ∧ (err = None ↔ IllTyped (packages st' p) = false)
    ∧ (err = None →
       (∀ path q, Imports pkg !! path = Some q → is_Some (Types (packages st q)))
       ∧ ExportFile pkg ≠ EmptyString
       ∧ ∃ view tpkg,
           gcexportdata_Read (ExportFile pkg) view (PkgPath pkg) = inr tpkg
           ∧ Types (packages st' p) = Some tpkg)
    ∧ (is_Some err → Types (packages st' p) = Some (nextTypes st))
    ∧ ((∃ path q, Imports pkg !! path = Some q ∧ Types (packages st q) = None) →
       ∃ path q,
         Imports pkg !! path = Some q ∧ Types (packages st q) = None
         ∧ err = Some (errorString ("dependency " +:+ strconv_Quote path
                                    +:+ " hasn't been loaded yet")))
    ∧ ((∀ path q, Imports pkg !! path = Some q → is_Some (Types (packages st q))) →
       ExportFile pkg = EmptyString →
       err = Some (errorString ("no export data for " +:+ strconv_Quote (ID pkg))))
    ∧ (∃ b t, packages st' p = set_IllTyped b (set_Types t pkg))
    ∧ nextTypes st' = Pos.succ (nextTypes st)
    ∧ (∀ q, q ≠ p → packages st' q = packages st q)
    ∧ heap st' = heap st.
Proof.
  intros p pkg Hrank Hfuel. unfold Loader.loadFromExportData. cbn zeta. fold p.
  set (st1 := newTypes p st). set (st2 := updPkg p (set_IllTyped true) st1).
  destruct (newTypes_lookup p st) as (Hp1 & Hq1 & Hh1 & Hn1). fold st1 in Hp1, Hq1, Hh1, Hn1.
  destruct (updPkg_lookup p (set_IllTyped true) st1) as (Hp2 & Hq2 & Hh2 & Hn2 & _).
  fold st2 in Hp2, Hq2, Hh2, Hn2.
  assert (packages st2 p = set_IllTyped true (set_Types (Some (nextTypes st)) pkg)) as Hpkg2
    by (by rewrite Hp2, Hp1).
  assert (∀ q, q ≠ p → packages st2 q = packages st q) as Hother
    by (intros q Hne; by rewrite Hq2, Hq1).
  assert (∀ q, Imports (packages st2 q) = Imports (packages st q)) as Himports.
  { intros q. destruct (decide (q = p)) as [->|Hne]; [by rewrite Hpkg2|by rewrite Hother]. }
  assert (∀ path q, Imports pkg !! path = Some q → packages st2 q = packages st q)
    as Himp.
  { intros path q Hq. apply Hother. intros ->. apply Hrank in Hq. lia. }
  rewrite !Hpkg2. cbn [Imports ExportFile PkgPath ID set_IllTyped set_Types].
  assert (∀ st' b t, packages st' p = set_IllTyped b (set_Types t pkg) →
            (IllTyped (packages st' p) = b ∧ Types (packages st' p) = t)) as Hfields.
  { intros st' b t ->. done. }
  destruct (List.find _ _) as [[path q]|] eqn:Hfind.
  { apply List.find_some in Hfind as [Hin Hnil]. apply list_elem_of_In in Hin.
    apply elem_of_map_to_list in Hin. apply bool_decide_eq_true in Hnil. cbn [snd] in Hnil.
    rewrite (Himp path q Hin) in Hnil.
    eexists st2, _. split; [done|].
    destruct (Hfields st2 _ _ Hpkg2) as [-> ->].
    split; [done|]. split; [done|]. split; [done|].
    split; [intros _; by exists path, q|].
    split.
    { intros Hall. destruct (Hall path q Hin) as [t Ht]. congruence. }
    split; [by eexists _, _|]. split; [by rewrite Hn2|]. split; [done|]. congruence. }
  assert (∀ path q, Imports pkg !! path = Some q → is_Some (Types (packages st q)))
    as Hloaded.
  { intros path q Hq. pose proof (List.find_none _ _ Hfind (path, q)) as Hnone.
    cbn [snd] in Hnone. rewrite (Himp path q Hq) in Hnone.
    destruct (Types (packages st q)) as [t|]; [by eexists|].
    assert (bool_decide (@None TypesPkgPtr = None) = false) as Habs.
    { apply Hnone. apply list_elem_of_In. by apply elem_of_map_to_list. }
    by rewrite bool_decide_eq_true_2 in Habs. }
  assert ((∃ path q, Imports pkg !! path = Some q ∧ Types (packages st q) = None) →
          False) as Hnone.
  { intros (path & q & Hq & Hnil). destruct (Hloaded path q Hq) as [t Ht]. congruence. }
  assert (∀ e, ExportFile pkg ≠ EmptyString →
            ∃ st' err,
              Some (st2, Some e) = Some (st', err)
              ∧ (err = None ↔ IllTyped (packages st' p) = false)
              ∧ (err = None →
                 (∀ path q, Imports pkg !! path = Some q → is_Some (Types (packages st q)))
                 ∧ ExportFile pkg ≠ EmptyString
                 ∧ ∃ view tpkg,
                     gcexportdata_Read (ExportFile pkg) view (PkgPath pkg) = inr tpkg
                     ∧ Types (packages st' p) = Some tpkg)
              ∧ (is_Some err → Types (packages st' p) = Some (nextTypes st))
              ∧ ((∃ path q, Imports pkg !! path = Some q ∧ Types (packages st q) = None) →
                 ∃ path q,
                   Imports pkg !! path = Some q ∧ Types (packages st q) = None
                   ∧ err = Some (errorString ("dependency " +:+ strconv_Quote path
                                              +:+ " hasn't been loaded yet")))
              ∧ ((∀ path q, Imports pkg !! path = Some q →
                    is_Some (Types (packages st q))) →
                 ExportFile pkg = EmptyString →
                 err = Some (errorString ("no export data for "
                                          +:+ strconv_Quote (ID pkg))))
              ∧ (∃ b t, packages st' p = set_IllTyped b (set_Types t pkg))
              ∧ nextTypes st' = Pos.succ (nextTypes st)
              ∧ (∀ q, q ≠ p → packages st' q = packages st q)
              ∧ heap st' = heap st) as Hfail.
  { intros e Hfile. eexists st2, _. split; [done|].
    destruct (Hfields st2 _ _ Hpkg2) as [-> ->].
    split; [done|]. split; [done|]. split; [done|].
    split; [by intros ?%Hnone|]. split; [done|].
    split; [by eexists _, _|]. split; [by rewrite Hn2|]. split; [done|]. congruence. }
  destruct (decide (ExportFile pkg = EmptyString)) as [Hfile|Hfile].
  { eexists st2, _. split; [done|].
    destruct (Hfields st2 _ _ Hpkg2) as [-> ->].
    split; [done|]. split; [done|]. split; [done|].
    split; [by intros ?%Hnone|]. split; [done|].
    split; [by eexists _, _|]. split; [by rewrite Hn2|]. split; [done|]. congruence. }
  destruct (os_Open (ExportFile pkg)) as [e|]; [by apply Hfail|].
  destruct (gcexportdata_NewReader (ExportFile pkg)) as [e|]; [by apply Hfail|].
  destruct fuel as [|fuel]; [lia|].
  destruct (visit_total st2 rankP fuel (map_to_list (Imports pkg)).*2 (∅, ∅))
    as [[seen view] Hvisit].
  { intros a b [path' Hb]. rewrite Himports in Hb. by eapply Hrank. }
  { intros q [[path' q'] [-> Hin%elem_of_map_to_list]]%list_elem_of_fmap.
    apply Hrank in Hin. cbn. fold p in Hin. lia. }
  rewrite Hvisit.
  destruct (gcexportdata_Read (ExportFile pkg) view (PkgPath pkg)) as [e|tpkg] eqn:Hread;
    [by apply Hfail|].
  set (st3 := updPkg p (set_Types (Some tpkg)) st2).
  destruct (updPkg_lookup p (set_Types (Some tpkg)) st2) as (Hp3 & Hq3 & Hh3 & Hn3 & _).
  fold st3 in Hp3, Hq3, Hh3, Hn3.
  destruct (updPkg_lookup p (set_IllTyped false) st3) as (Hp4 & Hq4 & Hh4 & Hn4 & _).
  eexists _, _. split; [done|].
  assert (packages (updPkg p (set_IllTyped false) st3) p
          = set_IllTyped false (set_Types (Some tpkg) pkg)) as Hpkg4.
  { rewrite Hp4, Hp3, Hpkg2. by destruct pkg. }
  destruct (Hfields _ _ _ Hpkg4) as [-> ->].
  split; [done|]. split.
  { intros _. split; [done|]. split; [done|]. by exists view, tpkg. }
  split; [by intros [? ?]|]. split; [by intros ?%Hnone|]. split; [done|].
  split; [by eexists _, _|]. split; [congruence|].
  split; [intros q Hne; by rewrite Hq4, Hq3, Hother|]. congruence.
Qed.

End ExportData.

(** ** The loader and the actions: cached facts and demotion to source *)

Section Demotion.

Import Exec Loader.

Variable analyzer : AnalyzerPtr → Analyzer.
Variable objectpath_Object : option TypesPkgPtr → string → error + ObjectPtr.
Variable cacheGet : PackagePtr → string → error + list Fact.

Local Abbreviation loadCachedFactsOf :=
  (Loader.loadCachedFactsOf analyzer objectpath_Object cacheGet).

(** What the loader may do to an action: it keeps the key, the
    dependencies, the root mark and the initial flag; it may raise, never
    clear, [needAnalyzeSource]; and an outcome of [loadCachedFacts] that was
    recorded stays as recorded. *)
Local Abbreviation kept := (λ x x' : action,
  action_key x' = action_key x ∧ deps x' = deps x ∧ isroot x' = isroot x
  ∧ isInitialPkg x' = isInitialPkg x
  ∧ (needAnalyzeSource x = true → needAnalyzeSource x' = true)
  ∧ (loadCachedFactsDone x = true →
     loadCachedFactsDone x' = true ∧ loadCachedFactsOk x' = loadCachedFactsOk x)).

(** From [st] to [st'] only actions were written, none was allocated or
    freed, and each as [kept] allows. *)
Local Abbreviation evolves := (λ st st' : loader,
  packages st' = packages st ∧ nextTypes st' = nextTypes st
  ∧ dom (heap st') = dom (heap st)
  ∧ ∀ ptr x, heap st !! ptr = Some x →
      ∃ x', heap st' !! ptr = Some x' ∧ kept x x').

Lemma evolves_refl st : evolves st st.
Proof. repeat split; try done. intros ptr x Hx. by exists x. Qed.

Lemma evolves_trans st1 st2 st3 : evolves st1 st2 → evolves st2 st3 → evolves st1 st3.
Proof.
  intros (Hp1 & Hn1 & Hd1 & Hk1) (Hp2 & Hn2 & Hd2 & Hk2).
  split; [congruence|]. split; [congruence|]. split; [congruence|].
  intros ptr x Hx. destruct (Hk1 ptr x Hx) as (x' & Hx' & K1).
  destruct (Hk2 ptr x' Hx') as (x'' & Hx'' & K2). exists x''. split; [done|].
  destruct K1 as (? & ? & ? & ? & Hn & Hd), K2 as (? & ? & ? & ? & Hn' & Hd').
  split; [congruence|]. split; [congruence|]. split; [congruence|].
  split; [congruence|]. split; [auto|].
  intros Hdone. destruct (Hd Hdone) as [Hdone' Hok]. destruct (Hd' Hdone') as [? ?].
  split; [done|congruence].
Qed.

Lemma updAction_evolves act f st :
  (∀ x, heap st !! act = Some x → kept x (f x)) → evolves st (updAction act f st).
Proof.
  intros Hf. split; [done|]. split; [done|]. split.
  { cbn. apply dom_alter_L. }
  intros ptr x Hx. cbn. destruct (decide (ptr = act)) as [->|Hne].
  - rewrite lookup_alter_eq, Hx. exists (f x). split; [done|]. by apply Hf.
  - rewrite lookup_alter_ne by done. exists x. split; [done|]. by repeat split.
Qed.

Lemma log_evolves evs st : evolves st (log evs st).
Proof. repeat split; try done. intros ptr x Hx. by exists x. Qed.

(** [markDepsForAnalyzingSource] raises the flag of every dependency on the
    action's own package. *)
Lemma markDeps_spec act st :
  evolves st (markDepsForAnalyzingSource act st)
  ∧ ∀ x d y,
      heap st !! act = Some x → d ∈ deps x →
      heap (markDepsForAnalyzingSource act st) !! d = Some y →
      act_pkg y = act_pkg x → needAnalyzeSource y = true.
Proof.
  unfold markDepsForAnalyzingSource. destruct (heap st !! act) as [x|] eqn:Hx.
  2:{ split; [apply evolves_refl|done]. }
  assert (∀ ds st0,
            let F := λ (st : loader) (dep : ActionPtr),
              match heap st !! dep with
              | Some d =>
                  if decide (act_pkg d = act_pkg x) then
                    updAction dep (set_needAnalyzeSource true) st
                  else st
              | None => st
              end in
            evolves st0 (foldl F st0 ds)
            ∧ ∀ d y, d ∈ ds → heap (foldl F st0 ds) !! d = Some y →
                act_pkg y = act_pkg x → needAnalyzeSource y = true) as Hloop.
  { induction ds as [|d ds IH]; intros st0 F.
    { split; [apply evolves_refl|]. by intros ?? ?%elem_of_nil. }
    cbn [foldl]. destruct (IH (F st0 d)) as [Hev Hmark]. fold F in Hev, Hmark.
    assert (evolves st0 (F st0 d)) as Hstep.
    { unfold F. destruct (heap st0 !! d) as [y0|]; [|apply evolves_refl].
      destruct (decide _); [|apply evolves_refl].
      apply updAction_evolves. intros ??. by repeat split. }
    split; [exact (evolves_trans _ _ _ Hstep Hev)|].
    intros d' y [->|Hd']%elem_of_cons Hy Hpkg; [|by eapply Hmark].
    destruct (heap st0 !! d) as [y0|] eqn:Hy0.
    - assert (∃ y1, heap (F st0 d) !! d = Some y1
                    ∧ (act_pkg y0 = act_pkg x → needAnalyzeSource y1 = true)
                    ∧ act_pkg y1 = act_pkg y0) as (y1 & Hy1 & Hneed & Hp1).
      { unfold F. rewrite Hy0. destruct (decide _) as [Heq|Hne].
        - cbn. rewrite lookup_alter_eq, Hy0. by eexists.
        - exists y0. by repeat split. }
      destruct Hev as (_ & _ & _ & Hk). destruct (Hk d y1 Hy1) as (y' & Hy' & K).
      rewrite Hy in Hy'. injection Hy' as <-.
      destruct K as (Hkey & _ & _ & _ & Hn & _). injection Hkey as _ Hp.
      apply Hn, Hneed. congruence.
    - destruct Hstep as (_ & _ & Hd0 & _), Hev as (_ & _ & Hd1 & _).
      apply elem_of_dom_2 in Hy. rewrite Hd1, Hd0 in Hy.
      apply not_elem_of_dom in Hy0. done. }
  destruct (Hloop (deps x) st) as [Hev Hmark]. split; [done|].
  intros x0 d y [= <-] Hd Hy Hpkg. by eapply Hmark.
Qed.

(** Loading cached facts writes the fact maps and the memo flags of the
    action and nothing else. *)
Lemma loadFacts_fields pkgs facts : ∀ x,
  let x' := (loadFacts objectpath_Object pkgs facts x).1 in
  action_key x' = action_key x ∧ deps x' = deps x ∧ isroot x' = isroot x
  ∧ isInitialPkg x' = isInitialPkg x
  ∧ needAnalyzeSource x' = needAnalyzeSource x
  ∧ loadCachedFactsDone x' = loadCachedFactsDone x
  ∧ loadCachedFactsOk x' = loadCachedFactsOk x.
Proof.
  induction facts as [|f facts IH]; intros x; [done|].
  cbn [Exec.loadFacts]. destruct (decide _).
  - destruct (factType (Fact_Fact f)); [|done..]. exact (IH (set_packageFacts _ x)).
  - destruct (objectpath_Object _ _); [apply IH|].
    destruct (factType (Fact_Fact f)); [|done..]. exact (IH (set_objectFacts _ x)).
Qed.

Lemma loadCachedFacts_kept pkgs x :
  let r := Exec.loadCachedFacts analyzer objectpath_Object cacheGet pkgs x in
  action_key r.1.1 = action_key x ∧ deps r.1.1 = deps x ∧ isroot r.1.1 = isroot x
  ∧ isInitialPkg r.1.1 = isInitialPkg x
  ∧ needAnalyzeSource r.1.1 = needAnalyzeSource x
  ∧ (loadCachedFactsDone x = true → r = (x, [], Ok (loadCachedFactsOk x)))
  ∧ (∀ b, r.2 = Ok b →
       loadCachedFactsDone r.1.1 = true ∧ loadCachedFactsOk r.1.1 = b).
Proof.
  intros r. subst r. unfold Exec.loadCachedFacts.
  destruct (loadCachedFactsDone x) eqn:Hdone.
  { split_and!; try done. by intros ? [= <-]. }
  destruct (isInitialPkg x) eqn:Hinit.
  { split_and!; try done. by intros ? [= <-]. }
  case_bool_decide.
  { split_and!; try done. by intros ? [= <-]. }
  unfold Exec.loadPersistedFacts. destruct (cacheGet _ _) as [err|facts].
  { split_and!; try done. by intros ? [= <-]. }
  pose proof (loadFacts_fields pkgs facts x) as Hf. cbn zeta in Hf.
  destruct (loadFacts objectpath_Object pkgs facts x) as [x1 [[]| |]]; cbn [fst snd] in *;
    destruct Hf as (? & ? & ? & ? & ? & _); split_and!;
    try done; try (cbn; congruence); by intros ? [= <-].
Qed.

(** The loop over the actions of a package writes actions only, and each as
    [kept] allows. *)
Lemma loadCachedFactsOf_evolves acts : ∀ flag st,
  evolves st (loadCachedFactsOf acts flag st).1.1.
Proof.
  induction acts as [|act acts IH]; intros flag st; [apply evolves_refl|].
  cbn [Loader.loadCachedFactsOf]. destruct (heap st !! act) as [x|] eqn:Hx; [|apply IH].
  pose proof (loadCachedFacts_kept (packages st) x) as Hk. cbn zeta in Hk.
  destruct (Exec.loadCachedFacts _ _ _ _ x) as [[x' evs] res]. cbn [fst snd] in Hk.
  destruct Hk as (Hkey & Hdeps & Hroot & Hinit & Hneed & Hdone & Hflags).
  assert (evolves st (log evs (updAction act (λ _, x') st))) as Hstep.
  { refine (evolves_trans _ _ _ (updAction_evolves act (λ _, x') st _) (log_evolves _ _)).
    intros x0 Hx0. rewrite Hx in Hx0. injection Hx0 as <-.
    split; [done|]. split; [done|]. split; [done|]. split; [done|].
    split; [congruence|]. intros Hd. specialize (Hdone Hd). by injection Hdone as ->. }
  destruct res as [[|]| |]; [| |done..].
  - exact (evolves_trans _ _ _ Hstep (IH _ _)).
  - refine (evolves_trans _ _ _ Hstep (evolves_trans _ _ _ _ (IH _ _))).
    refine (evolves_trans _ _ _ (updAction_evolves act (set_needAnalyzeSource true) _ _)
              (proj1 (markDeps_spec act _))).
    intros ??. by repeat split.
Qed.

(** X21. Demotion to source analysis.  When the loop over the actions of a
    package returns, every action of the list has the outcome of
    [loadCachedFacts] recorded; each action whose cached facts could not be
    loaded is marked for source analysis, and so is each of its dependencies
    on the same package; and the flag that makes the loader reload the
    package from source is raised exactly when it was raised before or the
    cached facts of some action of the list could not be loaded.  The loop
    writes no package, allocates no action, and keeps the key, the
    dependencies, the root mark and a raised [needAnalyzeSource] of every
    action. *)
Theorem loadCachedFactsOf_demotes acts flag st st' flag' :
  loadCachedFactsOf acts flag st = (st', flag', Ok tt) →
  (∀ act x', act ∈ acts → heap st' !! act = Some x' →
     loadCachedFactsDone x' = true
     ∧ (loadCachedFactsOk x' = false →
        needAnalyzeSource x' = true
        ∧ ∀ d y, d ∈ deps x' → heap st' !! d = Some y → act_pkg y = act_pkg x' →
            needAnalyzeSource y = true))
  ∧ (flag' = true ↔
     flag = true
     ∨ ∃ act x', act ∈ acts ∧ heap st' !! act = Some x'
                 ∧ loadCachedFactsOk x' = false)
  ∧ packages st' = packages st
  ∧ dom (heap st') = dom (heap st)
  ∧ ∀ ptr x, heap st !! ptr = Some x →
      ∃ x', heap st' !! ptr = Some x'
            ∧ action_key x' = action_key x ∧ deps x' = deps x
            ∧ isroot x' = isroot x
            ∧ (needAnalyzeSource x = true → needAnalyzeSource x' = true).
Proof.
  intros Hloop.
  pose proof (loadCachedFactsOf_evolves acts flag st) as Hev.
  rewrite Hloop in Hev. cbn [fst] in Hev.
  assert ((∀ act x', act ∈ acts → heap st' !! act = Some x' →
             loadCachedFactsDone x' = true
             ∧ (loadCachedFactsOk x' = false →
                needAnalyzeSource x' = true
                ∧ ∀ d y, d ∈ deps x' → heap st' !! d = Some y →
                    act_pkg y = act_pkg x' → needAnalyzeSource y = true))
          ∧ (flag' = true ↔
             flag = true
             ∨ ∃ act x', act ∈ acts ∧ heap st' !! act = Some x'
                         ∧ loadCachedFactsOk x' = false)) as [Hmarks Hflag].
  { clear Hev. revert flag st Hloop.
    induction acts as [|act acts IH]; intros flag st Hloop.
    { injection Hloop as <- <-. split; [by intros ?? ?%elem_of_nil|].
      split; [by left|]. intros [?|(a & x' & Ha & _)]; [done|].
      by apply elem_of_nil in Ha. }
    cbn [Loader.loadCachedFactsOf] in Hloop.
    destruct (heap st !! act) as [x|] eqn:Hx.
    2:{ destruct (IH _ _ Hloop) as [Hm Hf].
        pose proof (loadCachedFactsOf_evolves acts flag st) as (_ & _ & Hdom & _).
        rewrite Hloop in Hdom. cbn [fst] in Hdom.
        assert (heap st' !! act = None) as Hnone.
        { apply not_elem_of_dom. rewrite Hdom. by apply not_elem_of_dom. }
        split.
        - intros a x' [->|Ha]%elem_of_cons Hx'; [congruence|by eapply Hm].
        - rewrite Hf. split.
          + intros [?|(a & x' & Ha & Hx' & Hok)]; [by left|].
            right. exists a, x'. split; [by right|done].
          + intros [?|(a & x' & [->|Ha]%elem_of_cons & Hx' & Hok)];
              [by left|congruence|].
            right. by exists a, x'. }
    pose proof (loadCachedFacts_kept (packages st) x) as Hk. cbn zeta in Hk.
    destruct (Exec.loadCachedFacts _ _ _ _ x) as [[x1 evs] res]. cbn [fst snd] in Hk.
    destruct Hk as (Hkey & Hdeps & Hroot & Hinit & Hneed & Hdone & Hflags).
    destruct res as [r| |]; [|discriminate Hloop..].
    destruct (Hflags r eq_refl) as [Hd1 Hok1].
    set (st1 := log evs (updAction act (λ _, x1) st)) in *.
    assert (heap st1 !! act = Some x1) as Hx1.
    { cbn. by rewrite lookup_alter_eq, Hx. }
    destruct r.
    - (* the cached facts were loaded *)
      destruct (IH _ _ Hloop) as [Hm Hf].
      pose proof (loadCachedFactsOf_evolves acts flag st1) as (_ & _ & _ & Hkept).
      rewrite Hloop in Hkept. cbn [fst] in Hkept.
      destruct (Hkept act x1 Hx1) as (x' & Hx' & _ & _ & _ & _ & _ & Hd).
      destruct (Hd Hd1) as [Hd' Hok'].
      split.
      + intros a y [->|Ha]%elem_of_cons Hy; [|by eapply Hm].
        rewrite Hx' in Hy. injection Hy as <-. split; [done|]. congruence.
      + rewrite Hf. split.
        * intros [?|(a & y & Ha & Hy & Hok)]; [by left|].
          right. exists a, y. split; [by right|done].
        * intros [?|(a & y & [->|Ha]%elem_of_cons & Hy & Hok)]; [by left| |].
          -- rewrite Hx' in Hy. injection Hy as <-. congruence.
          -- right. by exists a, y.
    - (* they were not: the action and its same-package dependencies are marked *)
      set (st2 := updAction act (set_needAnalyzeSource true) st1) in *.
      set (st3 := markDepsForAnalyzingSource act st2) in *.
      assert (heap st2 !! act = Some (set_needAnalyzeSource true x1)) as Hx2.
      { cbn. rewrite lookup_alter_eq. cbn in Hx1. by rewrite Hx1. }
      destruct (markDeps_spec act st2) as [Hev23 Hmark]. fold st3 in Hev23, Hmark.
      destruct Hev23 as (_ & _ & _ & Hk23).
      destruct (Hk23 act _ Hx2) as (x3 & Hx3 & Hkey3 & Hdeps3 & _ & _ & Hn3 & Hd3).
      destruct (IH _ _ Hloop) as [Hm Hf].
      pose proof (loadCachedFactsOf_evolves acts true st3) as (_ & _ & _ & Hkept).
      rewrite Hloop in Hkept. cbn [fst] in Hkept.
      destruct (Hkept act x3 Hx3) as (x' & Hx' & Hkey' & Hdeps' & _ & _ & Hn' & Hd').
      destruct (Hd3 Hd1) as [Hd3' Hok3]. destruct (Hd' Hd3') as [Hdone' Hok'].
      split.
      + intros a y [->|Ha]%elem_of_cons Hy; [|by eapply Hm].
        rewrite Hx' in Hy. injection Hy as <-. split; [done|]. intros _.
        split; [by apply Hn', Hn3|].
        intros d y Hd Hy Hpkg. rewrite Hdeps', Hdeps3 in Hd. cbn in Hd.
        assert (is_Some (heap st3 !! d)) as [y3 Hy3].
        { apply elem_of_dom.
          pose proof (loadCachedFactsOf_evolves acts true st3) as (_ & _ & Hdom & _).
          rewrite Hloop in Hdom. cbn [fst] in Hdom. rewrite <- Hdom.
          apply elem_of_dom. by eexists. }
        destruct (Hkept d y3 Hy3) as (y' & Hy' & Hk' & _ & _ & _ & Hny & _).
        rewrite Hy in Hy'. injection Hy' as <-. apply Hny.
        apply (Hmark _ d y3 Hx2); [done|done|].
        injection Hk' as _ Hp'. injection Hkey' as _ Hp. injection Hkey3 as _ Hp3.
        cbn in Hp3. cbn. congruence.
      + split; [intros _|].
        * right. exists act, x'. split; [by left|]. split; [done|].
          cbn in Hok3. congruence.
        * intros _. apply Hf. by left. }
  split; [done|]. split; [done|].
  destruct Hev as (Hp & _ & Hdom & Hkept). split; [done|]. split; [done|].
  intros ptr x Hx. destruct (Hkept ptr x Hx) as (x' & Hx' & ? & ? & ? & _ & ? & _).
  by exists x'.
Qed.

End Demotion.

(** ** [loadWithFacts]: the outcome of a load *)

Section LoadOutcome.

Import Exec Loader.

Variable analyzer : AnalyzerPtr → Analyzer.
Variable objectpath_Object : option TypesPkgPtr → string → error + ObjectPtr.
Variable cacheGet : PackagePtr → string → error + list Fact.
Variable parser_ParseFile : string → error + File.
Variable types_Check :
  list (option File) → (string → option TypesPkgPtr * option error) →
  list error * option error.
Variable os_Open : string → option error.
Variable gcexportdata_NewReader : string → option error.
Variable gcexportdata_Read :
  string → gmap string (option TypesPkgPtr) → string → error + TypesPkgPtr.

Local Abbreviation loadWithFacts :=
  (Loader.loadWithFacts analyzer objectpath_Object cacheGet parser_ParseFile
     types_Check os_Open gcexportdata_NewReader gcexportdata_Read).
Local Abbreviation loadFromSource := (Loader.loadFromSource parser_ParseFile types_Check).
Local Abbreviation loadFromExportData :=
  (Loader.loadFromExportData os_Open gcexportdata_NewReader gcexportdata_Read).
Local Abbreviation loadCachedFactsOf :=
  (Loader.loadCachedFactsOf analyzer objectpath_Object cacheGet).

(** The fields of a package no load writes. *)
Local Abbreviation static := (λ pkg : Package,
  (ID pkg, PkgName pkg, PkgPath pkg, Imports pkg, CompiledGoFiles pkg, ExportFile pkg)).

(** What [loadFromExportData] writes when it returns. *)
Lemma loadFromExportData_frame fuel lp st st' err :
  loadFromExportData fuel lp st = Some (st', err) →
  (∃ b t, packages st' (lp_pkg lp)
          = set_IllTyped b (set_Types (Some t) (packages st (lp_pkg lp)))
          ∧ (err = None ↔ b = false))
  ∧ (∀ q, q ≠ lp_pkg lp → packages st' q = packages st q)
  ∧ heap st' = heap st.
Proof.
  unfold Loader.loadFromExportData. cbn zeta. set (p := lp_pkg lp).
  set (st1 := newTypes p st). set (st2 := updPkg p (set_IllTyped true) st1).
  destruct (newTypes_lookup p st) as (Hp1 & Hq1 & Hh1 & Hn1). fold st1 in Hp1, Hq1, Hh1, Hn1.
  destruct (updPkg_lookup p (set_IllTyped true) st1) as (Hp2 & Hq2 & Hh2 & Hn2 & _).
  fold st2 in Hp2, Hq2, Hh2, Hn2.
  assert (∀ e : error,
            (∃ b t, packages st2 p = set_IllTyped b (set_Types (Some t) (packages st p))
                    ∧ (Some e = None ↔ b = false))
            ∧ (∀ q, q ≠ p → packages st2 q = packages st q)
            ∧ heap st2 = heap st) as Hfail.
  { intros e. split; [|split; [|congruence]].
    - exists true, (nextTypes st). by rewrite Hp2, Hp1.
    - intros q Hne. by rewrite Hq2, Hq1. }
  destruct (List.find _ _) as [[path q]|]; [intros [= <- <-]; apply Hfail|].
  destruct (decide _); [intros [= <- <-]; apply Hfail|].
  destruct (os_Open _); [intros [= <- <-]; apply Hfail|].
  destruct (gcexportdata_NewReader _); [intros [= <- <-]; apply Hfail|].
  destruct (visit st2 fuel _ _) as [[seen view]|]; [|done].
  destruct (gcexportdata_Read _ _ _) as [e|tpkg]; [intros [= <- <-]; apply Hfail|].
  intros [= <- <-].
  set (st3 := updPkg p (set_Types (Some tpkg)) st2).
  destruct (updPkg_lookup p (set_Types (Some tpkg)) st2) as (Hp3 & Hq3 & Hh3 & Hn3 & _).
  fold st3 in Hp3, Hq3, Hh3, Hn3.
  destruct (updPkg_lookup p (set_IllTyped false) st3) as (Hp4 & Hq4 & Hh4 & Hn4 & _).
  split; [|split; [|congruence]].
  - exists false, tpkg. rewrite Hp4, Hp3, Hp2, Hp1. split; [|done].
    by destruct (packages st p).
  - intros q Hne. by rewrite Hq4, Hq3, Hq2, Hq1.
Qed.

(** On an acyclic import graph [loadFromExportData] returns. *)
Lemma loadFromExportData_total (rankP : PackagePtr → nat) fuel lp st :
  (∀ a path b, Imports (packages st a) !! path = Some b → rankP b < rankP a) →
  rankP (lp_pkg lp) < fuel →
  is_Some (loadFromExportData fuel lp st).
Proof.
  intros Hrank Hfuel. unfold Loader.loadFromExportData. cbn zeta. set (p := lp_pkg lp).
  set (st1 := newTypes p st). set (st2 := updPkg p (set_IllTyped true) st1).
  destruct (newTypes_lookup p st) as (Hp1 & Hq1 & Hh1 & Hn1). fold st1 in Hp1, Hq1, Hh1, Hn1.
  destruct (updPkg_lookup p (set_IllTyped true) st1) as (Hp2 & Hq2 & Hh2 & Hn2 & _).
  fold st2 in Hp2, Hq2, Hh2, Hn2.
  assert (∀ q, Imports (packages st2 q) = Imports (packages st q)) as Himports.
  { intros q. destruct (decide (q = p)) as [->|Hne].
    - by rewrite Hp2, Hp1.
    - by rewrite Hq2, Hq1. }
  destruct (List.find _ _) as [[path q]|]; [by eexists|].
  destruct (decide _); [by eexists|].
  destruct (os_Open _); [by eexists|].
  destruct (gcexportdata_NewReader _); [by eexists|].
  destruct fuel as [|fuel]; [lia|].
  destruct (visit_total st2 rankP fuel (map_to_list (Imports (packages st2 p))).*2 (∅, ∅))
    as [[seen view] Hvisit].
  { intros a b [path' Hb]. rewrite Himports in Hb. by eapply Hrank. }
  { intros q [[path' q'] [-> Hin%elem_of_map_to_list]]%list_elem_of_fmap.
    rewrite Himports in Hin. apply Hrank in Hin. cbn. unfold p in Hin. lia. }
  rewrite Hvisit. by destruct (gcexportdata_Read _ _ _).
Qed.

(** What a load may write: fields of its own package other than the static
    ones, and of the actions what [loadCachedFactsOf] may. *)
Local Abbreviation wrote := (λ (p : PackagePtr) (st st' : loader),
  (∀ q, q ≠ p → packages st' q = packages st q)
  ∧ static (packages st' p) = static (packages st p)
  ∧ dom (heap st') = dom (heap st)
  ∧ ∀ ptr x, heap st !! ptr = Some x →
      ∃ x', heap st' !! ptr = Some x'
            ∧ action_key x' = action_key x ∧ deps x' = deps x
            ∧ isroot x' = isroot x ∧ isInitialPkg x' = isInitialPkg x
            ∧ (needAnalyzeSource x = true → needAnalyzeSource x' = true)).

Lemma wrote_trans p st1 st2 st3 : wrote p st1 st2 → wrote p st2 st3 → wrote p st1 st3.
Proof.
  intros (Hq1 & Hs1 & Hd1 & Hk1) (Hq2 & Hs2 & Hd2 & Hk2).
  split; [intros q Hne; by rewrite Hq2, Hq1|]. split; [congruence|].
  split; [congruence|]. intros ptr x Hx.
  destruct (Hk1 ptr x Hx) as (x' & Hx' & ? & ? & ? & ? & ?).
  destruct (Hk2 ptr x' Hx') as (x'' & Hx'' & ? & ? & ? & ? & ?).
  exists x''. split; [done|]. split; [congruence|]. split; [congruence|].
  split; [congruence|]. split; [congruence|]. auto.
Qed.

Lemma wrote_packages p st st' :
  (∀ q, q ≠ p → packages st' q = packages st q) →
  static (packages st' p) = static (packages st p) →
  heap st' = heap st → wrote p st st'.
Proof.
  intros Hq Hs Hh. split; [done|]. split; [done|]. rewrite Hh. split; [done|].
  intros ptr x Hx. by exists x.
Qed.

Lemma newTypes_wrote p st : wrote p st (newTypes p st).
Proof.
  destruct (newTypes_lookup p st) as (Hp & Hq & Hh & _).
  apply wrote_packages; [done| |done]. by rewrite Hp.
Qed.

Lemma appendErrors_wrote p errs st : wrote p st (appendErrors p errs st).
Proof.
  destruct (updPkg_lookup p (λ pkg, set_Errors (Errors pkg ++ errs) pkg) st)
    as (Hp & Hq & Hh & _).
  apply wrote_packages; [done| |done]. unfold appendErrors. by rewrite Hp.
Qed.

Lemma loadFromSource_wrote lp st : wrote (lp_pkg lp) st (loadFromSource lp st).1.
Proof.
  destruct (loadFromSource_spec parser_ParseFile types_Check lp st)
    as (Hh & _ & Hq & syn & ti & errs & Hp & _).
  apply wrote_packages; [done| |done]. by rewrite Hp.
Qed.

Lemma loadFromExportData_wrote fuel lp st st' err :
  loadFromExportData fuel lp st = Some (st', err) → wrote (lp_pkg lp) st st'.
Proof.
  intros ((b & t & Hp & _) & Hq & Hh)%loadFromExportData_frame.
  apply wrote_packages; [done| |done]. by rewrite Hp.
Qed.

Lemma loadCachedFactsOf_wrote p acts flag st :
  wrote p st (loadCachedFactsOf acts flag st).1.1.
Proof.
  destruct (loadCachedFactsOf_evolves analyzer objectpath_Object cacheGet acts flag st)
    as (Hp & _ & Hd & Hk).
  split; [intros; by rewrite Hp|]. split; [by rewrite Hp|]. split; [done|].
  intros ptr x Hx. destruct (Hk ptr x Hx) as (x' & Hx' & ? & ? & ? & ? & ? & _).
  by exists x'.
Qed.

(** X23. A load writes its own package only, and of the actions only what
    the cached-facts loop may.  Whatever way [loadWithFacts] takes, it marks
    the companion as loaded, writes no package but its own, keeps that
    package's identity, imports, file list and export file, allocates and
    frees no action, keeps every action's key, dependencies, root mark and
    initial flag, and never clears [needAnalyzeSource]; so a heap in which
    no dependency dangles stays one. *)
Theorem loadWithFacts_keeps_graph fuel lp st lp' st' res :
  loadWithFacts fuel lp st = Some (lp', st', res) →
  lp' = set_wasLoaded true lp
  ∧ (∀ q, q ≠ lp_pkg lp → packages st' q = packages st q)
  ∧ static (packages st' (lp_pkg lp)) = static (packages st (lp_pkg lp))
  ∧ dom (heap st') = dom (heap st)
  ∧ (∀ ptr x, heap st !! ptr = Some x →
       ∃ x', heap st' !! ptr = Some x'
             ∧ action_key x' = action_key x ∧ deps x' = deps x
             ∧ isroot x' = isroot x ∧ isInitialPkg x' = isInitialPkg x
             ∧ (needAnalyzeSource x = true → needAnalyzeSource x' = true))
  ∧ (Collector.closed (heap st) → Collector.closed (heap st')).
Proof.
  intros Hload.
  assert (lp' = set_wasLoaded true lp ∧ wrote (lp_pkg lp) st st')
    as (-> & Hq & Hs & Hd & Hk).
  { revert Hload. unfold Loader.loadWithFacts. cbn zeta. set (p := lp_pkg lp).
    destruct (decide _).
    { intros [= <- <- _]. split; [done|].
      destruct (updPkg_lookup p
                  (λ pkg, set_TypesInfo true
                            (set_Syntax [] (set_Types (Some types_Unsafe) pkg))) st)
        as (Hp & Hq & Hh & _).
      apply wrote_packages; [done| |done]. by rewrite Hp. }
    destruct (TypesInfo (packages st p)).
    { destruct (negb (wasLoaded lp)).
      - pose proof (loadCachedFactsOf_wrote p (lp_actions lp) false st) as Hw.
        destruct (loadCachedFactsOf _ _ _) as [[st1 flag] [[]| |]];
          intros [= <- <- _]; by split.
      - intros [= <- <- _]. split; [done|]. by apply wrote_packages. }
    destruct (isInitial lp).
    { pose proof (loadFromSource_wrote lp st) as Hw.
      destruct (loadFromSource lp st) as [st1 err]. intros [= <- <- _]. by split. }
    destruct (loadFromExportData fuel lp st) as [[stE [errE|]]|] eqn:Hexp; [| |done].
    - pose proof (loadFromExportData_wrote _ _ _ _ _ Hexp) as Hw1.
      pose proof (newTypes_wrote p stE) as Hw2.
      pose proof (loadFromSource_wrote lp (newTypes p stE)) as Hw3.
      fold p in Hw1, Hw3.
      destruct (loadFromSource lp (newTypes p stE)) as [stS [srcErr|]];
        intros [= <- <- _]; (split; [done|]).
      + exact (wrote_trans _ _ _ _ Hw1 (wrote_trans _ _ _ _ Hw2 Hw3)).
      + exact (wrote_trans _ _ _ _ Hw1
                 (wrote_trans _ _ _ _ Hw2
                    (wrote_trans _ _ _ _ Hw3 (appendErrors_wrote _ _ _)))).
    - pose proof (loadFromExportData_wrote _ _ _ _ _ Hexp) as Hw1. fold p in Hw1.
      pose proof (loadCachedFactsOf_wrote p (lp_actions lp) false stE) as Hw2.
      destruct (loadCachedFactsOf _ _ _) as [[stC flag] out]. cbn [fst] in Hw2.
      pose proof (newTypes_wrote p stC) as Hw3.
      pose proof (loadFromSource_wrote lp (newTypes p stC)) as Hw4. fold p in Hw4.
      destruct out as [[]| |].
      + destruct flag.
        * destruct (loadFromSource lp (newTypes p stC)) as [stS err].
          intros [= <- <- _]. split; [done|].
          exact (wrote_trans _ _ _ _ Hw1
                   (wrote_trans _ _ _ _ Hw2 (wrote_trans _ _ _ _ Hw3 Hw4))).
        * intros [= <- <- _]. split; [done|]. exact (wrote_trans _ _ _ _ Hw1 Hw2).
      + destruct flag; intros [= <- <- _]; (split; [done|]);
          exact (wrote_trans _ _ _ _ Hw1 Hw2).
      + destruct flag; intros [= <- <- _]; (split; [done|]);
          exact (wrote_trans _ _ _ _ Hw1 Hw2). }
  split; [done|]. split; [done|]. split; [done|]. split; [done|]. split; [done|].
  intros Hclosed a x' Hx' d Hd'. rewrite Hd.
  assert (is_Some (heap st !! a)) as [x Hx].
  { apply elem_of_dom. rewrite <- Hd. apply elem_of_dom. by eexists. }
  destruct (Hk a x Hx) as (x'' & Hx'' & _ & Hdeps & _). rewrite Hx' in Hx''.
  injection Hx'' as <-. rewrite Hdeps in Hd'. by eapply Hclosed.
Qed.

(** A source load that follows a fresh [types.Package]. *)
Lemma loadFromSource_fields lp st :
  let r := loadFromSource lp st in
  (r.2 = None → IllTyped (packages r.1 (lp_pkg lp)) = false)
  ∧ (is_Some r.2 → IllTyped (packages r.1 (lp_pkg lp)) = true)
  ∧ is_Some (Types (packages r.1 (lp_pkg lp)))
  ∧ heap r.1 = heap st.
Proof.
  intros r.
  destruct (loadFromSource_spec parser_ParseFile types_Check lp st)
    as (Hh & _ & _ & syn & ti & errs & Hp & _). fold r in Hh, Hp.
  rewrite Hp. cbn. split; [|split; [|split; [by eexists|done]]].
  - intros ->. by rewrite bool_decide_eq_false_2 by (by intros [? ?]).
  - intros Hsome. by rewrite bool_decide_eq_true_2.
Qed.

(** X22. The outcome of a load.  On an acyclic import graph [loadWithFacts]
    returns and marks the companion as loaded.  The package [unsafe] gets
    [types.Unsafe], an empty file list and type information, with no error.
    A package that already has type information is not written.  Any other
    package that is loaded without error ends well typed and with a
    [types.Package]; one that is loaded with an error ends ill-typed or with
    an error recorded, so that importing it fails; and for an initial
    package no action is written. *)
Theorem loadWithFacts_outcome (rankP : PackagePtr → nat) fuel lp st :
  let p := lp_pkg lp in
  (∀ a path b, Imports (packages st a) !! path = Some b → rankP b < rankP a) →
  rankP p < fuel →
  ∃ st' res,
    loadWithFacts fuel lp st = Some (set_wasLoaded true lp, st', res)
    ∧ (PkgPath (packages st p) = unsafePkgName →
       res = Ok None ∧ heap st' = heap st
       ∧ Types (packages st' p) = Some types_Unsafe
       ∧ Syntax (packages st' p) = [] ∧ TypesInfo (packages st' p) = true)
    ∧ (PkgPath (packages st p) ≠ unsafePkgName →
       TypesInfo (packages st p) = true →
       packages st' = packages st ∧ (∀ e, res ≠ Ok (Some e))
       ∧ (wasLoaded lp = true → st' = st ∧ res = Ok None))
    ∧ (PkgPath (packages st p) ≠ unsafePkgName →
       TypesInfo (packages st p) = false →
       (res = Ok None →
        IllTyped (packages st' p) = false ∧ is_Some (Types (packages st' p)))
       ∧ (∀ e, res = Ok (Some e) →
            IllTyped (packages st' p) = true ∨ Errors (packages st' p) ≠ [])
       ∧ (isInitial lp = true → heap st' = heap st ∧ ∃ err, res = Ok err)).
Proof.
  intros p Hrank Hfuel. unfold Loader.loadWithFacts. cbn zeta. fold p.
  destruct (decide (PkgPath (packages st p) = unsafePkgName)) as [Hunsafe|Hsafe].
  { eexists _, _. split; [done|].
    destruct (updPkg_lookup p
                (λ pkg, set_TypesInfo true
                          (set_Syntax [] (set_Types (Some types_Unsafe) pkg))) st)
      as (Hp & _ & Hh & _).
    split; [|by split]. intros _. rewrite Hp. by split_and!. }
  destruct (TypesInfo (packages st p)) eqn:Hinfo.
  { destruct (wasLoaded lp) eqn:Hwas; cbn [negb].
    - eexists _, _. split; [done|]. split; [done|]. split; [|done].
      intros _ _. by split_and!.
    - destruct (loadCachedFactsOf_evolves analyzer objectpath_Object cacheGet
                  (lp_actions lp) false st) as (Hp & _).
      destruct (loadCachedFactsOf _ _ _) as [[st1 flag] [[]| |]]; cbn [fst] in Hp;
        (eexists _, _; split; [done|]; split; [done|]; split; [|done];
         intros _ _; by split_and!). }
  destruct (isInitial lp) eqn:Hinit.
  { destruct (loadFromSource_fields lp st) as (Hok & Hbad & Htypes & Hh).
    destruct (loadFromSource lp st) as [st1 err]. cbn [fst snd] in *. fold p in Hok, Hbad, Htypes.
    eexists _, _. split; [done|]. split; [done|]. split; [done|]. intros _ _.
    split; [|split].
    - intros [= ->]. split; [by apply Hok|done].
    - intros e [= ->]. left. apply Hbad. by eexists.
    - intros _. split; [done|]. by eexists. }
  destruct (loadFromExportData_total rankP fuel lp st Hrank Hfuel) as [[stE errE] Hexp].
  rewrite Hexp.
  destruct (loadFromExportData_frame _ _ _ _ _ Hexp) as ((b & t & HpE & Hb) & _ & _).
  fold p in HpE. destruct errE as [errE|].
  - destruct (loadFromSource_fields lp (newTypes p stE)) as (Hok & Hbad & Htypes & Hh).
    fold p in Hok, Hbad, Htypes.
    destruct (loadFromSource lp (newTypes p stE)) as [stS [srcErr|]]; cbn [fst snd] in *.
    + eexists _, _. split; [done|]. split; [done|]. split; [done|]. intros _ _.
      split; [done|]. split; [|done]. intros e _. left. apply Hbad. by eexists.
    + eexists _, _. split; [done|]. split; [done|]. split; [done|]. intros _ _.
      split; [done|]. split; [|done]. intros e _. right.
      destruct (updPkg_lookup p
                  (λ pkg, set_Errors
                            (Errors pkg
                             ++ [mkPackagesError "-"
                                   ("could not load export data: " +:+ error_Error errE)
                                   ParseError]) pkg) stS) as (Hp & _).
      unfold appendErrors. rewrite Hp. cbn. by destruct (Errors (packages stS p)).
  - assert (b = false) as -> by (by apply Hb).
    destruct (loadCachedFactsOf_evolves analyzer objectpath_Object cacheGet
                (lp_actions lp) false stE) as (HpC & _).
    destruct (loadCachedFactsOf _ _ _) as [[stC flag] out]. cbn [fst] in HpC.
    destruct (loadFromSource_fields lp (newTypes p stC)) as (Hok & Hbad & Htypes & Hh).
    fold p in Hok, Hbad, Htypes.
    destruct out as [[]| |].
    + destruct flag.
      * destruct (loadFromSource lp (newTypes p stC)) as [stS err]; cbn [fst snd] in *.
        eexists _, _. split; [done|]. split; [done|]. split; [done|]. intros _ _.
        split; [|split; [|done]].
        -- intros [= ->]. split; [by apply Hok|done].
        -- intros e [= ->]. left. apply Hbad. by eexists.
      * eexists _, _. split; [done|]. split; [done|]. split; [done|]. intros _ _.
        split; [|split; [done|done]]. intros _. rewrite HpC, HpE. cbn. by split.
    + destruct flag; (eexists _, _; split; [done|]; split; [done|]; split; [done|];
                      intros _ _; by split_and!).
    + destruct flag; (eexists _, _; split; [done|]; split; [done|]; split; [done|];
                      intros _ _; by split_and!).
Qed.

End LoadOutcome.

(** The sample import graph is acyclic, as a loader sees it. *)
Lemma sample_loader_rank a path b :
  Imports (Loader.packages Sample.loader0 a) !! path = Some b →
  Sample.rankP b < Sample.rankP a.
Proof. apply sample_Imports_rank. Qed.

(** The imports of [root]: [mid] and [leaf]. *)
Lemma visit_view_of_transitive_imports_witness :
  let st := Sample.loader0 in
  ∃ seen view,
    Loader.visit st 3 (map_to_list (Imports (Loader.packages st 1))).*2 (∅, ∅)
      = Some (seen, view)
    ∧ (∀ q, q ∈ seen ↔
            tc (λ p q, ∃ path, Imports (Loader.packages st p) !! path = Some q)
              1%positive q)
    ∧ (∀ path, is_Some (view !! path) ↔
               ∃ q, q ∈ seen ∧ PkgPath (Loader.packages st q) = path)
    ∧ (∀ path t, view !! path = Some t →
         ∃ q, q ∈ seen ∧ PkgPath (Loader.packages st q) = path
              ∧ Types (Loader.packages st q) = t)
    ∧ ((∀ q1 q2, q1 ∈ seen → q2 ∈ seen →
          PkgPath (Loader.packages st q1) = PkgPath (Loader.packages st q2) → q1 = q2) →
       ∀ q, q ∈ seen →
         view !! PkgPath (Loader.packages st q) = Some (Types (Loader.packages st q))).
Proof.
  intros st.
  apply (visit_view_of_transitive_imports st Sample.rankP 3 1%positive).
  - intros p q [path Hq]. by eapply sample_loader_rank.
  - vm_compute. lia.
Defined.

(** [mid] has an export file, and its import [leaf] is loaded. *)
Lemma loadFromExportData_outcome_witness :
  let lp := Loader.mkLoadingPackage 2 ∅ false [] false in
  let st := Sample.loader0 in
  let pkg := Loader.packages st 2 in
  ∃ st' err,
    Loader.loadFromExportData Sample.osOpen Sample.newReader Sample.readExport 2 lp st
      = Some (st', err)
    ∧ (err = None ↔ IllTyped (Loader.packages st' 2) = false)
    ∧ (err = None →
       (∀ path q, Imports pkg !! path = Some q → is_Some (Types (Loader.packages st q)))
       ∧ ExportFile pkg ≠ EmptyString
       ∧ ∃ view tpkg,
           Sample.readExport (ExportFile pkg) view (PkgPath pkg) = inr tpkg
           ∧ Types (Loader.packages st' 2) = Some tpkg)
    ∧ (is_Some err → Types (Loader.packages st' 2) = Some (Loader.nextTypes st))
    ∧ ((∃ path q, Imports pkg !! path = Some q ∧ Types (Loader.packages st q) = None) →
       ∃ path q,
         Imports pkg !! path = Some q ∧ Types (Loader.packages st q) = None
         ∧ err = Some (errorString ("dependency " +:+ Loader.strconv_Quote path
                                    +:+ " hasn't been loaded yet")))
    ∧ ((∀ path q, Imports pkg !! path = Some q →
          is_Some (Types (Loader.packages st q))) →
       ExportFile pkg = EmptyString →
       err = Some (errorString ("no export data for "
                                +:+ Loader.strconv_Quote (ID pkg))))
    ∧ (∃ b t, Loader.packages st' 2 = Loader.set_IllTyped b (Loader.set_Types t pkg))
    ∧ Loader.nextTypes st' = Pos.succ (Loader.nextTypes st)
    ∧ (∀ q, q ≠ 2%positive → Loader.packages st' q = Loader.packages st q)
    ∧ Loader.heap st' = Loader.heap st.
Proof.
  intros lp st pkg.
  apply (loadFromExportData_outcome Sample.osOpen Sample.newReader Sample.readExport
           Sample.rankP 2 lp st).
  - apply sample_loader_rank.
  - vm_compute. lia.
Defined.

(** An action of analyzer 1 on [mid], not initial, that depends on an
    action on the same package; the cache holds nothing. *)
Lemma loadCachedFactsOf_demotes_witness :
  let heap : gmap ActionPtr action :=
    <[0 := Sample.actionOf 1 2 None false [1] None]>
      (<[1 := Sample.actionOf 2 2 None false [] None]> ∅) in
  let st := Loader.mkLoader Sample.pkgs heap 100 [] in
  let r := Loader.loadCachedFactsOf Sample.analyzer Sample.objectpathObject
             Sample.cacheGet [0] false st in
  let st' := r.1.1 in
  let flag' := r.1.2 in
  (∀ act x', act ∈ [0] → Loader.heap st' !! act = Some x' →
     loadCachedFactsDone x' = true
     ∧ (loadCachedFactsOk x' = false →
        needAnalyzeSource x' = true
        ∧ ∀ d y, d ∈ deps x' → Loader.heap st' !! d = Some y → act_pkg y = act_pkg x' →
            needAnalyzeSource y = true))
  ∧ (flag' = true ↔
     false = true
     ∨ ∃ act x', act ∈ [0] ∧ Loader.heap st' !! act = Some x'
                 ∧ loadCachedFactsOk x' = false)
  ∧ Loader.packages st' = Loader.packages st
  ∧ dom (Loader.heap st') = dom (Loader.heap st)
  ∧ ∀ ptr x, Loader.heap st !! ptr = Some x →
      ∃ x', Loader.heap st' !! ptr = Some x'
            ∧ action_key x' = action_key x ∧ deps x' = deps x
            ∧ isroot x' = isroot x
            ∧ (needAnalyzeSource x = true → needAnalyzeSource x' = true).
Proof.
  intros heap st r st' flag'.
  apply (loadCachedFactsOf_demotes Sample.analyzer Sample.objectpathObject
           Sample.cacheGet [0] false st st' flag').
  vm_compute. reflexivity.
Defined.

(** [nodata] has no export data; its source parses and type-checks. *)
Lemma loadWithFacts_outcome_witness :
  let lp := Sample.lpNodata in
  let st := Sample.loader0 in
  ∃ st' res,
    Sample.loadWithFacts lp st = Some (Loader.set_wasLoaded true lp, st', res)
    ∧ (PkgPath (Loader.packages st 5) = Loader.unsafePkgName →
       res = Ok None ∧ Loader.heap st' = Loader.heap st
       ∧ Types (Loader.packages st' 5) = Some Loader.types_Unsafe
       ∧ Syntax (Loader.packages st' 5) = []
       ∧ TypesInfo (Loader.packages st' 5) = true)
    ∧ (PkgPath (Loader.packages st 5) ≠ Loader.unsafePkgName →
       TypesInfo (Loader.packages st 5) = true →
       Loader.packages st' = Loader.packages st ∧ (∀ e, res ≠ Ok (Some e))
       ∧ (Loader.wasLoaded lp = true → st' = st ∧ res = Ok None))
    ∧ (PkgPath (Loader.packages st 5) ≠ Loader.unsafePkgName →
       TypesInfo (Loader.packages st 5) = false →
       (res = Ok None →
        IllTyped (Loader.packages st' 5) = false
        ∧ is_Some (Types (Loader.packages st' 5)))
       ∧ (∀ e, res = Ok (Some e) →
            IllTyped (Loader.packages st' 5) = true
            ∨ Errors (Loader.packages st' 5) ≠ [])
       ∧ (Loader.isInitial lp = true →
          Loader.heap st' = Loader.heap st ∧ ∃ err, res = Ok err)).
Proof.
  intros lp st.
  apply (loadWithFacts_outcome Sample.analyzer Sample.objectpathObject Sample.cacheGet
           Sample.parseFile Sample.typesCheck Sample.osOpen Sample.newReader
           Sample.readExport Sample.rankP 1 lp st).
  - apply sample_loader_rank.
  - vm_compute. lia.
Defined.

Lemma loadWithFacts_keeps_graph_witness :
  let lp := Sample.lpBroken in
  let st := Sample.loader0 in
  let r := default (lp, st, Ok None) (Sample.loadWithFacts lp st) in
  let lp' := r.1.1 in
  let st' := r.1.2 in
  lp' = Loader.set_wasLoaded true lp
  ∧ (∀ q, q ≠ Loader.lp_pkg lp → Loader.packages st' q = Loader.packages st q)
  ∧ (ID (Loader.packages st' (Loader.lp_pkg lp)),
     PkgName (Loader.packages st' (Loader.lp_pkg lp)),
     PkgPath (Loader.packages st' (Loader.lp_pkg lp)),
     Imports (Loader.packages st' (Loader.lp_pkg lp)),
     CompiledGoFiles (Loader.packages st' (Loader.lp_pkg lp)),
     ExportFile (Loader.packages st' (Loader.lp_pkg lp)))
    = (ID (Loader.packages st (Loader.lp_pkg lp)),
       PkgName (Loader.packages st (Loader.lp_pkg lp)),
       PkgPath (Loader.packages st (Loader.lp_pkg lp)),
       Imports (Loader.packages st (Loader.lp_pkg lp)),
       CompiledGoFiles (Loader.packages st (Loader.lp_pkg lp)),
       ExportFile (Loader.packages st (Loader.lp_pkg lp)))
  ∧ dom (Loader.heap st') = dom (Loader.heap st)
  ∧ (∀ ptr x, Loader.heap st !! ptr = Some x →
       ∃ x', Loader.heap st' !! ptr = Some x'
             ∧ action_key x' = action_key x ∧ deps x' = deps x
             ∧ isroot x' = isroot x ∧ isInitialPkg x' = isInitialPkg x
             ∧ (needAnalyzeSource x = true → needAnalyzeSource x' = true))
  ∧ (Collector.closed (Loader.heap st) → Collector.closed (Loader.heap st')).
Proof.
  intros lp st r lp' st'.
  apply (loadWithFacts_keeps_graph Sample.analyzer Sample.objectpathObject
           Sample.cacheGet Sample.parseFile Sample.typesCheck Sample.osOpen
           Sample.newReader Sample.readExport 1 lp st lp' st' r.2).
  vm_compute. reflexivity.
Defined.

(** ** The collector: where diagnostics and errors come from *)

Section CollectorSources.

Import Collector.

Variable analyzer : AnalyzerPtr → Analyzer.
Variable pkgs : PackagePtr → Package.
Variable heap : gmap ActionPtr action.

(** X24. Only roots report.  Every diagnostic [extractDiagnostics] returns
    was reported by a visited action that is a root and whose error is
    unset, and carries that action's analyzer and the position of the
    diagnostic in that action's package; every error it returns is the
    error of a visited action, wrapped with the name of its analyzer, and
    there is one per visited action that failed.  So an action that is no
    root, or that failed, contributes no diagnostic. *)
Theorem extractDiagnostics_sources roots :
  closed heap →
  (∀ a, a ∈ roots → a ∈ dom heap) →
  ∃ order ds es,
    visitOrder heap roots = Some order
    ∧ extractDiagnostics analyzer pkgs heap roots = Some (ds, es)
    ∧ (∀ d, d ∈ ds →
         ∃ act x diag,
           act ∈ order ∧ heap !! act = Some x
           ∧ isroot x = true ∧ act_err x = None
           ∧ diag ∈ diagnostics x
           ∧ d = mkDiagnostic diag (act_a x) (Fset (pkgs (act_pkg x)) (Pos diag)))
    ∧ (∀ e, e ∈ es →
         ∃ act x err,
           act ∈ order ∧ heap !! act = Some x ∧ act_err x = Some err
           ∧ e = Wrap err (Name (analyzer (act_a x))))
    ∧ length es
      = length (filter (λ act, is_Some (heap !! act ≫= act_err)) order).
Proof.
  intros Hclosed Hroots.
  destruct (extractDiagnostics_along_order analyzer pkgs heap roots Hclosed Hroots)
    as (order & Horder & _ & _ & Hin & Hres).
  exists order, (firstByKey ∅ (candidates pkgs heap order)),
    (errorsOf analyzer heap order).
  split; [done|]. split; [done|]. split; [|split].
  - intros d [_ Hd]%firstByKey_fresh.
    apply list_elem_of_bind in Hd as (act & Hd & Hact).
    destruct (heap !! act) as [x|] eqn:Hx; [|by apply elem_of_nil in Hd].
    cbn in Hd. unfold candidatesOf in Hd.
    destruct (act_err x) eqn:Herr; [by apply elem_of_nil in Hd|].
    destruct (isroot x) eqn:Hroot; [|by apply elem_of_nil in Hd].
    apply list_elem_of_fmap in Hd as (diag & -> & Hdiag).
    by exists act, x, diag.
  - intros e He. apply list_elem_of_bind in He as (act & He & Hact).
    destruct (heap !! act) as [x|] eqn:Hx; [|by apply elem_of_nil in He].
    cbn in He. unfold errorOf in He.
    destruct (act_err x) as [err|] eqn:Herr; [|by apply elem_of_nil in He].
    apply list_elem_of_singleton in He as ->. by exists act, x, err.
  - unfold errorsOf. clear. induction order as [|act order IH]; [done|].
    rewrite bind_cons, length_app, filter_cons, IH.
    destruct (heap !! act) as [x|] eqn:Hx; cbn.
    + unfold errorOf. destruct (act_err x) as [err|] eqn:Herr.
      * by rewrite decide_True by (by eexists).
      * by rewrite decide_False by (by intros [? ?]).
    + by rewrite decide_False by (by intros [? ?]).
Qed.

End CollectorSources.

Lemma extractDiagnostics_sources_witness :
  ∃ order ds es,
    Collector.visitOrder Sample.failedDep [0] = Some order
    ∧ Collector.extractDiagnostics Sample.analyzer Sample.pkgs Sample.failedDep [0]
      = Some (ds, es)
    ∧ (∀ d, d ∈ ds →
         ∃ act x diag,
           act ∈ order ∧ Sample.failedDep !! act = Some x
           ∧ isroot x = true ∧ act_err x = None
           ∧ diag ∈ diagnostics x
           ∧ d = mkDiagnostic diag (act_a x)
                   (Fset (Sample.pkgs (act_pkg x)) (Pos diag)))
    ∧ (∀ e, e ∈ es →
         ∃ act x err,
           act ∈ order ∧ Sample.failedDep !! act = Some x ∧ act_err x = Some err
           ∧ e = Wrap err (Name (Sample.analyzer (act_a x))))
    ∧ length es
      = length (filter (λ act, is_Some (Sample.failedDep !! act ≫= act_err)) order).
Proof.
  apply (extractDiagnostics_sources Sample.analyzer Sample.pkgs Sample.failedDep [0]
           failedDep_closed).
  apply sample_roots_in_heap. by repeat constructor.
Defined.

(** ** Planning the loads: one companion per package *)

Section PlanTheorems.

Import Loader Plan.

Variable pkgs : PackagePtr → Package.
Variable initialPkgs : gset PackagePtr.
Variable heap : gmap ActionPtr action.
Variable rankP : PackagePtr → nat.
Hypothesis Imports_rank :
  ∀ p path q, Imports (pkgs p) !! path = Some q → rankP q < rankP p.

Local Abbreviation groupAction := (Plan.groupAction heap).
Local Abbreviation actionPerPkg := (Plan.actionPerPkg heap).
Local Abbreviation dfs := (Plan.dfs pkgs initialPkgs).
Local Abbreviation dfsActions := (Plan.dfsActions pkgs initialPkgs heap).
Local Abbreviation loadingPackages := (Plan.loadingPackages pkgs initialPkgs heap).

Local Abbreviation imports := (λ p q : PackagePtr,
  ∃ path, Imports (pkgs p) !! path = Some q).

(** The actions of a list that are on a given package, in order. *)
Local Abbreviation actionsOn := (λ (q : PackagePtr) (actions : list ActionPtr),
  filter (λ act, act_pkg <$> heap !! act = Some q) actions).

Lemma foldl_groupAction actions : ∀ m q,
  default [] (foldl groupAction m actions !! q)
  = default [] (m !! q) ++ actionsOn q actions.
Proof.
  induction actions as [|act actions IH]; intros m q.
  { by rewrite app_nil_r. }
  cbn [foldl]. rewrite IH, filter_cons. unfold Plan.groupAction.
  destruct (heap !! act) as [x|] eqn:Hx; cbn.
  - destruct (decide (act_pkg x = q)) as [->|Hne].
    + rewrite decide_True by done. rewrite lookup_insert_eq. cbn.
      by rewrite <- app_assoc.
    + rewrite decide_False by congruence. by rewrite lookup_insert_ne.
  - by rewrite decide_False.
Qed.

Section WithGrouping.

Variable perPkg : gmap PackagePtr (list ActionPtr).

(** The companion [dfs] makes for a package. *)
Local Abbreviation companion := (λ q : PackagePtr,
  mkLoadingPackage q (Imports (pkgs q)) (bool_decide (q ∈ initialPkgs))
    (default [] (perPkg !! q)) false).

(** Every companion made so far is the one of its package, and the
    companions of its imports are made. *)
Local Abbreviation planned := (λ lps : gmap PackagePtr loadingPackage,
  ∀ q lp, lps !! q = Some lp →
    lp = companion q ∧ ∀ imp, imports q imp → is_Some (lps !! imp)).

Lemma dfs_spec fuel : ∀ pkg lps,
  rankP pkg < fuel → planned lps →
  ∃ lps',
    dfs perPkg fuel pkg lps = Some lps'
    ∧ planned lps'
    ∧ is_Some (lps' !! pkg)
    ∧ (∀ q, is_Some (lps !! q) → is_Some (lps' !! q))
    ∧ (∀ q, is_Some (lps' !! q) → is_Some (lps !! q) ∨ rtc imports pkg q).
Proof.
  induction fuel as [|fuel IH]; intros pkg lps Hfuel Hplanned; [lia|].
  cbn [Plan.dfs]. destruct (lps !! pkg) as [lp|] eqn:Hpkg.
  { exists lps. split; [done|]. split; [done|]. split; [by rewrite Hpkg|].
    split; [done|]. intros q ?. by left. }
  assert (∀ imps acc_i acc_l,
            (∀ path imp, (path, imp) ∈ imps → Imports (pkgs pkg) !! path = Some imp) →
            planned acc_l →
            ∃ lps',
              Plan.dfsImports (dfs perPkg fuel) imps (acc_i, acc_l)
                = Some (foldl (λ m kv, <[kv.1 := kv.2]> m) acc_i imps, lps')
              ∧ planned lps'
              ∧ (∀ path imp, (path, imp) ∈ imps → is_Some (lps' !! imp))
              ∧ (∀ q, is_Some (acc_l !! q) → is_Some (lps' !! q))
              ∧ (∀ q, is_Some (lps' !! q) →
                   is_Some (acc_l !! q) ∨ ∃ imp, imports pkg imp ∧ rtc imports imp q))
    as Hloop.
  { induction imps as [|[path imp] imps IHl]; intros acc_i acc_l Himps Hacc.
    { exists acc_l. split; [done|]. split; [done|].
      split; [by intros ?? ?%elem_of_nil|]. split; [done|]. intros q ?. by left. }
    cbn [Plan.dfsImports snd fst].
    assert (Imports (pkgs pkg) !! path = Some imp) as Himp by (apply Himps; by left).
    destruct (IH imp acc_l) as (lps1 & -> & Hp1 & Hin1 & Hmono1 & Hnew1);
      [apply Imports_rank in Himp; lia|done|].
    destruct (IHl (<[path := imp]> acc_i) lps1) as (lps2 & -> & Hp2 & Hin2 & Hmono2 & Hnew2);
      [intros ?? ?; apply Himps; by right|done|].
    exists lps2. split; [done|]. split; [done|]. split; [|split].
    - intros path' imp' [[= -> ->]|Hin]%elem_of_cons; [by apply Hmono2|by eapply Hin2].
    - intros q Hq. by apply Hmono2, Hmono1.
    - intros q Hq. destruct (Hnew2 q Hq) as [Hq1|?]; [|by right].
      destruct (Hnew1 q Hq1) as [?|Hrtc]; [by left|]. right. exists imp.
      split; [by exists path|done]. }
  destruct (Hloop (map_to_list (Imports (pkgs pkg))) ∅ lps)
    as (lps1 & -> & Hp1 & Hin1 & Hmono1 & Hnew1); [|done|].
  { intros path imp Hin. by apply elem_of_map_to_list. }
  rewrite foldl_insert_union by apply NoDup_fst_map_to_list.
  rewrite list_to_map_to_list, (right_id_L ∅ (∪)).
  eexists. split; [done|]. split; [|split; [|split]].
  - intros q lp Hq. destruct (decide (q = pkg)) as [->|Hne].
    + rewrite lookup_insert_eq in Hq. injection Hq as <-. split; [done|].
      intros imp [path Himp]. rewrite lookup_insert_is_Some'. right.
      apply (Hin1 path imp). by apply elem_of_map_to_list.
    + rewrite lookup_insert_ne in Hq by done. destruct (Hp1 q lp Hq) as [-> Hcl].
      split; [done|]. intros imp Himp. rewrite lookup_insert_is_Some'. right.
      by apply Hcl.
  - rewrite lookup_insert_eq. by eexists.
  - intros q Hq. rewrite lookup_insert_is_Some'. right. by apply Hmono1.
  - intros q. rewrite lookup_insert_is_Some'. intros [<-|Hq]; [right; apply rtc_refl|].
    destruct (Hnew1 q Hq) as [?|(imp & Himp & Hrtc)]; [by left|]. right.
    by eapply rtc_l.
Qed.

Lemma dfsActions_spec fuel actions : ∀ lps,
  (∀ act x, act ∈ actions → heap !! act = Some x → rankP (act_pkg x) < fuel) →
  planned lps →
  ∃ lps',
    dfsActions perPkg fuel actions lps = Some lps'
    ∧ planned lps'
    ∧ (∀ act x, act ∈ actions → heap !! act = Some x → is_Some (lps' !! act_pkg x))
    ∧ (∀ q, is_Some (lps !! q) → is_Some (lps' !! q))
    ∧ (∀ q, is_Some (lps' !! q) →
         is_Some (lps !! q)
         ∨ ∃ act x, act ∈ actions ∧ heap !! act = Some x ∧ rtc imports (act_pkg x) q).
Proof.
  induction actions as [|act actions IH]; intros lps Hfuel Hplanned.
  { exists lps. split; [done|]. split; [done|]. split; [by intros ?? ?%elem_of_nil|].
    split; [done|]. intros q ?. by left. }
  cbn [Plan.dfsActions]. destruct (heap !! act) as [x|] eqn:Hx.
  - destruct (dfs_spec fuel (act_pkg x) lps) as (lps1 & -> & Hp1 & Hin1 & Hmono1 & Hnew1);
      [apply (Hfuel act x); [by left|done]|done|].
    destruct (IH lps1) as (lps2 & -> & Hp2 & Hin2 & Hmono2 & Hnew2);
      [intros a y ??; apply (Hfuel a y); [by right|done]|done|].
    exists lps2. split; [done|]. split; [done|]. split; [|split].
    + intros a y [->|Ha]%elem_of_cons Hy; [|by eapply Hin2].
      rewrite Hx in Hy. injection Hy as <-. by apply Hmono2.
    + intros q Hq. by apply Hmono2, Hmono1.
    + intros q Hq. destruct (Hnew2 q Hq) as [Hq1|(a & y & Ha & Hy & Hrtc)].
      * destruct (Hnew1 q Hq1) as [?|Hrtc]; [by left|]. right. exists act, x.
        split; [by left|done].
      * right. exists a, y. split; [by right|done].
  - destruct (IH lps) as (lps2 & -> & Hp2 & Hin2 & Hmono2 & Hnew2);
      [intros a y ??; apply (Hfuel a y); [by right|done]|done|].
    exists lps2. split; [done|]. split; [done|]. split; [|split; [done|]].
    + intros a y [->|Ha]%elem_of_cons Hy; [congruence|by eapply Hin2].
    + intros q Hq. destruct (Hnew2 q Hq) as [?|(a & y & Ha & Hy & Hrtc)]; [by left|].
      right. exists a, y. split; [by right|done].
Qed.

End WithGrouping.

(** X25. One companion per package to load.  On an acyclic import graph the
    sequential part of [loadPackagesAndFacts] returns a [loadingPackages]
    map that has a companion exactly for the packages of the actions and the
    packages these import, directly or not.  The companion of a package
    names that package, is initial exactly when the package is one of the
    initial packages, is not loaded yet, lists the actions on the package in
    the order of the action list, and maps every import path of the package
    to the companion of the imported package, which is in the map. *)
Theorem loadingPackages_plan fuel actions :
  (∀ act x, act ∈ actions → heap !! act = Some x → rankP (act_pkg x) < fuel) →
  ∃ lps,
    loadingPackages fuel actions = Some lps
    ∧ (∀ q, is_Some (lps !! q) ↔
            ∃ act x, act ∈ actions ∧ heap !! act = Some x
                     ∧ rtc imports (act_pkg x) q)
    ∧ ∀ q lp, lps !! q = Some lp →
        lp_pkg lp = q
        ∧ isInitial lp = bool_decide (q ∈ initialPkgs)
        ∧ wasLoaded lp = false
        ∧ lp_actions lp = actionsOn q actions
        ∧ lp_imports lp = Imports (pkgs q)
        ∧ ∀ path imp, lp_imports lp !! path = Some imp → is_Some (lps !! imp).
Proof.
  intros Hfuel. unfold Plan.loadingPackages.
  destruct (dfsActions_spec (actionPerPkg actions) fuel actions ∅ Hfuel)
    as (lps & Hlps & Hplanned & Hin & _ & Hnew).
  { intros q lp Hq. by rewrite lookup_empty in Hq. }
  exists lps. split; [done|]. split.
  - intros q. split.
    + intros Hq. destruct (Hnew q Hq) as [Hempty|?]; [|done].
      rewrite lookup_empty in Hempty. by destruct Hempty.
    + intros (act & x & Hact & Hx & Hrtc). specialize (Hin act x Hact Hx).
      revert Hin. induction Hrtc as [|a b c Hab _ IH]; [done|].
      intros [lp Ha]. apply IH. destruct (Hplanned a lp Ha) as [_ Hcl]. by apply Hcl.
  - intros q lp Hq. destruct (Hplanned q lp Hq) as [-> Hcl]. cbn.
    split; [done|]. split; [done|]. split; [done|]. split.
    + unfold Plan.actionPerPkg. rewrite foldl_groupAction. by rewrite lookup_empty.
    + split; [done|]. intros path imp Himp. apply Hcl. by exists path.
Qed.

End PlanTheorems.

(** The two root actions of the sample, on [root] and on a package without
    imports. *)
Lemma loadingPackages_plan_witness :
  let heap := Sample.twoRoots in
  let actions := [0; 1] in
  ∃ lps,
    Plan.loadingPackages Sample.pkgs {[1%positive]} heap 3 actions = Some lps
    ∧ (∀ q, is_Some (lps !! q) ↔
            ∃ act x, act ∈ actions ∧ heap !! act = Some x
                     ∧ rtc (λ p q, ∃ path, Imports (Sample.pkgs p) !! path = Some q)
                         (act_pkg x) q)
    ∧ ∀ q lp, lps !! q = Some lp →
        Loader.lp_pkg lp = q
        ∧ Loader.isInitial lp = bool_decide (q ∈ ({[1%positive]} : gset PackagePtr))
        ∧ Loader.wasLoaded lp = false
        ∧ Loader.lp_actions lp
          = filter (λ act, act_pkg <$> heap !! act = Some q) actions
        ∧ Loader.lp_imports lp = Imports (Sample.pkgs q)
        ∧ ∀ path imp, Loader.lp_imports lp !! path = Some imp → is_Some (lps !! imp).
Proof.
  intros heap actions.
  apply (loadingPackages_plan Sample.pkgs {[1%positive]} heap Sample.rankP
           sample_Imports_rank 3 actions).
  intros act x _ _. unfold Sample.rankP. repeat case_decide; lia.
Defined.
